(** * String analysis service: property computer, content store, filters and
      natural-language filter parser (src/routes/strings.ts, src/db/schema.sql).

    JavaScript strings are sequences of UTF-16 code units; they are modelled
    as [list N].  The Unicode tables of the host (lower-casing, canonical
    decomposition, combining classes, upper-casing used by case-insensitive
    regular expressions) are parameters of the development for the
    non-ASCII range; on ASCII they are written out. *)

From Stdlib Require Import ZArith NArith List Bool Lia String Ascii.
From stdpp Require Import base decidable countable list gmap.
Import ListNotations.

#[local] Set Warnings "-register-all".

Local Open Scope N_scope.

(** ** JavaScript strings *)

Definition jsstring := list N.

(** An ASCII literal of the source as a sequence of code units. *)
Definition js (s : string) : jsstring :=
  List.map N_of_ascii (list_ascii_of_string s).

Fixpoint jsstring_eqb (a b : jsstring) : bool :=
  match a, b with
  | [], [] => true
  | x :: a', y :: b' => (x =? y) && jsstring_eqb a' b'
  | _, _ => false
  end.

Definition in_range (lo hi c : N) : bool := (lo <=? c) && (c <=? hi).

(** WhiteSpace and LineTerminator of ECMAScript: the set removed by
    [String.prototype.trim] and matched by the class [\s]. *)
Definition is_whitespace (c : N) : bool :=
  in_range 9 13 c || (c =? 32) || (c =? 160) || (c =? 5760)
  || in_range 8192 8202 c || (c =? 8232) || (c =? 8233) || (c =? 8239)
  || (c =? 8287) || (c =? 12288) || (c =? 65279).

Definition is_digit (c : N) : bool := in_range 48 57 c.
Definition is_lower_az (c : N) : bool := in_range 97 122 c.
Definition is_upper_AZ (c : N) : bool := in_range 65 90 c.

Fixpoint drop_while (p : N -> bool) (s : jsstring) : jsstring :=
  match s with
  | c :: s' => if p c then drop_while p s' else s
  | [] => []
  end.

Fixpoint take_while (p : N -> bool) (s : jsstring) : jsstring :=
  match s with
  | c :: s' => if p c then c :: take_while p s' else []
  | [] => []
  end.

(** [String.prototype.trim] *)
Definition trim (s : jsstring) : jsstring :=
  rev (drop_while is_whitespace (rev (drop_while is_whitespace s))).

(** [s.startsWith(p)], returning what follows the prefix. *)
Fixpoint strip_prefix (p s : jsstring) : option jsstring :=
  match p, s with
  | [], _ => Some s
  | x :: p', y :: s' => if x =? y then strip_prefix p' s' else None
  | _ :: _, [] => None
  end.

(** [String.prototype.includes] *)
Fixpoint includes (s sub : jsstring) : bool :=
  match strip_prefix sub s with
  | Some _ => true
  | None => match s with
            | [] => false
            | _ :: s' => includes s' sub
            end
  end.

(** ** Code points

    [Array.from(value)] uses the string iterator: a high surrogate followed
    by a low surrogate is one element, every other code unit is an element
    of its own. *)

Definition is_high_surrogate (c : N) : bool := in_range 55296 56319 c.
Definition is_low_surrogate (c : N) : bool := in_range 56320 57343 c.

Fixpoint Array_from (s : jsstring) : list jsstring :=
  match s with
  | [] => []
  | hi :: rest =>
      match rest with
      | lo :: rest' =>
          if is_high_surrogate hi && is_low_surrogate lo
          then [hi; lo] :: Array_from rest'
          else [hi] :: Array_from rest
      | [] => [[hi]]
      end
  end.

(** The Unicode code points of a string (UTF-16 decoding; an unpaired
    surrogate is the code point of its own value). *)
Fixpoint codepoints (s : jsstring) : list N :=
  match s with
  | [] => []
  | hi :: rest =>
      match rest with
      | lo :: rest' =>
          if is_high_surrogate hi && is_low_surrogate lo
          then (65536 + (hi - 55296) * 1024 + (lo - 56320)) :: codepoints rest'
          else hi :: codepoints rest
      | [] => [hi]
      end
  end.

(** UTF-16 encoding of one code point. *)
Definition utf16_of_codepoint (cp : N) : jsstring :=
  if cp <? 65536 then [cp]
  else [55296 + (cp - 65536) / 1024; 56320 + (cp - 65536) mod 1024].

Definition utf16 (cps : list N) : jsstring := flat_map utf16_of_codepoint cps.

(** ** Host Unicode support *)

(** The Unicode tables of the host, for the code points outside ASCII. *)
Class Unicode := {
  (** Lower-case mapping of a code point, given the code points before and
      after it (the mapping of capital sigma depends on its context). *)
  unicode_lower : list N -> N -> list N -> list N;
  (** Full canonical decomposition of a code point. *)
  unicode_decomposition : N -> list N;
  (** Canonical combining class of a code point. *)
  unicode_combining_class : N -> N;
  (** [String.prototype.toUpperCase] on a single code unit. *)
  unicode_upper_unit : N -> jsstring
}.

(** A host whose tables leave every code point outside ASCII alone. *)
Definition basic_latin : Unicode := {|
  unicode_lower := fun _ cp _ => [cp];
  unicode_decomposition := fun cp => [cp];
  unicode_combining_class := fun _ => 0;
  unicode_upper_unit := fun cu => [cu]
|}.

Section Host.

Context {U : Unicode}.

Definition lower_codepoint (before : list N) (cp : N) (after : list N) : list N :=
  if cp <? 128 then [if is_upper_AZ cp then cp + 32 else cp]
  else unicode_lower before cp after.

Fixpoint lower_codepoints (before cps : list N) : list N :=
  match cps with
  | [] => []
  | cp :: after =>
      lower_codepoint before cp after ++ lower_codepoints (before ++ [cp]) after
  end.

(** [String.prototype.toLowerCase] *)
Definition toLowerCase (s : jsstring) : jsstring :=
  utf16 (lower_codepoints [] (codepoints s)).

Definition decomposition (cp : N) : list N :=
  if cp <? 128 then [cp] else unicode_decomposition cp.

Definition combining_class (cp : N) : N :=
  if cp <? 128 then 0 else unicode_combining_class cp.

(** Canonical ordering: a combining mark moves left past the marks of a
    strictly greater class.  [out] is the output so far, last code point
    first. *)
Fixpoint place_mark (cp : N) (out : list N) : list N :=
  match out with
  | p :: out' =>
      if (0 <? combining_class cp) && (combining_class cp <? combining_class p)
      then p :: place_mark cp out'
      else cp :: out
  | [] => [cp]
  end.

Definition canonical_order (cps : list N) : list N :=
  rev (fold_left (fun out cp => place_mark cp out) cps []).

(** [String.prototype.normalize("NFD")] *)
Definition normalize_NFD (s : jsstring) : jsstring :=
  utf16 (canonical_order (flat_map decomposition (codepoints s))).

(** Canonicalize of a case-insensitive regular expression without the
    unicode flag: upper-casing of one code unit, kept only when the
    result is one code unit and does not fall into ASCII from outside. *)
Definition canonicalize (ch : N) : N :=
  if ch <? 128 then (if is_lower_az ch then ch - 32 else ch)
  else match unicode_upper_unit ch with
       | [cu] => if cu <? 128 then ch else cu
       | _ => ch
       end.

(** The members of the class [a-z0-9]. *)
Definition class_az09 (c : N) : bool := is_lower_az c || is_digit c.

Definition members_az09 : list N :=
  List.map N.of_nat (seq 97 26) ++ List.map N.of_nat (seq 48 10).

(** [[^a-z0-9]] under the flag [i]: no member of the class has the
    canonical form of the code unit. *)
Definition class_not_az09_i (ch : N) : bool :=
  negb (existsb (fun a => canonicalize a =? canonicalize ch) members_az09).

(** The class of U+0300 to U+036F, the combining diacritical marks. *)
Definition class_combining_mark (ch : N) : bool := in_range 768 879 ch.

(** [s.replace(/C/g, "")] for a pattern that is a single character
    class: every code unit of the class is deleted. *)
Definition remove_class (cls : N -> bool) (s : jsstring) : jsstring :=
  List.filter (fun c => negb (cls c)) s.

Definition normalizeForPalindrome (input : jsstring) : jsstring :=
  remove_class class_not_az09_i
    (remove_class class_combining_mark
       (normalize_NFD (toLowerCase input))).

End Host.

(** ** Regular expressions

    The patterns of the source are kept as syntax and run by a backtracking
    matcher in continuation-passing style, after the semantics of
    ECMAScript: quantifiers are greedy, an iteration of [*] that consumes
    nothing is rejected, and there is one capture group. *)

Inductive regex : Type :=
| Eps
| Class (p : N -> bool)
| Seq (r1 r2 : regex)
| Opt (r : regex)
| Star (r : regex)
| Group (r : regex).

Definition Chr (c : N) : regex := Class (N.eqb c).
Definition Plus (r : regex) : regex := Seq r (Star r).

(** A literal run of characters. *)
Fixpoint Lit (s : jsstring) : regex :=
  match s with
  | [] => Eps
  | c :: s' => Seq (Chr c) (Lit s')
  end.

Section Matcher.

Context {R : Type}.

(** A continuation receives the rest of the input and the capture. *)
Definition cont : Type := jsstring -> option jsstring -> option R.

(** The loop of a starred pattern whose body is run by [step]: another
    round if the body consumes something and the rest of the pattern
    accepts, the continuation otherwise. *)
Fixpoint iterate (step : jsstring -> option jsstring -> cont -> option R)
  (k : cont) (fuel : nat) (s : jsstring) (cap : option jsstring) : option R :=
  match fuel with
  | O => k s cap
  | S fuel' =>
      match step s cap
              (fun s' cap' =>
                 if (length s' <? length s)%nat
                 then iterate step k fuel' s' cap' else None) with
      | Some x => Some x
      | None => k s cap
      end
  end.

Fixpoint m (r : regex) (s : jsstring) (cap : option jsstring) (k : cont)
  : option R :=
  match r with
  | Eps => k s cap
  | Class p =>
      match s with
      | c :: s' => if p c then k s' cap else None
      | [] => None
      end
  | Seq r1 r2 => m r1 s cap (fun s' cap' => m r2 s' cap' k)
  | Opt r' =>
      match m r' s cap k with
      | Some x => Some x
      | None => k s cap
      end
  | Star r' => iterate (m r') k (length s) s cap
  | Group r' =>
      m r' s cap
        (fun s' _ => k s' (Some (firstn (length s - length s') s)))
  end.

(** [Star] over a class, written out: the longest run first, then the
    shorter ones. *)
Fixpoint star_class (p : N -> bool) (k : cont) (s : jsstring)
  (cap : option jsstring) : option R :=
  match s with
  | c :: s' =>
      if p c then
        match star_class p k s' cap with
        | Some x => Some x
        | None => k s cap
        end
      else k s cap
  | [] => k s cap
  end.

End Matcher.

(** A match anchored at the start of [s]: the rest of the input and the
    text of the capture group. *)
Definition exec (r : regex) (s : jsstring) : option (jsstring * option jsstring) :=
  m r s None (fun rest cap => Some (rest, cap)).

(** [s.match(r)] for a pattern without the flag [g]: the leftmost position
    where the pattern matches; the result is the capture group. *)
Fixpoint search (r : regex) (s : jsstring) : option (option jsstring) :=
  match exec r s with
  | Some (_, cap) => Some cap
  | None => match s with
            | [] => None
            | _ :: s' => search r s'
            end
  end.

(** [s.split(r)] for a non-empty [s] and a pattern without capture group:
    [tok] is the piece being accumulated since the last separator (last
    code unit first), [s] the input from the position tried.  A match
    ending where the piece started does not split. *)
Fixpoint split_from (fuel : nat) (r : regex) (tok s : jsstring) : list jsstring :=
  match fuel with
  | O => [rev tok]
  | S fuel' =>
      match s with
      | [] => [rev tok]
      | c :: s' =>
          match exec r s with
          | Some (rest, _) =>
              if (length rest =? length s)%nat && (length tok =? 0)%nat
              then split_from fuel' r (c :: tok) s'
              else rev tok :: split_from fuel' r [] rest
          | None => split_from fuel' r (c :: tok) s'
          end
      end
  end.

Definition split (r : regex) (s : jsstring) : list jsstring :=
  match s with
  | [] => match exec r [] with Some _ => [] | None => [[]] end
  | _ => split_from (2 * length s) r [] s
  end.

(** The pattern [\s+]. *)
Definition re_whitespace_run : regex := Plus (Class is_whitespace).

Definition calculateWordCount (input : jsstring) : Z :=
  let trimmed := trim input in
  if (length trimmed =? 0)%nat then 0%Z
  else Z.of_nat (length (split re_whitespace_run trimmed)).

(** ** SHA-256 and UTF-8

    [crypto.subtle.digest("SHA-256", bytes)] after FIPS 180-4, on 32-bit
    words kept in [N]; [encoder.encode] is the UTF-8 encoder of
    [TextEncoder], which replaces an unpaired surrogate by U+FFFD. *)

Module SHA256.

Definition w32 (x : N) : N := x mod 4294967296.
Definition add32 (x y : N) : N := w32 (x + y).
Definition rotr (n x : N) : N :=
  N.lor (N.shiftr x n) (w32 (N.shiftl x (32 - n))).
Definition not32 (x : N) : N := 4294967295 - x.

Definition Ch (x y z : N) : N := N.lxor (N.land x y) (N.land (not32 x) z).
Definition Maj (x y z : N) : N :=
  N.lxor (N.lxor (N.land x y) (N.land x z)) (N.land y z).
Definition Sigma0 (x : N) : N := N.lxor (N.lxor (rotr 2 x) (rotr 13 x)) (rotr 22 x).
Definition Sigma1 (x : N) : N := N.lxor (N.lxor (rotr 6 x) (rotr 11 x)) (rotr 25 x).
Definition sigma0 (x : N) : N := N.lxor (N.lxor (rotr 7 x) (rotr 18 x)) (N.shiftr x 3).
Definition sigma1 (x : N) : N := N.lxor (N.lxor (rotr 17 x) (rotr 19 x)) (N.shiftr x 10).

Definition K : list N :=
  [ 1116352408; 1899447441; 3049323471; 3921009573; 961987163; 1508970993;
    2453635748; 2870763221; 3624381080; 310598401; 607225278; 1426881987;
    1925078388; 2162078206; 2614888103; 3248222580; 3835390401; 4022224774;
    264347078; 604807628; 770255983; 1249150122; 1555081692; 1996064986;
    2554220882; 2821834349; 2952996808; 3210313671; 3336571891; 3584528711;
    113926993; 338241895; 666307205; 773529912; 1294757372; 1396182291;
    1695183700; 1986661051; 2177026350; 2456956037; 2730485921; 2820302411;
    3259730800; 3345764771; 3516065817; 3600352804; 4094571909; 275423344;
    430227734; 506948616; 659060556; 883997877; 958139571; 1322822218;
    1537002063; 1747873779; 1955562222; 2024104815; 2227730452; 2361852424;
    2428436474; 2756734187; 3204031479; 3329325298 ].

Definition H0 : list N :=
  [ 1779033703; 3144134277; 1013904242; 2773480762;
    1359893119; 2600822924; 528734635; 1541459225 ].

(** Padding: a one bit, zeros up to 56 modulo 64 bytes, then the length of
    the message in bits on 64 bits, most significant byte first. *)
Definition be_bytes (count : nat) (x : N) : list N :=
  List.map (fun i => (N.shiftr x (8 * N.of_nat i)) mod 256) (rev (seq 0 count)).

Definition pad (msg : list N) : list N :=
  let len := length msg in
  let zeros := ((119 - len mod 64) mod 64)%nat in
  msg ++ [128] ++ repeat 0 zeros ++ be_bytes 8 (8 * N.of_nat len).

Fixpoint words (fuel : nat) (bytes : list N) : list N :=
  match fuel with
  | O => []
  | S fuel' =>
      match bytes with
      | a :: b :: c :: d :: rest =>
          (((a * 256 + b) * 256 + c) * 256 + d) :: words fuel' rest
      | _ => []
      end
  end.

(** The message schedule, most recent word first. *)
Fixpoint schedule (count : nat) (w : list N) : list N :=
  match count with
  | O => w
  | S count' =>
      let x := add32 (add32 (sigma1 (nth 1 w 0)) (nth 6 w 0))
                     (add32 (sigma0 (nth 14 w 0)) (nth 15 w 0)) in
      schedule count' (x :: w)
  end.

Definition round (st : list N) (kw : N * N) : list N :=
  match st with
  | [a; b; c; d; e; f; g; h] =>
      let t1 := add32 (add32 (add32 h (Sigma1 e)) (add32 (Ch e f g) (fst kw))) (snd kw) in
      let t2 := add32 (Sigma0 a) (Maj a b c) in
      [add32 t1 t2; a; b; c; add32 d t1; e; f; g]
  | _ => st
  end.

Definition compress (h : list N) (block : list N) : list N :=
  let w := rev (schedule 48 (rev (words 16 block))) in
  let st := fold_left round (combine K w) h in
  List.map (fun p => add32 (fst p) (snd p)) (combine h st).

Fixpoint blocks (fuel : nat) (h : list N) (bytes : list N) : list N :=
  match fuel with
  | O => h
  | S fuel' =>
      match bytes with
      | [] => h
      | _ => blocks fuel' (compress h (firstn 64 bytes)) (skipn 64 bytes)
      end
  end.

Definition digest (msg : list N) : list N :=
  let padded := pad msg in
  flat_map (be_bytes 4) (blocks (length padded) H0 padded).

End SHA256.

(** [TextEncoder.prototype.encode] *)
Definition utf8_of_codepoint (cp : N) : list N :=
  if cp <? 128 then [cp]
  else if cp <? 2048 then [192 + cp / 64; 128 + cp mod 64]
  else if in_range 55296 57343 cp then [239; 191; 189]
  else if cp <? 65536 then
    [224 + cp / 4096; 128 + (cp / 64) mod 64; 128 + cp mod 64]
  else [240 + cp / 262144; 128 + (cp / 4096) mod 64;
        128 + (cp / 64) mod 64; 128 + cp mod 64].

Definition encode (s : jsstring) : list N :=
  flat_map utf8_of_codepoint (codepoints s).

Definition hex_digit (d : N) : N := if d <? 10 then 48 + d else 87 + d.

(** [toHex]: every byte as two lower-case hexadecimal digits. *)
Definition toHex (buffer : list N) : jsstring :=
  flat_map (fun byte => [hex_digit (byte / 16); hex_digit (byte mod 16)]) buffer.

(** ** Numbers and JSON values *)

(** The values of [number] that occur as filter bounds: the integers a
    double represents, and positive infinity. *)
Inductive number : Type :=
| Finite (z : Z)
| Infinity.

(** Rounding of a non-negative integer to the nearest double, ties to
    even; beyond the largest double the result is infinite. *)
Definition to_double (n : Z) : number :=
  (if n <? 2 ^ 53 then Finite n
   else
     let shift := Z.log2 n - 52 in
     let q := Z.shiftr n shift in
     let rest := n mod 2 ^ shift in
     let half := 2 ^ (shift - 1) in
     let q' := if (half <? rest) || ((rest =? half) && Z.odd q) then q + 1 else q in
     let r := Z.shiftl q' shift in
     if r <? 2 ^ 1024 then Finite r else Infinity)%Z.

Definition number_add (x : number) (y : Z) : number :=
  match x with
  | Finite z => to_double (z + y)
  | Infinity => Infinity
  end.

Definition number_eqb (x y : number) : bool :=
  match x, y with
  | Finite a, Finite b => (a =? b)%Z
  | Infinity, Infinity => true
  | _, _ => false
  end.

(** [x < y] *)
Definition number_ltb (x y : number) : bool :=
  match x, y with
  | Finite a, Finite b => (a <? b)%Z
  | Finite _, Infinity => true
  | Infinity, _ => false
  end.

(** The value of a run of decimal digits. *)
Definition decimal (ds : jsstring) : Z :=
  fold_left (fun acc d => (10 * acc + (Z.of_N d - 48))%Z) ds 0%Z.

(** [Number(ds)] for a non-empty run of decimal digits. *)
Definition Number_of_digits (ds : jsstring) : number := to_double (decimal ds).

(** A value as [JSON.parse] returns it.  A number is kept as the decimal
    [mantissa * 10 ^ exponent] that the text denotes; the keys of an object
    are pairwise different and in property order. *)
Inductive JValue : Type :=
| JNull
| JBool (b : bool)
| JNumber (mantissa exponent : Z)
| JString (s : jsstring)
| JArray (items : list JValue)
| JObject (members : list (jsstring * JValue)).

(** *** Objects as ordered maps

    The own properties of an object are enumerated with the array-index
    keys first, in ascending order, then the other keys in the order of
    their creation. *)

Definition array_index (k : jsstring) : option Z :=
  match k with
  | [] => None
  | c :: rest =>
      if ((c =? 48) && (length rest =? 0)%nat)
         || (in_range 49 57 c && forallb is_digit rest)
      then (if decimal k <? 4294967295 then Some (decimal k) else None)%Z
      else None
  end.

Section Objects.

Context {V : Type}.

Fixpoint obj_get (k : jsstring) (o : list (jsstring * V)) : option V :=
  match o with
  | [] => None
  | (k', v) :: o' => if jsstring_eqb k k' then Some v else obj_get k o'
  end.

Fixpoint obj_replace (k : jsstring) (v : V) (o : list (jsstring * V))
  : list (jsstring * V) :=
  match o with
  | [] => []
  | (k', v') :: o' =>
      if jsstring_eqb k k' then (k', v) :: o' else (k', v') :: obj_replace k v o'
  end.

Fixpoint obj_insert_index (i : Z) (k : jsstring) (v : V) (o : list (jsstring * V))
  : list (jsstring * V) :=
  match o with
  | [] => [(k, v)]
  | (k', v') :: o' =>
      match array_index k' with
      | Some j => if (j <? i)%Z then (k', v') :: obj_insert_index i k v o'
                  else (k, v) :: o
      | None => (k, v) :: o
      end
  end.

(** [o[k] = v] *)
Definition obj_set (k : jsstring) (v : V) (o : list (jsstring * V))
  : list (jsstring * V) :=
  match obj_get k o with
  | Some _ => obj_replace k v o
  | None =>
      match array_index k with
      | Some i => obj_insert_index i k v o
      | None => o ++ [(k, v)]
      end
  end.

End Objects.

(** A key [k'] may come after a key [k] in the enumeration of the
    properties of an object: the keys differ, an array index comes before
    a greater array index and before every other key. *)
Definition may_follow (k k' : jsstring) : bool :=
  negb (jsstring_eqb k k')
  && match array_index k, array_index k' with
     | Some i, Some j => (i <? j)%Z
     | Some _, None => true
     | None, Some _ => false
     | None, None => true
     end.

(** Keys in an order in which an object can enumerate them. *)
Fixpoint property_order (keys : list jsstring) : bool :=
  match keys with
  | [] => true
  | k :: keys' => forallb (may_follow k) keys' && property_order keys'
  end.

Definition buildCharacterFrequencyMap (input : jsstring) : list (jsstring * Z) :=
  fold_left
    (fun frequency char =>
       obj_set char (default 0%Z (obj_get char frequency) + 1)%Z frequency)
    (Array_from input) [].

(** The frequency map as a value. *)
Definition frequency_object (o : list (jsstring * Z)) : JValue :=
  JObject (List.map (fun kv => (fst kv, JNumber (snd kv) 0)) o).

(** *** [JSON.parse] *)

Module JSON.

Definition is_json_space (c : N) : bool :=
  (c =? 32) || (c =? 9) || (c =? 10) || (c =? 13).

Definition skip_ws (s : jsstring) : jsstring := drop_while is_json_space s.

Definition hex_value (c : N) : option N :=
  if is_digit c then Some (c - 48)
  else if in_range 97 102 c then Some (c - 87)
  else if in_range 65 70 c then Some (c - 55)
  else None.

(** The escapes of one letter: quote, backslash, slash, b, f, n, r, t. *)
Definition simple_escape (e : N) : option N :=
  if e =? 34 then Some 34
  else if e =? 92 then Some 92
  else if e =? 47 then Some 47
  else if e =? 98 then Some 8
  else if e =? 102 then Some 12
  else if e =? 110 then Some 10
  else if e =? 114 then Some 13
  else if e =? 116 then Some 9
  else None.

(** The characters of a string after the opening quote; [acc] holds the
    decoded code units, last first. *)
Fixpoint parse_string (s acc : jsstring) : option (jsstring * jsstring) :=
  match s with
  | [] => None
  | c :: rest =>
      if c =? 34 then Some (rev acc, rest)
      else if c =? 92 then
        match rest with
        | [] => None
        | e :: t =>
            match simple_escape e with
            | Some x => parse_string t (x :: acc)
            | None =>
                if e =? 117 then
                  match t with
                  | a :: b :: c' :: d :: t' =>
                      match hex_value a, hex_value b, hex_value c', hex_value d with
                      | Some a', Some b', Some c'', Some d' =>
                          parse_string t'
                            ((((a' * 16 + b') * 16 + c'') * 16 + d') :: acc)
                      | _, _, _, _ => None
                      end
                  | _ => None
                  end
                else None
            end
        end
      else if c <? 32 then None
      else parse_string rest (c :: acc)
  end.

(** The outcome of a parser that runs on fuel. *)
Inductive Parse (A : Type) : Type :=
| Parsed (a : A) (rest : jsstring)
| Malformed
| OutOfFuel.
Arguments Parsed {A} a rest.
Arguments Malformed {A}.
Arguments OutOfFuel {A}.

(** A number: an optional minus sign, a whole part without leading zero,
    an optional fraction and an optional exponent. *)
Definition parse_number (s : jsstring) : Parse JValue :=
  let negative := match s with c :: _ => c =? 45 | [] => false end in
  let s1 := if negative then skipn 1 s else s in
  let whole :=
    match s1 with
    | c :: _ => if c =? 48 then [48] else take_while is_digit s1
    | [] => []
    end in
  let s2 := skipn (length whole) s1 in
  let has_fraction := match s2 with c :: _ => c =? 46 | [] => false end in
  let fraction := if has_fraction then take_while is_digit (skipn 1 s2) else [] in
  let s3 := if has_fraction then skipn (S (length fraction)) s2 else s2 in
  let has_exponent :=
    match s3 with c :: _ => (c =? 101) || (c =? 69) | [] => false end in
  let minus :=
    has_exponent && match skipn 1 s3 with c :: _ => c =? 45 | [] => false end in
  let plus :=
    has_exponent && match skipn 1 s3 with c :: _ => c =? 43 | [] => false end in
  let e1 := if minus || plus then skipn 2 s3 else skipn 1 s3 in
  let exponent := if has_exponent then take_while is_digit e1 else [] in
  let s4 := if has_exponent then skipn (length exponent) e1 else s3 in
  if (length whole =? 0)%nat
     || (has_fraction && (length fraction =? 0)%nat)
     || (has_exponent && (length exponent =? 0)%nat)
  then Malformed
  else
    let magnitude := decimal (whole ++ fraction) in
    Parsed
      (JNumber (if negative then - magnitude else magnitude)%Z
         ((if minus then - decimal exponent else decimal exponent)
          - Z.of_nat (length fraction))%Z)
      s4.

Fixpoint parse_value (fuel : nat) (s : jsstring) : Parse JValue :=
  match fuel with
  | O => OutOfFuel
  | S fuel' =>
      match skip_ws s with
      | [] => Malformed
      | c :: t =>
          if c =? 123 then
            match skip_ws t with
            | [] => Malformed
            | c' :: t' =>
                if c' =? 125 then Parsed (JObject []) t'
                else parse_members fuel' t []
            end
          else if c =? 91 then
            match skip_ws t with
            | [] => Malformed
            | c' :: t' =>
                if c' =? 93 then Parsed (JArray []) t'
                else parse_elements fuel' t []
            end
          else if c =? 34 then
            match parse_string t [] with
            | Some (str, t') => Parsed (JString str) t'
            | None => Malformed
            end
          else
            match strip_prefix (js "true") (c :: t),
                  strip_prefix (js "false") (c :: t),
                  strip_prefix (js "null") (c :: t) with
            | Some t', _, _ => Parsed (JBool true) t'
            | _, Some t', _ => Parsed (JBool false) t'
            | _, _, Some t' => Parsed JNull t'
            | None, None, None => parse_number (c :: t)
            end
      end
  end

with parse_elements (fuel : nat) (s : jsstring) (acc : list JValue)
  : Parse JValue :=
  match fuel with
  | O => OutOfFuel
  | S fuel' =>
      match parse_value fuel' s with
      | Parsed v t =>
          match skip_ws t with
          | [] => Malformed
          | c :: t' =>
              if c =? 44 then parse_elements fuel' t' (v :: acc)
              else if c =? 93 then Parsed (JArray (rev (v :: acc))) t'
              else Malformed
          end
      | Malformed => Malformed
      | OutOfFuel => OutOfFuel
      end
  end

with parse_members (fuel : nat) (s : jsstring) (acc : list (jsstring * JValue))
  : Parse JValue :=
  match fuel with
  | O => OutOfFuel
  | S fuel' =>
      match skip_ws s with
      | [] => Malformed
      | q :: t =>
          if q =? 34 then
            match parse_string t [] with
            | None => Malformed
            | Some (key, t1) =>
                match skip_ws t1 with
                | [] => Malformed
                | colon :: t2 =>
                    if colon =? 58 then
                      match parse_value fuel' t2 with
                      | Parsed v t3 =>
                          match skip_ws t3 with
                          | [] => Malformed
                          | c :: t4 =>
                              if c =? 44
                              then parse_members fuel' t4 (obj_set key v acc)
                              else if c =? 125
                              then Parsed (JObject (obj_set key v acc)) t4
                              else Malformed
                          end
                      | Malformed => Malformed
                      | OutOfFuel => OutOfFuel
                      end
                    else Malformed
                end
            end
          else Malformed
      end
  end.

(** [JSON.parse(text)]; [None] stands for the [SyntaxError] it throws.
    The fuel is enough for every text (lemma [parse_value_fuel]). *)
Definition parse (text : jsstring) : option JValue :=
  match parse_value (2 * length text + 2) text with
  | Parsed v rest =>
      match skip_ws rest with
      | [] => Some v
      | _ => None
      end
  | Malformed => None
  | OutOfFuel => None
  end.

(** *** [JSON.stringify] of a frequency map *)

Definition hex4 (c : N) : jsstring :=
  [hex_digit (c / 4096); hex_digit ((c / 256) mod 16);
   hex_digit ((c / 16) mod 16); hex_digit (c mod 16)].

(** One element of the string iterator inside a quoted string. *)
Definition quote_char (ch : jsstring) : jsstring :=
  match ch with
  | [c] =>
      if c =? 34 then [92; 34]
      else if c =? 92 then [92; 92]
      else if c =? 8 then [92; 98]
      else if c =? 12 then [92; 102]
      else if c =? 10 then [92; 110]
      else if c =? 13 then [92; 114]
      else if c =? 9 then [92; 116]
      else if (c <? 32) || in_range 55296 57343 c then [92; 117] ++ hex4 c
      else [c]
  | _ => ch
  end.

Definition quote (s : jsstring) : jsstring :=
  [34] ++ flat_map quote_char (Array_from s) ++ [34].

Fixpoint digits_of (fuel : nat) (n : N) (acc : jsstring) : jsstring :=
  match fuel with
  | O => acc
  | S fuel' =>
      if n <? 10 then (48 + n) :: acc
      else digits_of fuel' (n / 10) ((48 + n mod 10) :: acc)
  end.

(** The decimal notation of an integer. *)
Definition integer_to_string (z : Z) : jsstring :=
  let n := Z.abs_N z in
  (if (z <? 0)%Z then [45] else []) ++ digits_of (S (N.to_nat (N.log2 n))) n [].

Fixpoint join (sep : jsstring) (parts : list jsstring) : jsstring :=
  match parts with
  | [] => []
  | [x] => x
  | x :: rest => x ++ sep ++ join sep rest
  end.

(** [JSON.stringify(o)] for an object whose values are integers. *)
Definition stringify (o : list (jsstring * Z)) : jsstring :=
  [123]
  ++ join [44]
       (List.map (fun kv => quote (fst kv) ++ [58] ++ integer_to_string (snd kv)) o)
  ++ [125].

End JSON.

(** ** Records *)

Module Props.
Record t : Type := mk {
  length : Z;
  is_palindrome : bool;
  unique_characters : Z;
  word_count : Z;
  sha256_hash : jsstring;
  character_frequency_map : JValue
}.
End Props.
Abbreviation StringProperties := Props.t.

Module Rec.
Record t : Type := mk {
  id : jsstring;
  value : jsstring;
  properties : StringProperties;
  created_at : jsstring
}.
End Rec.
Abbreviation StoredStringRecord := Rec.t.

Module Row.
Record t : Type := mk {
  id : jsstring;
  value : jsstring;
  length : Z;
  is_palindrome : Z;
  unique_characters : Z;
  word_count : Z;
  character_frequency_map : jsstring;
  created_at : jsstring
}.
End Row.
Abbreviation StoredStringRow := Row.t.

Module Filters.
Record t : Type := mk {
  is_palindrome : option bool;
  min_length : option number;
  max_length : option number;
  word_count : option number;
  contains_character : option jsstring
}.
Definition empty : t := mk None None None None None.
End Filters.
Abbreviation QueryFilters := Filters.t.

(** ** Property computer *)

Section PropertyComputer.

Context {U : Unicode}.

(** [new Set(Array.from(value))] *)
Definition Set_of (items : list jsstring) : gset jsstring := list_to_set items.

Definition computeStringProperties (value : jsstring) : StringProperties :=
  let normalized := normalizeForPalindrome value in
  let reversed := rev normalized in
  let shaBuffer := SHA256.digest (encode value) in
  {| Props.length := Z.of_nat (length (Array_from value));
     Props.is_palindrome :=
       (0 <? length normalized)%nat && jsstring_eqb normalized reversed;
     Props.unique_characters := Z.of_nat (size (Set_of (Array_from value)));
     Props.word_count := calculateWordCount value;
     Props.sha256_hash := toHex shaBuffer;
     Props.character_frequency_map :=
       frequency_object (buildCharacterFrequencyMap value) |}.

End PropertyComputer.

(** ** Reading rows back *)

Definition parseFrequencyMap (raw : jsstring) : JValue :=
  match JSON.parse raw with
  | Some (JObject members) => JObject members
  | Some (JArray items) => JArray items
  | Some _ => JObject []
  | None => JObject []
  end.

Definition mapRowToRecord (row : StoredStringRow) : StoredStringRecord :=
  {| Rec.id := Row.id row;
     Rec.value := Row.value row;
     Rec.properties :=
       {| Props.length := Row.length row;
          Props.is_palindrome := negb (Row.is_palindrome row =? 0)%Z;
          Props.unique_characters := Row.unique_characters row;
          Props.word_count := Row.word_count row;
          Props.sha256_hash := Row.id row;
          Props.character_frequency_map :=
            parseFrequencyMap (Row.character_frequency_map row) |};
     Rec.created_at := Row.created_at row |}.

(** ** Filtering in memory *)

Section Filtering.

Context {U : Unicode}.

(** [a !== b] between a stored integer and a filter bound. *)
Definition differs (a : Z) (b : number) : bool := negb (number_eqb (Finite a) b).

Definition matches (filters : QueryFilters) (record : StoredStringRecord) : bool :=
  let props := Rec.properties record in
  if match Filters.is_palindrome filters with
     | Some flag => negb (eqb (Props.is_palindrome props) flag)
     | None => false
     end then false
  else if match Filters.min_length filters with
          | Some bound => number_ltb (Finite (Props.length props)) bound
          | None => false
          end then false
  else if match Filters.max_length filters with
          | Some bound => number_ltb bound (Finite (Props.length props))
          | None => false
          end then false
  else if match Filters.word_count filters with
          | Some count => differs (Props.word_count props) count
          | None => false
          end then false
  else match Filters.contains_character filters with
       | Some ch =>
           let candidate := toLowerCase ch in
           if negb (includes (toLowerCase (Rec.value record)) candidate)
           then false else true
       | None => true
       end.

Definition applyFilters (records : list StoredStringRecord) (filters : QueryFilters)
  : list StoredStringRecord :=
  List.filter (matches filters) records.

End Filtering.

(** ** The table [strings]

    A table is the list of its columns and its rows in the order of their
    insertion.  Both schemas declare [id] as primary key and [value] as
    unique; text is compared as the strings that were bound. *)

Inductive SqlError : Type :=
| NoSuchColumn
| ConstraintFailed.

Record Table : Type := mkTable {
  columns : list string;
  rows : list StoredStringRow
}.

(** The columns the route expects (header comment of strings.ts). *)
Definition expected_columns : list string :=
  ["id"; "value"; "length"; "is_palindrome"; "unique_characters";
   "word_count"; "character_frequency_map"; "created_at"]%string.

(** The columns that schema.sql creates. *)
Definition schema_sql_columns : list string :=
  ["id"; "value"; "is_palindrome"; "unique_characters";
   "word_count"; "character_frequency_map"; "created_at"]%string.

Definition has_columns (names : list string) (t : Table) : bool :=
  forallb (fun name => existsb (String.eqb name) (columns t)) names.

(** [SELECT id FROM strings WHERE id = ? OR value = ? LIMIT 1] *)
Definition select_existing (id value : jsstring) (t : Table)
  : SqlError + option jsstring :=
  if has_columns ["id"; "value"]%string t then
    inr (option_map Row.id
           (List.find (fun r => jsstring_eqb (Row.id r) id
                                || jsstring_eqb (Row.value r) value) (rows t)))
  else inl NoSuchColumn.

(** [INSERT INTO strings (id, value, length, ...) VALUES (?, ...)]: the
    write checks the primary key and the unique column itself. *)
Definition insert_row (row : StoredStringRow) (t : Table) : SqlError + Table :=
  if has_columns expected_columns t then
    if existsb (fun r => jsstring_eqb (Row.id r) (Row.id row)
                         || jsstring_eqb (Row.value r) (Row.value row)) (rows t)
    then inl ConstraintFailed
    else inr (mkTable (columns t) (rows t ++ [row]))
  else inl NoSuchColumn.

(** *** The conditions of the listing query *)

Inductive condition : Type :=
| is_palindrome_eq (flag : Z)        (* is_palindrome = ? *)
| length_ge (bound : number)         (* length >= ? *)
| length_le (bound : number)         (* length <= ? *)
| word_count_eq (count : number)     (* word_count = ? *)
| lower_value_like (pattern : jsstring). (* LOWER(value) LIKE ? *)

(** [LOWER] of SQLite folds the ASCII letters only. *)
Definition sql_lower (s : jsstring) : jsstring :=
  List.map (fun c => if is_upper_AZ c then c + 32 else c) s.

(** The comparison of a pattern with a text in [LIKE] of SQLite: [%]
    stands for any run of characters, [_] for any one character, and any
    other character for itself, the ASCII letters without regard to
    case. *)
Fixpoint pattern_compare (pattern : list N) : list N -> bool :=
  match pattern with
  | [] => fun text => match text with [] => true | _ => false end
  | p :: pattern' =>
      if p =? 37 then
        fix any (text : list N) : bool :=
          pattern_compare pattern' text
          || match text with [] => false | _ :: text' => any text' end
      else if p =? 95 then
        fun text =>
          match text with [] => false | _ :: text' => pattern_compare pattern' text' end
      else
        fun text =>
          match text with
          | [] => false
          | c :: text' =>
              ((if is_upper_AZ p then p + 32 else p)
               =? (if is_upper_AZ c then c + 32 else c))
              && pattern_compare pattern' text'
          end
  end.

(** SQLite reads both operands of [LIKE] as C strings: each ends before
    its first U+0000. *)
Definition c_string (s : list N) : list N :=
  take_while (fun c => negb (c =? 0)) s.

(** [text LIKE pattern] *)
Definition like (pattern text : list N) : bool :=
  pattern_compare (c_string pattern) (c_string text).

Definition holds (cond : condition) (row : StoredStringRow) : bool :=
  match cond with
  | is_palindrome_eq flag => (Row.is_palindrome row =? flag)%Z
  | length_ge bound => negb (number_ltb (Finite (Row.length row)) bound)
  | length_le bound => negb (number_ltb bound (Finite (Row.length row)))
  | word_count_eq count => number_eqb (Finite (Row.word_count row)) count
  | lower_value_like pattern =>
      like (codepoints pattern) (codepoints (sql_lower (Row.value row)))
  end.

(** Order of two texts, by code points. *)
Fixpoint text_ltb (a b : list N) : bool :=
  match a, b with
  | _, [] => false
  | [], _ :: _ => true
  | x :: a', y :: b' => (x <? y) || ((x =? y) && text_ltb a' b')
  end.

(** [ORDER BY created_at DESC]; rows of equal time stamp stay in the
    order of their insertion. *)
Fixpoint insert_desc (row : StoredStringRow) (sorted : list StoredStringRow)
  : list StoredStringRow :=
  match sorted with
  | [] => [row]
  | r :: sorted' =>
      if text_ltb (codepoints (Row.created_at r)) (codepoints (Row.created_at row))
      then row :: sorted
      else r :: insert_desc row sorted'
  end.

Definition order_by_created_at_desc (l : list StoredStringRow) : list StoredStringRow :=
  fold_left (fun sorted row => insert_desc row sorted) l [].

(** No row is older than a row that comes after it. *)
Fixpoint newest_first (l : list StoredStringRow) : bool :=
  match l with
  | [] => true
  | r :: l' =>
      forallb (fun r' => negb (text_ltb (codepoints (Row.created_at r))
                                 (codepoints (Row.created_at r')))) l'
      && newest_first l'
  end.

(** [SELECT id, value, length, ... FROM strings WHERE c1 AND ... ORDER BY
    created_at DESC] *)
Definition select_where (conditions : list condition) (t : Table)
  : SqlError + list StoredStringRow :=
  if has_columns expected_columns t then
    inr (order_by_created_at_desc
           (List.filter (fun row => forallb (fun c => holds c row) conditions)
              (rows t)))
  else inl NoSuchColumn.

Section Fetch.

Context {U : Unicode}.

(** The conditions that [fetchRecords] builds, with their parameters. *)
Definition conditions_of (filters : QueryFilters) : list condition :=
  match Filters.is_palindrome filters with
  | Some flag => [is_palindrome_eq (if flag then 1 else 0)%Z]
  | None => []
  end
  ++ match Filters.min_length filters with
     | Some bound => [length_ge bound]
     | None => []
     end
  ++ match Filters.max_length filters with
     | Some bound => [length_le bound]
     | None => []
     end
  ++ match Filters.word_count filters with
     | Some count => [word_count_eq count]
     | None => []
     end
  ++ match Filters.contains_character filters with
     | Some ch => [lower_value_like ([37] ++ toLowerCase ch ++ [37])]
     | None => []
     end.

Definition fetchRecords (t : Table) (filters : QueryFilters)
  : SqlError + list StoredStringRecord :=
  match select_where (conditions_of filters) t with
  | inr found => inr (List.map mapRowToRecord found)
  | inl e => inl e
  end.

End Fetch.

(** ** Responses

    A handler answers with a status and a body, answers with a status and
    an error object (its message is left out), or throws: nothing in
    strings.ts or index.ts catches the error of a statement, so the request
    fails with status 500. *)

Inductive Response (A : Type) : Type :=
| Json (status : Z) (body : A)
| JsonError (status : Z)
| Thrown (e : SqlError).
Arguments Json {A} status body.
Arguments JsonError {A} status.
Arguments Thrown {A} e.

Section Routes.

Context {U : Unicode}.

(** *** POST /strings

    The handler runs two statements against the shared table; between the
    two another request may run.  [Checked] is the handler between its
    pre-check and its write. *)

Inductive Phase : Type :=
| Start
| Checked
| Done (response : Response StoredStringRecord).

Definition row_of (value : jsstring) (properties : StringProperties)
  (created_at : jsstring) : StoredStringRow :=
  {| Row.id := Props.sha256_hash properties;
     Row.value := value;
     Row.length := Props.length properties;
     Row.is_palindrome := if Props.is_palindrome properties then 1%Z else 0%Z;
     Row.unique_characters := Props.unique_characters properties;
     Row.word_count := Props.word_count properties;
     Row.character_frequency_map :=
       JSON.stringify (buildCharacterFrequencyMap value);
     Row.created_at := created_at |}.

(** The pre-check of the handler: [Some] is the response that ends the
    request, [None] lets it go on to the write. *)
Definition check_existing (value : jsstring) (t : Table)
  : option (Response StoredStringRecord) :=
  let properties := computeStringProperties value in
  match select_existing (Props.sha256_hash properties) value t with
  | inl e => Some (Thrown e)
  | inr (Some _) => Some (JsonError 409)
  | inr None => None
  end.

(** The write of the handler and its response, at time [now]. *)
Definition write_record (value now : jsstring) (t : Table)
  : Response StoredStringRecord * Table :=
  let properties := computeStringProperties value in
  match insert_row (row_of value properties now) t with
  | inl e => (Thrown e, t)
  | inr t' =>
      (Json 201
         {| Rec.id := Props.sha256_hash properties;
            Rec.value := value;
            Rec.properties := properties;
            Rec.created_at := now |}, t')
  end.

(** One statement of the handler. *)
Definition post_step (value now : jsstring) (phase : Phase) (t : Table)
  : Phase * Table :=
  match phase with
  | Start =>
      match check_existing value t with
      | Some response => (Done response, t)
      | None => (Checked, t)
      end
  | Checked =>
      let (response, t') := write_record value now t in (Done response, t')
  | Done response => (Done response, t)
  end.

(** [insert]: the handler run without interruption. *)
Definition insert (value now : jsstring) (t : Table)
  : Response StoredStringRecord * Table :=
  match check_existing value t with
  | Some response => (response, t)
  | None => write_record value now t
  end.

(** The request schema of POST: the value must not be blank. *)
Definition createString (value now : jsstring) (t : Table)
  : Response StoredStringRecord * Table :=
  if (0 <? length (trim value))%nat then insert value now t
  else (JsonError 400, t).

(** Requests running concurrently: each has its value, its time and its
    phase; a schedule names, step by step, the request that runs its next
    statement. *)
Definition Request : Type := jsstring * jsstring * Phase.

Definition run_one (i : nat) (reqs : list Request) (t : Table)
  : list Request * Table :=
  match reqs !! i with
  | Some (value, now, phase) =>
      let (phase', t') := post_step value now phase t in
      (<[i := (value, now, phase')]> reqs, t')
  | None => (reqs, t)
  end.

Fixpoint run (schedule : list nat) (reqs : list Request) (t : Table)
  : list Request * Table :=
  match schedule with
  | [] => (reqs, t)
  | i :: schedule' =>
      let (reqs', t') := run_one i reqs t in run schedule' reqs' t'
  end.

(** *** GET /strings *)

Definition listStrings (filters : QueryFilters) (t : Table)
  : Response (list StoredStringRecord * QueryFilters) :=
  if match Filters.min_length filters, Filters.max_length filters with
     | Some lo, Some hi => number_ltb hi lo
     | _, _ => false
     end
  then JsonError 400
  else match fetchRecords t filters with
       | inr records => Json 200 (records, filters)
       | inl e => Thrown e
       end.

End Routes.

(** ** Natural-language filter parser *)

Inductive NaturalLanguageParseResult : Type :=
| success (filters : QueryFilters)
| conflict (message : string)
| unparsed (message : string).

(** The keys of [QueryFilters] and the values [setFilter] stores. *)
Inductive FilterKey : Type :=
| is_palindrome_key
| min_length_key
| max_length_key
| word_count_key
| contains_character_key.

Inductive FilterValue : Type :=
| VBool (b : bool)
| VNumber (n : number)
| VString (s : jsstring).

Definition get_filter (key : FilterKey) (f : QueryFilters) : option FilterValue :=
  match key with
  | is_palindrome_key => option_map VBool (Filters.is_palindrome f)
  | min_length_key => option_map VNumber (Filters.min_length f)
  | max_length_key => option_map VNumber (Filters.max_length f)
  | word_count_key => option_map VNumber (Filters.word_count f)
  | contains_character_key => option_map VString (Filters.contains_character f)
  end.

Definition put_filter (key : FilterKey) (v : FilterValue) (f : QueryFilters)
  : QueryFilters :=
  match key, v with
  | is_palindrome_key, VBool b =>
      Filters.mk (Some b) (Filters.min_length f) (Filters.max_length f)
        (Filters.word_count f) (Filters.contains_character f)
  | min_length_key, VNumber n =>
      Filters.mk (Filters.is_palindrome f) (Some n) (Filters.max_length f)
        (Filters.word_count f) (Filters.contains_character f)
  | max_length_key, VNumber n =>
      Filters.mk (Filters.is_palindrome f) (Filters.min_length f) (Some n)
        (Filters.word_count f) (Filters.contains_character f)
  | word_count_key, VNumber n =>
      Filters.mk (Filters.is_palindrome f) (Filters.min_length f)
        (Filters.max_length f) (Some n) (Filters.contains_character f)
  | contains_character_key, VString s =>
      Filters.mk (Filters.is_palindrome f) (Filters.min_length f)
        (Filters.max_length f) (Filters.word_count f) (Some s)
  | _, _ => f
  end.

Definition key_eqb (a b : FilterKey) : bool :=
  match a, b with
  | is_palindrome_key, is_palindrome_key
  | min_length_key, min_length_key
  | max_length_key, max_length_key
  | word_count_key, word_count_key
  | contains_character_key, contains_character_key => true
  | _, _ => false
  end.

(** [a === b] *)
Definition strict_eqb (a b : FilterValue) : bool :=
  match a, b with
  | VBool x, VBool y => eqb x y
  | VNumber x, VNumber y => number_eqb x y
  | VString x, VString y => jsstring_eqb x y
  | _, _ => false
  end.

(** The variables of the parser: [filters], [conflicts] and [parsed]. *)
Record ParseState : Type := mkState {
  filters : QueryFilters;
  conflicts : list FilterKey;
  parsed : bool
}.

Definition setFilter (key : FilterKey) (value : FilterValue) (st : ParseState)
  : ParseState :=
  match get_filter key (filters st) with
  | Some current =>
      if negb (strict_eqb current value)
      then mkState (filters st) (conflicts st ++ [key]) (parsed st)
      else st
  | None => mkState (put_filter key value (filters st)) (conflicts st) true
  end.

(** [setFilter] applied to a list of assignments, from the state the
    parser starts in. *)
Definition apply_assignments (l : list (FilterKey * FilterValue)) : ParseState :=
  fold_left (fun st a => setFilter (fst a) (snd a) st) l
    (mkState Filters.empty [] false).

(** The first value that a list of assignments gives to a key. *)
Definition first_value (key : FilterKey) (l : list (FilterKey * FilterValue))
  : option FilterValue :=
  option_map snd (List.find (fun b => key_eqb key (fst b)) l).

Definition ws : regex := Class is_whitespace.

(** [/longer than\s*(\d+)/] *)
Definition re_longer : regex :=
  Seq (Lit (js "longer than")) (Seq (Star ws) (Group (Plus (Class is_digit)))).

(** [/contain(?:ing)?\s+(?:the\s+)?letter\s*([a-z])/] *)
Definition re_contains_letter : regex :=
  Seq (Lit (js "contain"))
    (Seq (Opt (Lit (js "ing")))
       (Seq (Plus ws)
          (Seq (Opt (Seq (Lit (js "the")) (Plus ws)))
             (Seq (Lit (js "letter"))
                (Seq (Star ws) (Group (Class is_lower_az))))))).

(** [/contain(?:ing)?\s+(?:the\s+)?character\s*([a-z])/] *)
Definition re_contains_character : regex :=
  Seq (Lit (js "contain"))
    (Seq (Opt (Lit (js "ing")))
       (Seq (Plus ws)
          (Seq (Opt (Seq (Lit (js "the")) (Plus ws)))
             (Seq (Lit (js "character"))
                (Seq (Star ws) (Group (Class is_lower_az))))))).

(** The two patterns above, by their noun. *)
Definition re_contains (noun : jsstring) : regex :=
  Seq (Lit (js "contain"))
    (Seq (Opt (Lit (js "ing")))
       (Seq (Plus ws)
          (Seq (Opt (Seq (Lit (js "the")) (Plus ws)))
             (Seq (Lit noun)
                (Seq (Star ws) (Group (Class is_lower_az))))))).

(** The text of group 1 of a match; the group takes part in every match
    of the three patterns. *)
Definition group1 (found : option jsstring) : jsstring := default [] found.

Section Parser.

Context {U : Unicode}.

(** The phrase rules, applied to the lower-cased query in source order. *)
Definition apply_rules (lower : jsstring) : ParseState :=
  let st := mkState Filters.empty [] false in
  let st :=
    if includes lower (js "single word")
    then setFilter word_count_key (VNumber (Finite 1)) st else st in
  let st :=
    if includes lower (js "palindromic") || includes lower (js "palindrome")
    then setFilter is_palindrome_key (VBool true) st else st in
  let st :=
    match search re_longer lower with
    | Some longerMatch =>
        setFilter min_length_key
          (VNumber (number_add (Number_of_digits (group1 longerMatch)) 1)) st
    | None => st
    end in
  let st :=
    if includes lower (js "first vowel")
    then setFilter contains_character_key (VString (js "a")) st else st in
  let st :=
    match search re_contains_letter lower with
    | Some containsLetterMatch =>
        setFilter contains_character_key (VString (group1 containsLetterMatch)) st
    | None => st
    end in
  match search re_contains_character lower with
  | Some containsCharacterMatch =>
      setFilter contains_character_key (VString (group1 containsCharacterMatch)) st
  | None => st
  end.

(** The checks after the rules. *)
Definition conclude (st : ParseState) : NaturalLanguageParseResult :=
  if (0 <? length (conflicts st))%nat
  then conflict "Query parsed but resulted in conflicting filters"
  else if match Filters.min_length (filters st), Filters.max_length (filters st) with
          | Some lo, Some hi => number_ltb hi lo
          | _, _ => false
          end
  then conflict "Query parsed but resulted in conflicting filters"
  else if negb (parsed st)
  then unparsed "Unable to parse natural language query"
  else success (filters st).

Definition parseNaturalLanguageQuery (query : jsstring) : NaturalLanguageParseResult :=
  let normalized := trim query in
  if (length normalized =? 0)%nat
  then unparsed "Unable to parse natural language query"
  else conclude (apply_rules (toLowerCase normalized)).

(** *** GET /strings/filter-by-natural-language *)

Definition filterByNaturalLanguage (query : jsstring) (t : Table)
  : Response (list StoredStringRecord * (jsstring * QueryFilters)) :=
  match parseNaturalLanguageQuery query with
  | unparsed _ => JsonError 400
  | conflict _ => JsonError 422
  | success parsed_filters =>
      match fetchRecords t parsed_filters with
      | inr records => Json 200 (records, (query, parsed_filters))
      | inl e => Thrown e
      end
  end.

End Parser.

(** ** Notions of the specification

    The definitions below follow the words of the specification; the
    theorems compare them with the code above. *)

Definition is_ascii_alnum (c : N) : bool :=
  is_lower_az c || is_upper_AZ c || is_digit c.

(** A string proper: every code unit is below 2^16. *)
Definition code_units (s : jsstring) : Prop := Forall (fun c => c < 65536) s.

(** [sub] occurs in [s]. *)
Definition occurs (sub s : jsstring) : Prop :=
  exists before after, s = before ++ sub ++ after.

(** The number of maximal runs of code units that satisfy [p];
    [inside] tells whether the code unit before [s] satisfies it. *)
Fixpoint count_runs (p : N -> bool) (inside : bool) (s : jsstring) : nat :=
  match s with
  | [] => 0
  | c :: s' =>
      if p c then (if inside then 0 else 1) + count_runs p true s'
      else count_runs p false s'
  end.

(** The number of maximal whitespace-delimited tokens. *)
Definition spec_token_count (s : jsstring) : nat :=
  count_runs (fun c => negb (is_whitespace c)) false s.

(** The first position of [s], from the left, at which [here] recognizes
    something. *)
Fixpoint first_match {A : Type} (here : jsstring -> option A) (s : jsstring)
  : option A :=
  match here s with
  | Some x => Some x
  | None => match s with
            | [] => None
            | _ :: s' => first_match here s'
            end
  end.

(** "longer than N" at the start of [s]: the words, optional whitespace
    and the digits of N. *)
Definition spec_longer_than (s : jsstring) : option jsstring :=
  match strip_prefix (js "longer than") s with
  | Some t =>
      match take_while is_digit (drop_while is_whitespace t) with
      | [] => None
      | ds => Some ds
      end
  | None => None
  end.

(** "contain(ing) [the] NOUN X" at the start of [s]: "contain" or
    "containing", whitespace, optionally "the" and whitespace, the noun,
    optional whitespace and the letter X. *)
Definition spec_contains (noun s : jsstring) : option jsstring :=
  match strip_prefix (js "contain") s with
  | None => None
  | Some t0 =>
      let t1 := default t0 (strip_prefix (js "ing") t0) in
      match t1 with
      | [] => None
      | c :: _ =>
          if is_whitespace c then
            let t2 := drop_while is_whitespace t1 in
            let t3 :=
              match strip_prefix (js "the") t2 with
              | Some (c' :: t) =>
                  if is_whitespace c' then drop_while is_whitespace t else t2
              | _ => t2
              end in
            match strip_prefix noun t3 with
            | None => None
            | Some t4 =>
                match drop_while is_whitespace t4 with
                | x :: _ => if is_lower_az x then Some [x] else None
                | [] => None
                end
            end
          else None
      end
  end.

(** The phrase rules of the specification: each produces at most one
    assignment from the lower-cased query. *)
Definition spec_rules : list (jsstring -> option (FilterKey * FilterValue)) :=
  [ fun q => if includes q (js "single word")
             then Some (word_count_key, VNumber (Finite 1)) else None;
    fun q => if includes q (js "palindromic") || includes q (js "palindrome")
             then Some (is_palindrome_key, VBool true) else None;
    fun q => option_map
               (fun ds => (min_length_key,
                           VNumber (number_add (Number_of_digits ds) 1)))
               (first_match spec_longer_than q);
    fun q => if includes q (js "first vowel")
             then Some (contains_character_key, VString (js "a")) else None;
    fun q => option_map (fun x => (contains_character_key, VString x))
               (first_match (spec_contains (js "letter")) q);
    fun q => option_map (fun x => (contains_character_key, VString x))
               (first_match (spec_contains (js "character")) q) ].

Definition spec_assignments (q : jsstring) : list (FilterKey * FilterValue) :=
  omap (fun rule => rule q) spec_rules.

(** Two assignments give different values to the same field. *)
Definition spec_conflicting (l : list (FilterKey * FilterValue)) : bool :=
  existsb (fun a =>
    existsb (fun b => key_eqb (fst a) (fst b) && negb (strict_eqb (snd a) (snd b))) l) l.

(** The filters that hold every assignment. *)
Definition spec_collect (l : list (FilterKey * FilterValue)) : QueryFilters :=
  fold_left (fun f a => put_filter (fst a) (snd a) f) l Filters.empty.

Section SpecParser.

Context {U : Unicode}.

Definition spec_parse (query : jsstring) : NaturalLanguageParseResult :=
  if forallb is_whitespace query
  then unparsed "Unable to parse natural language query"
  else
    let assignments := spec_assignments (toLowerCase (trim query)) in
    if spec_conflicting assignments
       || match Filters.min_length (spec_collect assignments),
                Filters.max_length (spec_collect assignments) with
          | Some lo, Some hi => number_ltb hi lo
          | _, _ => false
          end
    then conflict "Query parsed but resulted in conflicting filters"
    else match assignments with
         | [] => unparsed "Unable to parse natural language query"
         | _ => success (spec_collect assignments)
         end.

(** The normalized form: lower-cased, decomposed, without diacritics, and
    only ASCII letters and digits kept. *)
Definition spec_normalized_form (value : jsstring) : jsstring :=
  List.filter is_ascii_alnum
    (List.filter (fun c => negb (in_range 768 879 c))
       (normalize_NFD (toLowerCase value))).

(** The in-memory predicate of the specification for a stored row. *)
Definition spec_selected (filters : QueryFilters) (row : StoredStringRow) : bool :=
  matches filters (mapRowToRecord row).

End SpecParser.

(** A value that is a map from single-character strings to integer
    counts. *)
Definition spec_is_frequency_map (v : JValue) : bool :=
  match v with
  | JObject members =>
      forallb
        (fun kv =>
           (length (Array_from (fst kv)) =? 1)%nat
           && match snd kv with
              | JNumber mantissa exponent =>
                  (0 <=? mantissa)%Z
                  && ((0 <=? exponent)%Z
                      || (mantissa mod 10 ^ (- exponent) =? 0)%Z)
              | _ => false
              end)
        members
  | _ => false
  end.

(** A text that is a valid JSON encoding of such a map. *)
Definition spec_valid_frequency_text (raw : jsstring) : bool :=
  match JSON.parse raw with
  | Some v => spec_is_frequency_map v
  | None => false
  end.

(** The rows of a table are pairwise different in [id] and in [value]. *)
Definition unique_rows (l : list StoredStringRow) : Prop :=
  forall i j r1 r2,
    l !! i = Some r1 -> l !! j = Some r2 ->
    Row.id r1 = Row.id r2 \/ Row.value r1 = Row.value r2 -> i = j.

(** ** Reading and deleting one value

    The routes GET /strings/:value, DELETE /strings/by-value/:value and
    DELETE /strings/by-id/:id decode their path parameter with
    [decodeURIComponent] and run one statement.  The parameter is the
    string that the validator hands to the handler. *)

Module URI.

(** The two hexadecimal digits of an escape. *)
Definition hex_octet (h1 h2 : N) : option N :=
  match JSON.hex_value h1, JSON.hex_value h2 with
  | Some a, Some b => Some (16 * a + b)
  | _, _ => None
  end.

(** The escapes [%hh] of the [count] bytes that continue a sequence. *)
Fixpoint continuation_octets (count : nat) (s : jsstring)
  : option (list N * jsstring) :=
  match count with
  | O => Some ([], s)
  | S count' =>
      match s with
      | p :: h1 :: h2 :: t =>
          if p =? 37 then
            match hex_octet h1 h2 with
            | Some b =>
                match continuation_octets count' t with
                | Some (bs, rest) => Some (b :: bs, rest)
                | None => None
                end
            | None => None
            end
          else None
      | _ => None
      end
  end.

(** The code point of a well-formed UTF-8 sequence that starts with the
    byte [b] (128 or more): the following bytes are continuation bytes,
    the sequence is the shortest for its code point, which is no
    surrogate and at most U+10FFFF. *)
Definition utf8_codepoint (b : N) (bs : list N) : option N :=
  if forallb (in_range 128 191) bs then
    match bs with
    | [b1] =>
        let cp := (b - 192) * 64 + (b1 - 128) in
        if 128 <=? cp then Some cp else None
    | [b1; b2] =>
        let cp := ((b - 224) * 64 + (b1 - 128)) * 64 + (b2 - 128) in
        if (2048 <=? cp) && negb (in_range 55296 57343 cp) then Some cp else None
    | [b1; b2; b3] =>
        let cp := (((b - 240) * 64 + (b1 - 128)) * 64 + (b2 - 128)) * 64 + (b3 - 128) in
        if in_range 65536 1114111 cp then Some cp else None
    | _ => None
    end
  else None.

(** The number of bytes that follow the first byte [b] of a sequence;
    [None] for a continuation byte and for a byte of five ones or more. *)
Definition following (b : N) : option nat :=
  if b <? 192 then None
  else if b <? 224 then Some 1%nat
  else if b <? 240 then Some 2%nat
  else if b <? 248 then Some 3%nat
  else None.

(** [None] stands for the [URIError] that is thrown. *)
Fixpoint decode (fuel : nat) (s : jsstring) : option jsstring :=
  match fuel with
  | O => Some []
  | S fuel' =>
      match s with
      | [] => Some []
      | c :: t =>
          if c =? 37 then
            match t with
            | h1 :: h2 :: t' =>
                match hex_octet h1 h2 with
                | None => None
                | Some b =>
                    if b <? 128 then option_map (cons b) (decode fuel' t')
                    else
                      match following b with
                      | None => None
                      | Some count =>
                          match continuation_octets count t' with
                          | None => None
                          | Some (bs, rest) =>
                              match utf8_codepoint b bs with
                              | None => None
                              | Some cp =>
                                  option_map (app (utf16_of_codepoint cp))
                                    (decode fuel' rest)
                              end
                          end
                      end
                end
            | _ => None
            end
          else option_map (cons c) (decode fuel' t)
      end
  end.

(** The escape [%HH] of one byte, with the upper-case digits that
    [encodeURIComponent] writes. *)
Definition upper_hex_digit (d : N) : N := if d <? 10 then 48 + d else 55 + d.

Definition escape_octet (b : N) : jsstring :=
  [37; upper_hex_digit (b / 16); upper_hex_digit (b mod 16)].

End URI.

(** [decodeURIComponent] *)
Definition decodeURIComponent (s : jsstring) : option jsstring :=
  URI.decode (length s) s.

(** [SELECT id, value, length, ... FROM strings WHERE value = ? LIMIT 1] *)
Definition select_by_value (value : jsstring) (t : Table)
  : SqlError + option StoredStringRow :=
  if has_columns expected_columns t then
    inr (List.find (fun r => jsstring_eqb (Row.value r) value) (rows t))
  else inl NoSuchColumn.

(** [DELETE FROM strings WHERE column = ?], for the column read by
    [key]: the number of rows deleted and the table left. *)
Definition delete_where (column : string) (key : StoredStringRow -> jsstring)
  (text : jsstring) (t : Table) : SqlError + (nat * Table) :=
  if has_columns [column] t then
    inr (length (List.filter (fun r => jsstring_eqb (key r) text) (rows t)),
         mkTable (columns t)
           (List.filter (fun r => negb (jsstring_eqb (key r) text)) (rows t)))
  else inl NoSuchColumn.

(** What a handler of a path parameter does: it answers, or
    [decodeURIComponent] throws and the request fails with status 500. *)
Inductive ParamOutcome (A : Type) : Type :=
| Answered (response : Response A)
| ThrownURIError.
Arguments Answered {A} response.
Arguments ThrownURIError {A}.

(** The answers of the two DELETE routes. *)
Inductive DeleteResponse : Type :=
| NoContent204
| NotFound404
| Invalid400
| DeleteThrown (e : SqlError)
| DeleteURIError.

(** GET /strings/:value; the parameter schema asks for one code unit at
    least. *)
Definition getByValue (value : jsstring) (t : Table)
  : ParamOutcome StoredStringRecord :=
  if (length value =? 0)%nat then Answered (JsonError 400)
  else
    match decodeURIComponent value with
    | None => ThrownURIError
    | Some decodedValue =>
        match select_by_value decodedValue t with
        | inl e => Answered (Thrown e)
        | inr None => Answered (JsonError 404)
        | inr (Some row) => Answered (Json 200 (mapRowToRecord row))
        end
    end.

(** The handler shared by the two DELETE routes. *)
Definition delete_route (column : string) (key : StoredStringRow -> jsstring)
  (param : jsstring) (t : Table) : DeleteResponse * Table :=
  if (length param =? 0)%nat then (Invalid400, t)
  else
    match decodeURIComponent param with
    | None => (DeleteURIError, t)
    | Some decoded =>
        match delete_where column key decoded t with
        | inl e => (DeleteThrown e, t)
        | inr (changes, t') =>
            if (changes =? 0)%nat then (NotFound404, t') else (NoContent204, t')
        end
    end.

(** DELETE /strings/by-value/:value *)
Definition deleteByValue (value : jsstring) (t : Table) : DeleteResponse * Table :=
  delete_route "value" Row.value value t.

(** DELETE /strings/by-id/:id *)
Definition deleteById (id : jsstring) (t : Table) : DeleteResponse * Table :=
  delete_route "id" Row.id id t.

Section Operations.

Context {U : Unicode}.

(** The requests that change the table. *)
Inductive Operation : Type :=
| op_create (value now : jsstring)
| op_delete_by_value (param : jsstring)
| op_delete_by_id (param : jsstring).

Definition apply_operation (t : Table) (op : Operation) : Table :=
  match op with
  | op_create value now => snd (createString value now t)
  | op_delete_by_value param => snd (deleteByValue param t)
  | op_delete_by_id param => snd (deleteById param t)
  end.

(** The table after a sequence of requests, each run to its end, from
    the empty table that the route expects. *)
Definition table_after (ops : list Operation) : Table :=
  fold_left apply_operation ops (mkTable expected_columns []).

(** A row as POST /strings writes it for its value. *)
Definition written_row (r : StoredStringRow) : Prop :=
  (0 < length (trim (Row.value r)))%nat
  /\ r = row_of (Row.value r) (computeStringProperties (Row.value r))
           (Row.created_at r).

End Operations.

(** * Proofs *)

(** ** Strings *)

Lemma jsstring_eqb_eq (a b : jsstring) : jsstring_eqb a b = true <-> a = b.
Proof.
  revert b; induction a as [|x a IH]; intros [|y b]; simpl; try easy.
  rewrite andb_true_iff, N.eqb_eq, IH. split.
  - intros [-> ->]; reflexivity.
  - intros H; inversion H; auto.
Qed.

Lemma jsstring_eqb_refl (a : jsstring) : jsstring_eqb a a = true.
Proof. apply jsstring_eqb_eq; reflexivity. Qed.

Lemma strip_prefix_Some (p s t : jsstring) :
  strip_prefix p s = Some t <-> s = p ++ t.
Proof.
  revert s; induction p as [|x p IH]; intros s; simpl.
  - split; [intros [= ->]; reflexivity | intros ->; reflexivity].
  - destruct s as [|y s]; [split; discriminate|].
    destruct (N.eqb_spec x y) as [->|Hne].
    + rewrite IH. split; [intros ->; reflexivity | intros [= ->]; reflexivity].
    + split; [discriminate | intros [= -> _]; congruence].
Qed.

(** [includes] is the substring relation. *)
Lemma includes_occurs (s sub : jsstring) :
  includes s sub = true <-> occurs sub s.
Proof.
  unfold occurs. induction s as [|c s IH]; simpl.
  - destruct (strip_prefix sub []) as [t|] eqn:E.
    + apply strip_prefix_Some in E. split; [|reflexivity].
      intros _. exists [], t. exact E.
    + split; [discriminate|]. intros (b & a & H).
      destruct b; simpl in H; [|discriminate].
      apply strip_prefix_Some in H. congruence.
  - destruct (strip_prefix sub (c :: s)) as [t|] eqn:E.
    + apply strip_prefix_Some in E. split; [|reflexivity].
      intros _. exists [], t. exact E.
    + rewrite IH. split.
      * intros (b & a & ->). exists (c :: b), a. reflexivity.
      * intros (b & a & H). destruct b as [|c' b]; simpl in H.
        -- apply strip_prefix_Some in H. congruence.
        -- injection H as -> ->. exists b, a. reflexivity.
Qed.

Lemma drop_while_length (p : N -> bool) (s : jsstring) :
  (length (drop_while p s) <= length s)%nat.
Proof.
  induction s as [|c s IH]; simpl; [lia|]. destruct (p c); simpl; lia.
Qed.

Lemma drop_while_head (p : N -> bool) (s : jsstring) c t :
  drop_while p s = c :: t -> p c = false.
Proof.
  induction s as [|x s IH]; simpl; [discriminate|].
  destruct (p x) eqn:E; [exact IH|]. intros [= -> _]; exact E.
Qed.

Lemma firstn_take_while (p : N -> bool) (s : jsstring) :
  firstn (length s - length (drop_while p s)) s = take_while p s.
Proof.
  induction s as [|c s IH]; simpl; [reflexivity|].
  destruct (p c) eqn:E; simpl.
  - pose proof (drop_while_length p s).
    replace (S (length s) - length (drop_while p s))%nat
      with (S (length s - length (drop_while p s))) by lia.
    simpl. rewrite IH. reflexivity.
  - rewrite Nat.sub_diag. reflexivity.
Qed.

(** ** The matcher *)

Section MatcherFacts.

Context {R : Type}.
Implicit Types (k : @cont R) (s : jsstring) (cap : option jsstring).

Lemma iterate_ext (step1 step2 : jsstring -> option jsstring -> cont -> option R) k1 k2 :
  (forall s cap ka kb, (forall s' cap', ka s' cap' = kb s' cap') ->
                       step1 s cap ka = step2 s cap kb) ->
  (forall s cap, k1 s cap = k2 s cap) ->
  forall fuel s cap, iterate step1 k1 fuel s cap = iterate step2 k2 fuel s cap.
Proof.
  intros Hstep Hk. induction fuel as [|fuel IH]; intros s cap; simpl; [apply Hk|].
  rewrite (Hstep s cap _
    (fun s' cap' => if (length s' <? length s)%nat
                    then iterate step2 k2 fuel s' cap' else None)).
  - rewrite Hk. reflexivity.
  - intros s' cap'. destruct (length s' <? length s)%nat; [apply IH|reflexivity].
Qed.

Lemma m_ext (r : regex) : forall s cap k1 k2,
  (forall s' cap', k1 s' cap' = k2 s' cap') -> m r s cap k1 = m r s cap k2.
Proof.
  induction r as [|p|r1 IH1 r2 IH2|r IH|r IH|r IH]; intros s cap k1 k2 H; simpl.
  - apply H.
  - destruct s as [|c s]; [reflexivity|]. destruct (p c); [apply H|reflexivity].
  - apply IH1. intros s' cap'. apply IH2, H.
  - rewrite (IH s cap k1 k2 H), H. reflexivity.
  - apply iterate_ext; [|exact H]. intros. apply IH. assumption.
  - apply IH. intros s' cap'. apply H.
Qed.

(** A pattern hands only suffixes of its input to its continuation. *)
Lemma m_ext_shorter (r : regex) : forall s cap k1 k2,
  (forall s' cap', (length s' <= length s)%nat -> k1 s' cap' = k2 s' cap') ->
  m r s cap k1 = m r s cap k2.
Proof.
  induction r as [|p|r1 IH1 r2 IH2|r IH|r IH|r IH]; intros s cap k1 k2 H; simpl.
  - apply H. lia.
  - destruct s as [|c s]; [reflexivity|].
    destruct (p c); [apply H; simpl; lia|reflexivity].
  - apply IH1. intros s' cap' Hs'. apply IH2. intros s'' cap'' Hs''. apply H. lia.
  - rewrite (IH s cap k1 k2 H), H by lia. reflexivity.
  - generalize (length s) as fuel. intros fuel. revert s cap H.
    induction fuel as [|fuel IHf]; intros s cap H; simpl; [apply H; lia|].
    rewrite H by lia.
    erewrite IH; [reflexivity|]. intros s' cap' Hs'. cbv beta.
    destruct (Nat.ltb_spec (length s') (length s)); [|reflexivity].
    apply IHf. intros s'' cap'' Hs''. apply H. lia.
  - apply IH. intros s' cap' Hs'. apply H. lia.
Qed.

Lemma m_fail (r : regex) : forall s cap, m r s cap (fun _ _ => None) = @None R.
Proof.
  induction r as [|p|r1 IH1 r2 IH2|r IH|r IH|r IH]; intros s cap; simpl.
  - reflexivity.
  - destruct s as [|c s]; [reflexivity|]. destruct (p c); reflexivity.
  - transitivity (m r1 s cap (fun _ _ => @None R)); [|apply IH1].
    apply m_ext. intros s' cap'. apply IH2.
  - rewrite IH. reflexivity.
  - generalize (length s) as fuel. intros fuel. revert s cap.
    induction fuel as [|fuel IHf]; intros s cap; simpl; [reflexivity|].
    replace (m r s cap _) with (@None R); [reflexivity|].
    symmetry. transitivity (m r s cap (fun _ _ => @None R)); [|apply IH].
    apply m_ext. intros s' cap'.
    destruct (length s' <? length s)%nat; [apply IHf|reflexivity].
  - transitivity (m r s cap (fun _ _ => @None R)); [|apply IH].
    apply m_ext. reflexivity.
Qed.

(** The fuel of the loop is enough: more of it changes nothing. *)
Lemma iterate_fuel (r : regex) k : forall fuel s cap,
  (length s <= fuel)%nat ->
  iterate (m r) k (S fuel) s cap = iterate (m r) k fuel s cap.
Proof.
  induction fuel as [|fuel IH]; intros s cap Hlen.
  - destruct s; [|simpl in Hlen; lia]. cbn [iterate].
    replace (m r [] cap _) with (@None R); [reflexivity|].
    symmetry. transitivity (m r [] cap (fun _ _ => @None R)); [|apply m_fail].
    apply m_ext. reflexivity.
  - change (iterate (m r) k (S (S fuel)) s cap)
      with (match m r s cap
                    (fun s' cap' =>
                       if (length s' <? length s)%nat
                       then iterate (m r) k (S fuel) s' cap' else None) with
            | Some x => Some x
            | None => k s cap
            end).
    change (iterate (m r) k (S fuel) s cap)
      with (match m r s cap
                    (fun s' cap' =>
                       if (length s' <? length s)%nat
                       then iterate (m r) k fuel s' cap' else None) with
            | Some x => Some x
            | None => k s cap
            end).
    erewrite m_ext; [reflexivity|]. intros s' cap'. cbv beta.
    destruct (Nat.ltb_spec (length s') (length s)); [|reflexivity].
    apply IH. lia.
Qed.

(** The loop of a starred pattern, as ECMAScript states it. *)
Lemma m_Star (r : regex) s cap k :
  m (Star r) s cap k =
  match m r s cap
          (fun s' cap' =>
             if (length s' <? length s)%nat then m (Star r) s' cap' k else None) with
  | Some x => Some x
  | None => k s cap
  end.
Proof.
  cbn [m]. destruct s as [|c s].
  - cbn [length iterate].
    rewrite (m_ext r [] cap
               (fun s' cap' =>
                  if (length s' <? 0)%nat
                  then iterate (m r) k (length s') s' cap' else None)
               (fun _ _ => None)) by reflexivity.
    rewrite m_fail. reflexivity.
  - cbn [length iterate].
    erewrite m_ext_shorter; [reflexivity|]. intros s' cap' Hs'. cbv beta.
    destruct (Nat.ltb_spec (length s') (S (length s))); [|reflexivity].
    assert (G : forall n, (length s' <= n)%nat ->
              iterate (m r) k n s' cap' = iterate (m r) k (length s') s' cap').
    { induction n as [|n IHn]; intros Hn.
      - replace (length s') with 0%nat by lia. reflexivity.
      - destruct (Nat.eq_dec (length s') (S n)) as [->|Hne]; [reflexivity|].
        rewrite iterate_fuel by lia. apply IHn. lia. }
    apply G. lia.
Qed.

Lemma m_Lit (p : jsstring) : forall s cap k,
  m (Lit p) s cap k =
  match strip_prefix p s with Some t => k t cap | None => None end.
Proof.
  induction p as [|x p IH]; intros s cap k; simpl; [reflexivity|].
  destruct s as [|y s]; [reflexivity|].
  destruct (x =? y); [apply IH|reflexivity].
Qed.

Lemma iterate_class (p : N -> bool) k cap : forall fuel s,
  (length s <= fuel)%nat ->
  iterate (m (Class p)) k fuel s cap = star_class p k s cap.
Proof.
  induction fuel as [|fuel IH]; intros s Hlen.
  - destruct s; [reflexivity|simpl in Hlen; lia].
  - destruct s as [|c s]; [reflexivity|]. simpl in *.
    destruct (p c); [|reflexivity].
    replace (length s <? S (length s))%nat with true
      by (symmetry; apply Nat.ltb_lt; lia).
    rewrite IH by lia. reflexivity.
Qed.

Lemma m_Star_class (p : N -> bool) s cap k :
  m (Star (Class p)) s cap k = star_class p k s cap.
Proof. simpl. apply iterate_class. lia. Qed.

(** When the continuation rejects every input that starts in the class,
    only the longest run can do. *)
Lemma star_class_reject (p : N -> bool) k cap :
  (forall c t, p c = true -> k (c :: t) cap = None) ->
  forall s, star_class p k s cap = k (drop_while p s) cap.
Proof.
  intros Hk. induction s as [|c s IH]; simpl; [reflexivity|].
  destruct (p c) eqn:E; [|reflexivity].
  rewrite IH. destruct (k (drop_while p s) cap); [reflexivity|].
  apply Hk, E.
Qed.

(** When the continuation accepts after the longest run, that is the
    result. *)
Lemma star_class_accept (p : N -> bool) k cap s x :
  k (drop_while p s) cap = Some x -> star_class p k s cap = Some x.
Proof.
  induction s as [|c s IH]; simpl; [auto|].
  destruct (p c); [|auto]. intros H. rewrite (IH H). reflexivity.
Qed.

End MatcherFacts.

(** ** The patterns of the source *)

Ltac bool_to_prop :=
  repeat match goal with
    | H : _ && _ = true |- _ => apply andb_true_iff in H; destruct H
    | H : _ || _ = true |- _ => apply orb_true_iff in H; destruct H
    | H : (_ <=? _) = true |- _ => apply N.leb_le in H
    | H : (_ =? _) = true |- _ => apply N.eqb_eq in H
    | H : (_ <? _) = true |- _ => apply N.ltb_lt in H
    | H : (_ <=? _) = false |- _ => apply N.leb_gt in H
    | H : (_ =? _) = false |- _ => apply N.eqb_neq in H
    | H : (_ <? _) = false |- _ => apply N.ltb_ge in H
    end.

Lemma whitespace_not_graphic (c : N) :
  is_whitespace c = true ->
  is_digit c = false /\ is_lower_az c = false /\ is_upper_AZ c = false.
Proof.
  unfold is_whitespace, is_digit, is_lower_az, is_upper_AZ, in_range. intros H.
  bool_to_prop; repeat split; apply andb_false_iff;
    rewrite !N.leb_gt; lia.
Qed.

Lemma strip_prefix_head (x c : N) (p s : jsstring) :
  x <> c -> strip_prefix (x :: p) (c :: s) = None.
Proof. intros H. simpl. apply N.eqb_neq in H. rewrite H. reflexivity. Qed.

Lemma m_Plus_class {R : Type} (p : N -> bool) s cap (k : @cont R) :
  m (Plus (Class p)) s cap k =
  match s with
  | c :: t => if p c then star_class p k t cap else None
  | [] => None
  end.
Proof.
  unfold Plus. simpl. destruct s as [|c t]; [reflexivity|].
  destruct (p c); [|reflexivity]. apply iterate_class. lia.
Qed.

Lemma exec_whitespace_run (s : jsstring) :
  exec re_whitespace_run s =
  match s with
  | c :: t => if is_whitespace c
              then Some (drop_while is_whitespace t, None) else None
  | [] => None
  end.
Proof.
  unfold exec, re_whitespace_run. rewrite m_Plus_class.
  destruct s as [|c t]; [reflexivity|]. destruct (is_whitespace c); [|reflexivity].
  apply star_class_accept. reflexivity.
Qed.

Lemma exec_longer (s : jsstring) :
  exec re_longer s =
  match strip_prefix (js "longer than") s with
  | Some t =>
      let u := drop_while is_whitespace t in
      match take_while is_digit u with
      | [] => None
      | ds => Some (drop_while is_digit u, Some ds)
      end
  | None => None
  end.
Proof.
  unfold exec, re_longer.
  change (m (Seq ?a ?b) s None ?k) with (m a s None (fun s' cap' => m b s' cap' k)).
  rewrite m_Lit. destruct (strip_prefix (js "longer than") s) as [t|]; [|reflexivity].
  cbv zeta.
  change (m (Seq ?a ?b) t None ?k) with (m a t None (fun s' cap' => m b s' cap' k)).
  unfold ws. rewrite m_Star_class, star_class_reject.
  - set (u := drop_while is_whitespace t).
    change (m (Group ?r) u None ?k)
      with (m r u None (fun s' _ => k s' (Some (firstn (length u - length s') u)))).
    rewrite m_Plus_class. destruct u as [|d u'] eqn:Eu; [reflexivity|].
    simpl take_while. destruct (is_digit d) eqn:Ed; [|reflexivity].
    erewrite star_class_accept; [|reflexivity].
    pose proof (firstn_take_while is_digit (d :: u')) as F.
    simpl drop_while in F. simpl take_while in F. rewrite Ed in F.
    rewrite F. simpl. rewrite Ed. reflexivity.
  - intros c t' Hc.
    change (m (Group ?r) (c :: t') None ?k)
      with (m r (c :: t') None
              (fun s' _ => k s' (Some (firstn (length (c :: t') - length s') (c :: t'))))).
    rewrite m_Plus_class. apply whitespace_not_graphic in Hc as (-> & _). reflexivity.
Qed.

Lemma iterate_map {R R' : Type} (f : R -> R')
  (step : jsstring -> option jsstring -> @cont R -> option R)
  (step' : jsstring -> option jsstring -> @cont R' -> option R') (k : @cont R) :
  (forall s cap k0, option_map f (step s cap k0)
                    = step' s cap (fun s' c' => option_map f (k0 s' c'))) ->
  (forall s cap ka kb, (forall s' cap', ka s' cap' = kb s' cap') ->
                       step' s cap ka = step' s cap kb) ->
  forall fuel s cap,
    option_map f (iterate step k fuel s cap)
    = iterate step' (fun s' c' => option_map f (k s' c')) fuel s cap.
Proof.
  intros Hstep Hext. induction fuel as [|fuel IH]; intros s cap; simpl; [reflexivity|].
  match goal with
  | |- option_map f (match ?x with Some y => _ | None => _ end) = _ =>
      transitivity (match option_map f x with
                    | Some y => Some y
                    | None => option_map f (k s cap)
                    end); [destruct x; reflexivity|]
  end.
  rewrite Hstep.
  erewrite Hext; [reflexivity|].
  intros s' cap'. simpl. destruct (length s' <? length s)%nat; [apply IH|reflexivity].
Qed.

Lemma m_map {R R' : Type} (f : R -> R') (r : regex) : forall s cap (k : @cont R),
  option_map f (m r s cap k) = m r s cap (fun s' c' => option_map f (k s' c')).
Proof.
  induction r as [|p|r1 IH1 r2 IH2|r IH|r IH|r IH]; intros s cap k; simpl.
  - reflexivity.
  - destruct s as [|c s]; [reflexivity|]. destruct (p c); reflexivity.
  - rewrite IH1. apply m_ext. intros s' cap'. apply IH2.
  - rewrite <- IH. destruct (m r s cap k); reflexivity.
  - apply iterate_map; [exact IH|]. intros. apply m_ext. assumption.
  - rewrite IH. reflexivity.
Qed.

(** The capture of an anchored match. *)
Lemma exec_capture (r : regex) (s : jsstring) :
  option_map snd (exec r s) = m r s None (fun _ cap => Some cap).
Proof. unfold exec. rewrite m_map. reflexivity. Qed.

Lemma search_first_match (r : regex) (s : jsstring) :
  search r s = first_match (fun s' => m r s' None (fun _ cap => Some cap)) s.
Proof.
  induction s as [|c s IH]; simpl; rewrite <- exec_capture.
  - destruct (exec r []) as [[rest cap]|]; reflexivity.
  - destruct (exec r (c :: s)) as [[rest cap]|]; [reflexivity|]. exact IH.
Qed.

Lemma first_match_ext {A : Type} (f g : jsstring -> option A) :
  (forall s, f s = g s) -> forall s, first_match f s = first_match g s.
Proof.
  intros H. induction s as [|c s IH]; simpl; rewrite H; [reflexivity|].
  destruct (g (c :: s)); [reflexivity|exact IH].
Qed.

Ltac seq_step :=
  match goal with
  | |- context [m (Seq ?a ?b) ?s ?c ?k] =>
      change (m (Seq a b) s c k) with (m a s c (fun s' cap' => m b s' cap' k))
  end.

Lemma capture_longer (s : jsstring) :
  m re_longer s None (fun _ cap => Some cap) = option_map Some (spec_longer_than s).
Proof.
  rewrite <- exec_capture, exec_longer. unfold spec_longer_than.
  destruct (strip_prefix (js "longer than") s) as [t|]; [|reflexivity].
  cbv zeta. destruct (take_while is_digit (drop_while is_whitespace t)); reflexivity.
Qed.

Lemma m_Group_class {R : Type} (p : N -> bool) s cap (k : @cont R) :
  m (Group (Class p)) s cap k =
  match s with
  | x :: v => if p x then k v (Some [x]) else None
  | [] => None
  end.
Proof.
  destruct s as [|x v]; [reflexivity|]. cbn [m]. destruct (p x); [|reflexivity].
  cbn [length]. replace (S (length v) - length v)%nat with 1%nat by lia.
  reflexivity.
Qed.

Lemma capture_contains (noun : jsstring) (n0 : N) (noun' : jsstring) (s : jsstring) :
  noun = n0 :: noun' -> is_whitespace n0 = false -> n0 <> 116 ->
  m (re_contains noun) s None (fun _ cap => Some cap)
  = option_map Some (spec_contains noun s).
Proof.
  intros Hnoun Hn0 Hnt. unfold re_contains, spec_contains.
  seq_step. rewrite m_Lit.
  destruct (strip_prefix (js "contain") s) as [t0|]; [|reflexivity].
  seq_step.
  pose (K := fun (s' : jsstring) (cap' : option jsstring) =>
                m (R := option jsstring)
                  (Seq (Plus ws)
                     (Seq (Opt (Seq (Lit (js "the")) (Plus ws)))
                        (Seq (Lit noun) (Seq (Star ws) (Group (Class is_lower_az))))))
                  s' cap' (fun _ cap => Some cap)).
  fold K.
  assert (HKws : forall c t, is_whitespace c = false -> K (c :: t) None = None).
  { intros c t Hc. unfold K. seq_step. unfold ws. rewrite m_Plus_class, Hc. reflexivity. }
  (* the rest of the pattern after the longest whitespace run *)
  assert (HK : forall t1,
    K t1 None =
    match t1 with
    | [] => None
    | c :: _ =>
        if is_whitespace c then
          let t2 := drop_while is_whitespace t1 in
          let t3 :=
            match strip_prefix (js "the") t2 with
            | Some (c' :: t) =>
                if is_whitespace c' then drop_while is_whitespace t else t2
            | _ => t2
            end in
          option_map Some
            match strip_prefix noun t3 with
            | None => None
            | Some t4 =>
                match drop_while is_whitespace t4 with
                | x :: _ => if is_lower_az x then Some [x] else None
                | [] => None
                end
            end
        else None
    end).
  { intros t1. unfold K. seq_step. unfold ws at 1. rewrite m_Plus_class.
    destruct t1 as [|c t1']; [reflexivity|].
    destruct (is_whitespace c) eqn:Ec; [|reflexivity].
    simpl drop_while. rewrite Ec.
    pose (K4 := fun (s' : jsstring) (cap' : option jsstring) =>
                  m (R := option jsstring)
                    (Seq (Lit noun) (Seq (Star ws) (Group (Class is_lower_az))))
                    s' cap' (fun _ cap => Some cap)).
    assert (HK4 : forall u,
      K4 u None = option_map Some
        match strip_prefix noun u with
        | None => None
        | Some t4 =>
            match drop_while is_whitespace t4 with
            | x :: _ => if is_lower_az x then Some [x] else None
            | [] => None
            end
        end).
    { intros u. unfold K4. seq_step. rewrite m_Lit.
      destruct (strip_prefix noun u) as [t4|]; [|reflexivity].
      seq_step. unfold ws. rewrite m_Star_class, star_class_reject.
      - rewrite m_Group_class.
        destruct (drop_while is_whitespace t4) as [|x v]; [reflexivity|].
        destruct (is_lower_az x); reflexivity.
      - intros c0 t' Hc0. rewrite m_Group_class.
        apply whitespace_not_graphic in Hc0 as (_ & -> & _). reflexivity. }
    assert (HK4ws : forall c0 t', is_whitespace c0 = true -> K4 (c0 :: t') None = None).
    { intros c0 t' Hc0. rewrite HK4, Hnoun, strip_prefix_head; [reflexivity|].
      intros ->. congruence. }
    assert (HK4t : forall t', K4 (116 :: t') None = None).
    { intros t'. rewrite HK4, Hnoun, strip_prefix_head; [reflexivity|assumption]. }
    rewrite star_class_reject.
    - seq_step.
      change (m (Opt ?r) ?s0 None ?k)
        with (match m r s0 None k with Some x => Some x | None => k s0 None end).
      fold K4. seq_step. rewrite m_Lit.
      set (t2 := drop_while is_whitespace t1').
      destruct (strip_prefix (js "the") t2) as [u|] eqn:Ethe; [|apply HK4].
      unfold ws. rewrite m_Plus_class.
      destruct u as [|c' u']; [apply HK4|].
      destruct (is_whitespace c') eqn:Ec'; [|apply HK4].
      rewrite star_class_reject by exact HK4ws.
      destruct (K4 (drop_while is_whitespace u') None) eqn:E4.
      + rewrite <- E4. apply HK4.
      + apply strip_prefix_Some in Ethe. rewrite Ethe.
        change (js "the" ++ c' :: u') with (116 :: ([104; 101] ++ c' :: u')).
        rewrite HK4t, <- E4. apply HK4.
    - intros c0 t' Hc0. seq_step.
      change (m (Opt ?r) ?s0 None ?k)
        with (match m r s0 None k with Some x => Some x | None => k s0 None end).
      fold K4. seq_step. rewrite m_Lit.
      change (js "the") with ([116; 104; 101]).
      rewrite strip_prefix_head.
      + apply HK4ws, Hc0.
      + intros <-. vm_compute in Hc0. discriminate. }
  change (m (Opt ?r) t0 None ?k)
    with (match m r t0 None k with Some x => Some x | None => k t0 None end).
  rewrite m_Lit.
  destruct (strip_prefix (js "ing") t0) as [t|] eqn:Eing; simpl default.
  - destruct (K t None) eqn:EK.
    + rewrite <- EK, HK. destruct t as [|c t']; [reflexivity|].
      destruct (is_whitespace c); reflexivity.
    + apply strip_prefix_Some in Eing. rewrite Eing.
      change (js "ing" ++ t) with (105 :: ([110; 103] ++ t)).
      rewrite HKws by reflexivity. rewrite <- EK, HK.
      destruct t as [|c t']; [reflexivity|]. destruct (is_whitespace c); reflexivity.
  - rewrite HK. destruct t0 as [|c t']; [reflexivity|].
    destruct (is_whitespace c); reflexivity.
Qed.

(** ** The parser *)

Lemma search_longer (s : jsstring) :
  search re_longer s = option_map Some (first_match spec_longer_than s).
Proof.
  rewrite search_first_match, (first_match_ext _ _ capture_longer).
  induction s as [|c s IH]; simpl.
  - destruct (spec_longer_than []); reflexivity.
  - destruct (spec_longer_than (c :: s)); [reflexivity|exact IH].
Qed.

Lemma search_contains (noun : jsstring) (n0 : N) (noun' : jsstring) (s : jsstring) :
  noun = n0 :: noun' -> is_whitespace n0 = false -> n0 <> 116 ->
  search (re_contains noun) s
  = option_map Some (first_match (spec_contains noun) s).
Proof.
  intros H1 H2 H3. rewrite search_first_match.
  rewrite (first_match_ext _ _ (fun s' => capture_contains noun n0 noun' s' H1 H2 H3)).
  induction s as [|c s IH]; simpl.
  - destruct (spec_contains noun []); reflexivity.
  - destruct (spec_contains noun (c :: s)); [reflexivity|exact IH].
Qed.

Lemma search_contains_letter (s : jsstring) :
  search re_contains_letter s
  = option_map Some (first_match (spec_contains (js "letter")) s).
Proof.
  apply (search_contains (js "letter") 108 (js "etter")); [reflexivity..|lia].
Qed.

Lemma search_contains_character (s : jsstring) :
  search re_contains_character s
  = option_map Some (first_match (spec_contains (js "character")) s).
Proof.
  apply (search_contains (js "character") 99 (js "haracter")); [reflexivity..|lia].
Qed.

Lemma number_eqb_eq (x y : number) : number_eqb x y = true <-> x = y.
Proof.
  destruct x as [a|], y as [b|]; simpl; try (split; congruence).
  rewrite Z.eqb_eq. split; congruence.
Qed.

Lemma strict_eqb_eq (a b : FilterValue) : strict_eqb a b = true <-> a = b.
Proof.
  destruct a as [x|x|x], b as [y|y|y]; simpl; try (split; congruence).
  - rewrite eqb_true_iff. split; congruence.
  - rewrite number_eqb_eq. split; congruence.
  - rewrite jsstring_eqb_eq. split; congruence.
Qed.

Lemma key_eqb_eq (a b : FilterKey) : key_eqb a b = true <-> a = b.
Proof. destruct a, b; simpl; split; congruence. Qed.

Lemma get_put_other (k k' : FilterKey) (v : FilterValue) (f : QueryFilters) :
  key_eqb k k' = false -> get_filter k (put_filter k' v f) = get_filter k f.
Proof. destruct k, k', v; simpl; intros H; try discriminate; reflexivity. Qed.

Lemma put_same (k : FilterKey) (v : FilterValue) (f : QueryFilters) :
  get_filter k f = Some v -> put_filter k v f = f.
Proof.
  destruct f as [a b c d e], k, v; simpl; try reflexivity;
    match goal with
    | |- option_map _ ?o = _ -> _ => destruct o; simpl; congruence
    end.
Qed.

(** An assignment whose value has the type of its field. *)
Local Abbreviation well_typed a :=
  (forall f, get_filter (fst a) (put_filter (fst a) (snd a) f) = Some (snd a)).

Lemma conflicting_iff (l : list (FilterKey * FilterValue)) :
  spec_conflicting l = true <->
  exists b c, In b l /\ In c l /\ fst b = fst c /\ snd b <> snd c.
Proof.
  unfold spec_conflicting. rewrite existsb_exists. split.
  - intros (b & Hb & H). apply existsb_exists in H as (c & Hc & H).
    apply andb_true_iff in H as [Hk Hv]. apply key_eqb_eq in Hk.
    apply negb_true_iff in Hv. exists b, c. repeat split; auto.
    intros E. apply strict_eqb_eq in E. congruence.
  - intros (b & c & Hb & Hc & Hk & Hv). exists b. split; [assumption|].
    apply existsb_exists. exists c. split; [assumption|].
    apply andb_true_iff. split; [apply key_eqb_eq, Hk|].
    apply negb_true_iff. destruct (strict_eqb (snd b) (snd c)) eqn:E; [|reflexivity].
    apply strict_eqb_eq in E. contradiction.
Qed.

Lemma first_value_Some (k : FilterKey) l (cur : FilterValue) :
  first_value k l = Some cur -> In (k, cur) l.
Proof.
  unfold first_value. destruct (List.find _ l) as [[k' v]|] eqn:E; [|discriminate].
  apply find_some in E as [Hin Hk]. apply key_eqb_eq in Hk. simpl in *.
  intros [= <-]. subst. assumption.
Qed.

Lemma first_value_None (k : FilterKey) l (v : FilterValue) :
  first_value k l = None -> ~ In (k, v) l.
Proof.
  unfold first_value. destruct (List.find _ l) as [b|] eqn:E; [discriminate|].
  intros _ Hin. pose proof (find_none _ _ E _ Hin) as H. simpl in H.
  destruct k; discriminate.
Qed.

Lemma first_value_snoc (k : FilterKey) l (a : FilterKey * FilterValue) :
  first_value k (l ++ [a]) =
  match first_value k l with
  | Some x => Some x
  | None => if key_eqb k (fst a) then Some (snd a) else None
  end.
Proof.
  unfold first_value. induction l as [|b l IH]; simpl.
  - destruct (key_eqb k (fst a)); reflexivity.
  - destruct (key_eqb k (fst b)); [reflexivity|exact IH].
Qed.

Lemma conflicting_snoc l (a : FilterKey * FilterValue) :
  spec_conflicting (l ++ [a]) =
  spec_conflicting l
  || match first_value (fst a) l with
     | Some cur => negb (strict_eqb cur (snd a))
     | None => false
     end.
Proof.
  apply eq_true_iff_eq. rewrite orb_true_iff, !conflicting_iff. split.
  - intros (b & c & Hb & Hc & Hk & Hv).
    apply in_app_iff in Hb as [Hb|[<-|[]]]; apply in_app_iff in Hc as [Hc|[<-|[]]].
    + left. exists b, c. auto.
    + destruct (first_value (fst a) l) as [cur|] eqn:E.
      * destruct (strict_eqb cur (snd a)) eqn:Ev; [|right; reflexivity].
        apply strict_eqb_eq in Ev. apply first_value_Some in E.
        left. exists b, (fst a, cur). simpl. repeat split; auto. congruence.
      * exfalso. apply (first_value_None _ _ (snd b) E).
        rewrite <- Hk. destruct b; assumption.
    + destruct (first_value (fst a) l) as [cur|] eqn:E.
      * destruct (strict_eqb cur (snd a)) eqn:Ev; [|right; reflexivity].
        apply strict_eqb_eq in Ev. apply first_value_Some in E.
        left. exists (fst a, cur), c. simpl. repeat split; auto. congruence.
      * exfalso. apply (first_value_None _ _ (snd c) E).
        rewrite Hk. destruct c; assumption.
    + contradiction.
  - intros [(b & c & Hb & Hc & H)|H].
    + exists b, c. rewrite !in_app_iff. auto.
    + destruct (first_value (fst a) l) as [cur|] eqn:E; [|discriminate].
      apply first_value_Some in E. exists (fst a, cur), a.
      rewrite !in_app_iff. simpl. repeat split; auto.
      intros Ev. apply negb_true_iff in H.
      rewrite (proj2 (strict_eqb_eq _ _) Ev) in H. discriminate.
Qed.

Lemma apply_assignments_snoc l (a : FilterKey * FilterValue) :
  apply_assignments (l ++ [a]) = setFilter (fst a) (snd a) (apply_assignments l).
Proof. unfold apply_assignments. rewrite fold_left_app. reflexivity. Qed.

(** What the parser holds after a list of assignments. *)
Lemma apply_assignments_spec (l : list (FilterKey * FilterValue)) :
  Forall (fun a => well_typed a) l ->
  let st := apply_assignments l in
  (forall k, get_filter k (filters st) = first_value k l)
  /\ (0 <? length (conflicts st))%nat = spec_conflicting l
  /\ parsed st = negb (length l =? 0)%nat
  /\ (spec_conflicting l = false -> filters st = spec_collect l).
Proof.
  induction l as [|a l IH] using rev_ind; intros Hwt.
  - repeat split; try reflexivity. intros k. destruct k; reflexivity.
  - apply Forall_app in Hwt as [Hl Ha]. apply Forall_inv in Ha.
    destruct (IH Hl) as (I1 & I2 & I3 & I4). clear IH. cbv zeta in *.
    rewrite apply_assignments_snoc, conflicting_snoc.
    rewrite length_app, Nat.add_comm. simpl (negb _).
    unfold setFilter. rewrite I1.
    destruct (first_value (fst a) l) as [cur|] eqn:E.
    + assert (Hne : (length l =? 0)%nat = false).
      { apply first_value_Some in E. destruct l; [contradiction|reflexivity]. }
      destruct (strict_eqb cur (snd a)) eqn:Ev; simpl negb; cbv iota.
      * rewrite orb_false_r. repeat split.
        -- intros k. rewrite I1, first_value_snoc.
           destruct (first_value k l) eqn:Ek; [reflexivity|].
           destruct (key_eqb k (fst a)) eqn:Eka; [|reflexivity].
           apply key_eqb_eq in Eka. congruence.
        -- exact I2.
        -- rewrite I3, Hne. reflexivity.
        -- intros Hc. unfold spec_collect. rewrite fold_left_app. simpl.
           fold (spec_collect l). rewrite <- (I4 Hc). symmetry. apply put_same.
           rewrite I1, E. apply strict_eqb_eq in Ev. congruence.
      * rewrite orb_true_r. simpl. repeat split.
        -- intros k. rewrite I1, first_value_snoc.
           destruct (first_value k l) eqn:Ek; [reflexivity|].
           destruct (key_eqb k (fst a)) eqn:Eka; [|reflexivity].
           apply key_eqb_eq in Eka. congruence.
        -- rewrite length_app, Nat.add_comm. reflexivity.
        -- rewrite I3, Hne. reflexivity.
        -- discriminate.
    + rewrite orb_false_r. simpl. repeat split.
      * intros k. rewrite first_value_snoc.
        destruct (key_eqb k (fst a)) eqn:Eka.
        -- apply key_eqb_eq in Eka. subst k. rewrite E. apply Ha.
        -- rewrite get_put_other by assumption. rewrite I1.
           destruct (first_value k l); reflexivity.
      * exact I2.
      * intros Hc. unfold spec_collect. rewrite fold_left_app. simpl.
        fold (spec_collect l). rewrite (I4 Hc). reflexivity.
Qed.

Lemma spec_assignments_typed (q : jsstring) :
  Forall (fun a => well_typed a) (spec_assignments q).
Proof.
  unfold spec_assignments, spec_rules. cbn [omap list_omap].
  destruct (includes q (js "single word"));
  destruct (includes q (js "palindromic") || includes q (js "palindrome"));
  destruct (first_match spec_longer_than q);
  destruct (includes q (js "first vowel"));
  destruct (first_match (spec_contains (js "letter")) q);
  destruct (first_match (spec_contains (js "character")) q);
  cbn [option_map]; repeat constructor.
Qed.

Lemma drop_while_nil (p : N -> bool) (s : jsstring) :
  drop_while p s = [] <-> forallb p s = true.
Proof.
  induction s as [|c s IH]; simpl; [tauto|].
  destruct (p c); simpl; [exact IH|]. split; discriminate.
Qed.

Lemma forallb_rev (p : N -> bool) (s : jsstring) :
  forallb p (rev s) = forallb p s.
Proof.
  apply eq_true_iff_eq. rewrite !forallb_forall. split; intros H x Hx; apply H.
  - apply in_rev. rewrite rev_involutive. exact Hx.
  - apply in_rev. exact Hx.
Qed.

Lemma drop_while_forallb (p : N -> bool) (s : jsstring) :
  forallb p (drop_while p s) = forallb p s.
Proof.
  induction s as [|c s IH]; simpl; [reflexivity|].
  destruct (p c) eqn:E; simpl; [exact IH|]. rewrite E. reflexivity.
Qed.

Lemma trim_blank (q : jsstring) :
  (length (trim q) =? 0)%nat = forallb is_whitespace q.
Proof.
  apply eq_true_iff_eq. rewrite Nat.eqb_eq, length_zero_iff_nil. unfold trim.
  rewrite <- (drop_while_forallb is_whitespace q), <- forallb_rev,
    <- drop_while_nil.
  split; intros H.
  - apply (f_equal (@rev N)) in H. rewrite rev_involutive in H. exact H.
  - rewrite H. reflexivity.
Qed.

Lemma first_value_max_length (q : jsstring) :
  first_value max_length_key (spec_assignments q) = None.
Proof.
  unfold spec_assignments, spec_rules. cbn [omap list_omap].
  destruct (includes q (js "single word"));
  destruct (includes q (js "palindromic") || includes q (js "palindrome"));
  destruct (first_match spec_longer_than q);
  destruct (includes q (js "first vowel"));
  destruct (first_match (spec_contains (js "letter")) q);
  destruct (first_match (spec_contains (js "character")) q);
  reflexivity.
Qed.

Lemma first_value_is_palindrome (q : jsstring) :
  first_value is_palindrome_key (spec_assignments q) =
  if includes q (js "palindromic") || includes q (js "palindrome")
  then Some (VBool true) else None.
Proof.
  unfold spec_assignments, spec_rules. cbn [omap list_omap].
  destruct (includes q (js "single word"));
  destruct (includes q (js "palindromic") || includes q (js "palindrome"));
  destruct (first_match spec_longer_than q);
  destruct (includes q (js "first vowel"));
  destruct (first_match (spec_contains (js "letter")) q);
  destruct (first_match (spec_contains (js "character")) q);
  reflexivity.
Qed.

Lemma first_value_word_count (q : jsstring) :
  first_value word_count_key (spec_assignments q) =
  if includes q (js "single word") then Some (VNumber (Finite 1)) else None.
Proof.
  unfold spec_assignments, spec_rules. cbn [omap list_omap].
  destruct (includes q (js "single word"));
  destruct (includes q (js "palindromic") || includes q (js "palindrome"));
  destruct (first_match spec_longer_than q);
  destruct (includes q (js "first vowel"));
  destruct (first_match (spec_contains (js "letter")) q);
  destruct (first_match (spec_contains (js "character")) q);
  reflexivity.
Qed.

Lemma first_value_min_length (q : jsstring) :
  first_value min_length_key (spec_assignments q) =
  option_map (fun ds => VNumber (number_add (Number_of_digits ds) 1))
    (first_match spec_longer_than q).
Proof.
  unfold spec_assignments, spec_rules. cbn [omap list_omap].
  destruct (includes q (js "single word"));
  destruct (includes q (js "palindromic") || includes q (js "palindrome"));
  destruct (first_match spec_longer_than q);
  destruct (includes q (js "first vowel"));
  destruct (first_match (spec_contains (js "letter")) q);
  destruct (first_match (spec_contains (js "character")) q);
  reflexivity.
Qed.

Lemma first_value_contains_character (q : jsstring) :
  first_value contains_character_key (spec_assignments q) =
  option_map VString
    (if includes q (js "first vowel") then Some (js "a")
     else match first_match (spec_contains (js "letter")) q with
          | Some x => Some x
          | None => first_match (spec_contains (js "character")) q
          end).
Proof.
  unfold spec_assignments, spec_rules. cbn [omap list_omap].
  destruct (includes q (js "single word"));
  destruct (includes q (js "palindromic") || includes q (js "palindrome"));
  destruct (first_match spec_longer_than q);
  destruct (includes q (js "first vowel"));
  destruct (first_match (spec_contains (js "letter")) q);
  destruct (first_match (spec_contains (js "character")) q);
  reflexivity.
Qed.

Section ParserFacts.

Context {U : Unicode}.

Lemma apply_rules_assignments (lower : jsstring) :
  apply_rules lower = apply_assignments (spec_assignments lower).
Proof.
  unfold apply_rules, spec_assignments, spec_rules, apply_assignments.
  rewrite search_longer, search_contains_letter, search_contains_character.
  cbn [omap list_omap].
  destruct (includes lower (js "single word"));
  destruct (includes lower (js "palindromic"));
  destruct (includes lower (js "palindrome"));
  destruct (first_match spec_longer_than lower);
  destruct (includes lower (js "first vowel"));
  destruct (first_match (spec_contains (js "letter")) lower);
  destruct (first_match (spec_contains (js "character")) lower);
  reflexivity.
Qed.

(** The fields of the filters that the rules accumulate. *)
Lemma apply_rules_fields (lower : jsstring) (k : FilterKey) :
  get_filter k (filters (apply_rules lower)) = first_value k (spec_assignments lower).
Proof.
  rewrite apply_rules_assignments.
  apply (apply_assignments_spec _ (spec_assignments_typed lower)).
Qed.

Lemma apply_rules_max_length (lower : jsstring) :
  Filters.max_length (filters (apply_rules lower)) = None.
Proof.
  pose proof (apply_rules_fields lower max_length_key) as H.
  rewrite first_value_max_length in H. simpl in H.
  destruct (Filters.max_length _); [discriminate|reflexivity].
Qed.

Lemma conclude_success (lower : jsstring) (f : QueryFilters) :
  conclude (apply_rules lower) = success f -> f = filters (apply_rules lower).
Proof.
  unfold conclude. destruct (0 <? length _)%nat; [discriminate|].
  rewrite apply_rules_max_length.
  destruct (Filters.min_length _); destruct (negb _); congruence.
Qed.

Lemma parse_success (q : jsstring) (f : QueryFilters) :
  parseNaturalLanguageQuery q = success f ->
  f = filters (apply_rules (toLowerCase (trim q))).
Proof.
  unfold parseNaturalLanguageQuery. destruct (length (trim q) =? 0)%nat; [discriminate|].
  apply conclude_success.
Qed.

End ParserFacts.

Lemma number_add_exact (n : Z) :
  (n < 2 ^ 53)%Z -> number_add (to_double n) 1 = Finite (n + 1)%Z.
Proof.
  intros H. unfold to_double at 1.
  destruct (Z.ltb_spec n (2 ^ 53)) as [_|]; [|lia]. simpl number_add.
  destruct (Z.eq_dec (n + 1) (2 ^ 53))%Z as [->|Hne]; [reflexivity|].
  unfold to_double. destruct (Z.ltb_spec (n + 1) (2 ^ 53)); [reflexivity|lia].
Qed.

Section ParserClaims.

Context {U : Unicode}.

Lemma parse_refines_spec (query : jsstring) :
  parseNaturalLanguageQuery query = spec_parse query.
Proof.
  unfold parseNaturalLanguageQuery, spec_parse. rewrite trim_blank.
  destruct (forallb is_whitespace query); [reflexivity|].
  set (lower := toLowerCase (trim query)).
  unfold conclude. rewrite apply_rules_max_length, apply_rules_assignments.
  destruct (apply_assignments_spec _ (spec_assignments_typed lower))
    as (_ & I2 & I3 & I4).
  cbv zeta in *. rewrite I2, I3.
  destruct (spec_conflicting (spec_assignments lower)); [reflexivity|].
  rewrite <- (I4 eq_refl), <- apply_rules_assignments, apply_rules_max_length.
  destruct (Filters.min_length _); destruct (spec_assignments lower); reflexivity.
Qed.

(** Every assignment of a successful parse is in its filters. *)
Lemma parse_success_holds (query : jsstring) (f : QueryFilters) k v :
  parseNaturalLanguageQuery query = success f ->
  In (k, v) (spec_assignments (toLowerCase (trim query))) ->
  get_filter k f = Some v.
Proof.
  intros Hs Hin. pose proof (parse_success _ _ Hs) as ->.
  rewrite apply_rules_fields.
  rewrite parse_refines_spec in Hs. unfold spec_parse in Hs.
  destruct (forallb is_whitespace query); [discriminate|].
  set (a := spec_assignments (toLowerCase (trim query))) in *.
  destruct (spec_conflicting a) eqn:Ec; [discriminate|].
  clear Hs.
  destruct (first_value k a) as [cur|] eqn:E.
  - destruct (strict_eqb cur v) eqn:Ev; [apply strict_eqb_eq in Ev; congruence|].
    apply first_value_Some in E.
    assert (spec_conflicting a = true); [|congruence].
    apply conflicting_iff. exists (k, cur), (k, v). simpl. repeat split; auto.
    intros ->. rewrite (proj2 (strict_eqb_eq _ _) eq_refl) in Ev. discriminate.
  - exfalso. exact (first_value_None _ _ v E Hin).
Qed.

Lemma spec_contains_here (noun s x : jsstring) :
  spec_contains noun s = Some x -> exists c, x = [c] /\ is_lower_az c = true.
Proof.
  unfold spec_contains.
  repeat match goal with
    | |- context [match ?t with _ => _ end] => destruct t eqn:?; try discriminate
    end; intros [= <-]; eauto.
Qed.

Lemma spec_contains_letter (noun s x : jsstring) :
  first_match (spec_contains noun) s = Some x ->
  exists c, x = [c] /\ is_lower_az c = true.
Proof.
  induction s as [|c0 s IH]; cbn [first_match].
  - destruct (spec_contains noun []) eqn:E; [|discriminate]. intros [= ->].
    eapply spec_contains_here, E.
  - destruct (spec_contains noun (c0 :: s)) eqn:E; [|exact IH]. intros [= ->].
    eapply spec_contains_here, E.
Qed.

(** C5: for every query, [parseNaturalLanguageQuery] answers as the
    specification prescribes: [unparsed] for a blank query; otherwise the
    phrase rules each give at most one assignment, and the answer is
    [conflict] when two assignments give different values to the same
    field, [unparsed] when there is no assignment, and [success] with the
    filters holding every assignment otherwise.  Two phrases that assign
    the same value do not conflict ("first vowel" together with "letter
    a"), two different letters do, and a query without any phrase is
    unparsed. *)
Theorem parse_outcome (query : jsstring) :
  parseNaturalLanguageQuery query = spec_parse query
  /\ parseNaturalLanguageQuery (js "the first vowel, containing the letter a")
     = success (Filters.mk None None None None (Some (js "a")))
  /\ parseNaturalLanguageQuery (js "containing the letter b and contain the character c")
     = conflict "Query parsed but resulted in conflicting filters"
  /\ parseNaturalLanguageQuery (js "asdkjasd")
     = unparsed "Unable to parse natural language query"
  /\ parseNaturalLanguageQuery (js "   ")
     = unparsed "Unable to parse natural language query".
Proof.
  split; [apply parse_refines_spec|repeat split; vm_compute; reflexivity].
Qed.

(** C6, amended: when the parse of a query succeeds, its filters hold
    every recognized phrase of the lower-cased, trimmed query: "single
    word" gives [word_count = 1]; "palindromic" or "palindrome" gives
    [is_palindrome = true]; the first "longer than N", N a run of
    decimal digits, gives [min_length = N + 1] in double arithmetic,
    which is N + 1 itself for N below 2^53; "first vowel" gives
    [contains_character = "a"]; the first "contain(ing) [the] letter X"
    and the first "contain(ing) [the] character X" give
    [contains_character = X], where X is a letter a-z (with any other
    character the phrase is not recognized); fields without a phrase are
    absent.  The two examples of the specification hold. *)
Theorem phrase_filters :
  (forall (query : jsstring) (f : QueryFilters),
     parseNaturalLanguageQuery query = success f ->
     let lower := toLowerCase (trim query) in
     Filters.word_count f
       = (if includes lower (js "single word") then Some (Finite 1) else None)
     /\ Filters.is_palindrome f
       = (if includes lower (js "palindromic") || includes lower (js "palindrome")
          then Some true else None)
     /\ Filters.min_length f
       = option_map (fun ds => number_add (Number_of_digits ds) 1)
           (first_match spec_longer_than lower)
     /\ (forall ds, first_match spec_longer_than lower = Some ds ->
                    (decimal ds < 2 ^ 53)%Z ->
                    Filters.min_length f = Some (Finite (decimal ds + 1)))
     /\ (includes lower (js "first vowel") = true ->
         Filters.contains_character f = Some (js "a"))
     /\ (forall x, first_match (spec_contains (js "letter")) lower = Some x ->
                   Filters.contains_character f = Some x
                   /\ exists c, x = [c] /\ is_lower_az c = true)
     /\ (forall x, first_match (spec_contains (js "character")) lower = Some x ->
                   Filters.contains_character f = Some x
                   /\ exists c, x = [c] /\ is_lower_az c = true)
     /\ (includes lower (js "first vowel") = false ->
         first_match (spec_contains (js "letter")) lower = None ->
         first_match (spec_contains (js "character")) lower = None ->
         Filters.contains_character f = None)
     /\ Filters.max_length f = None)
  /\ parseNaturalLanguageQuery (js "single word palindromic strings")
     = success (Filters.mk (Some true) None None (Some (Finite 1)) None)
  /\ parseNaturalLanguageQuery (js "strings longer than 10")
     = success (Filters.mk None (Some (Finite 11)) None None None).
Proof.
  split; [|split; vm_compute; reflexivity].
  intros query f Hs lower.
  pose proof (parse_success _ _ Hs) as Hf. fold lower in Hf.
  assert (Hget : forall k, get_filter k f = first_value k (spec_assignments lower)).
  { intros k. rewrite Hf. apply apply_rules_fields. }
  assert (Hmin : Filters.min_length f
                 = option_map (fun ds => number_add (Number_of_digits ds) 1)
                     (first_match spec_longer_than lower)).
  { pose proof (Hget min_length_key) as H.
    rewrite first_value_min_length in H. simpl in H.
    destruct (Filters.min_length f), (first_match spec_longer_than lower);
      simpl in *; congruence. }
  assert (Hin : forall x,
    In (contains_character_key, VString x) (spec_assignments lower) ->
    Filters.contains_character f = Some x).
  { intros x Hx. pose proof (parse_success_holds _ _ _ _ Hs Hx) as H. simpl in H.
    destruct (Filters.contains_character f); simpl in H; congruence. }
  repeat split.
  - pose proof (Hget word_count_key) as H.
    rewrite first_value_word_count in H. simpl in H.
    destruct (Filters.word_count f), (includes lower (js "single word"));
      simpl in *; congruence.
  - pose proof (Hget is_palindrome_key) as H.
    rewrite first_value_is_palindrome in H. simpl in H.
    destruct (Filters.is_palindrome f), (_ || _); simpl in *; congruence.
  - exact Hmin.
  - intros ds Hds Hlt. rewrite Hmin, Hds. simpl. unfold Number_of_digits.
    rewrite number_add_exact by assumption. reflexivity.
  - intros Hv. apply Hin. unfold spec_assignments, spec_rules.
    cbn [omap list_omap]. rewrite Hv.
    destruct (includes lower (js "single word"));
    destruct (includes lower (js "palindromic") || includes lower (js "palindrome"));
    destruct (first_match spec_longer_than lower); simpl; auto 12.
  - apply Hin. unfold spec_assignments, spec_rules.
    cbn [omap list_omap]. rewrite H.
    destruct (includes lower (js "single word"));
    destruct (includes lower (js "palindromic") || includes lower (js "palindrome"));
    destruct (first_match spec_longer_than lower);
    destruct (includes lower (js "first vowel")); simpl; auto 12.
  - eapply spec_contains_letter, H.
  - apply Hin. unfold spec_assignments, spec_rules.
    cbn [omap list_omap]. rewrite H.
    destruct (includes lower (js "single word"));
    destruct (includes lower (js "palindromic") || includes lower (js "palindrome"));
    destruct (first_match spec_longer_than lower);
    destruct (includes lower (js "first vowel"));
    destruct (first_match (spec_contains (js "letter")) lower); simpl; auto 12.
  - eapply spec_contains_letter, H.
  - intros Hv Hl Hc. pose proof (Hget contains_character_key) as H.
    rewrite first_value_contains_character, Hv, Hl, Hc in H. simpl in H.
    destruct (Filters.contains_character f); simpl in H; congruence.
  - rewrite Hf. apply apply_rules_max_length.
Qed.

(** C10: for every query, the filters that the rules accumulate have no
    [max_length], and an [is_palindrome] field, when present, is [true];
    so the comparison of [min_length] with [max_length] in the parser is
    never true, and every [success] satisfies the bounds invariant. *)
Theorem parser_never_sets_max_length (query : jsstring) :
  let st := apply_rules (toLowerCase (trim query)) in
  Filters.max_length (filters st) = None
  /\ (Filters.is_palindrome (filters st) = None
      \/ Filters.is_palindrome (filters st) = Some true)
  /\ match Filters.min_length (filters st), Filters.max_length (filters st) with
     | Some lo, Some hi => number_ltb hi lo
     | _, _ => false
     end = false
  /\ (forall f, parseNaturalLanguageQuery query = success f ->
        Filters.max_length f = None
        /\ (Filters.is_palindrome f = None \/ Filters.is_palindrome f = Some true)
        /\ forall lo hi, Filters.min_length f = Some lo ->
                         Filters.max_length f = Some hi -> number_ltb hi lo = false).
Proof.
  cbv zeta. set (lower := toLowerCase (trim query)).
  assert (Hpal : Filters.is_palindrome (filters (apply_rules lower)) = None
                 \/ Filters.is_palindrome (filters (apply_rules lower)) = Some true).
  { pose proof (apply_rules_fields lower is_palindrome_key) as H.
    rewrite first_value_is_palindrome in H. simpl in H.
    destruct (Filters.is_palindrome _) as [[|]|];
      destruct (_ || _); simpl in H; try discriminate; auto. }
  repeat split.
  - apply apply_rules_max_length.
  - exact Hpal.
  - rewrite apply_rules_max_length. destruct (Filters.min_length _); reflexivity.
  - apply parse_success in H. subst f. apply apply_rules_max_length.
  - apply parse_success in H. subst f. exact Hpal.
  - intros lo hi _ Hhi. apply parse_success in H. subst f.
    fold lower in Hhi. rewrite apply_rules_max_length in Hhi. discriminate.
Qed.

(** C7: filters whose [min_length] exceeds their [max_length] are rejected
    on both entry paths: the listing route answers with the validation
    error 400, and the checks that end the natural-language parser answer
    [conflict], which its route turns into the status 422;
    [list({min_length:5, max_length:3})] is a validation error. *)
Theorem min_above_max_rejected (f : QueryFilters) (lo hi : number) :
  Filters.min_length f = Some lo ->
  Filters.max_length f = Some hi ->
  number_ltb hi lo = true ->
  (forall t, listStrings f t = JsonError 400)
  /\ (forall cs p,
        conclude (mkState f cs p)
        = conflict "Query parsed but resulted in conflicting filters")
  /\ (forall query message t,
        parseNaturalLanguageQuery query = conflict message ->
        filterByNaturalLanguage query t = JsonError 422)
  /\ (forall t,
        listStrings (Filters.mk None (Some (Finite 5)) (Some (Finite 3)) None None) t
        = JsonError 400).
Proof.
  intros Hlo Hhi Hlt. repeat split.
  - intros t. unfold listStrings. rewrite Hlo, Hhi, Hlt. reflexivity.
  - intros cs p. unfold conclude. simpl filters. rewrite Hlo, Hhi, Hlt.
    destruct (0 <? length _)%nat; reflexivity.
  - intros query message t H. unfold filterByNaturalLanguage. rewrite H.
    reflexivity.
Qed.

End ParserClaims.

Lemma parser_never_sets_max_length_witness :
  exists f,
    parseNaturalLanguageQuery (U := basic_latin) (js "palindromic strings") = success f
    /\ Filters.max_length f = None.
Proof.
  exists (Filters.mk (Some true) None None None None). split; [reflexivity|].
  apply (parser_never_sets_max_length (U := basic_latin) (js "palindromic strings")).
  reflexivity.
Defined.

Lemma min_above_max_rejected_witness :
  number_ltb (Finite 3) (Finite 5) = true
  /\ listStrings (U := basic_latin)
       (Filters.mk None (Some (Finite 5)) (Some (Finite 3)) None None)
       (mkTable expected_columns [])
     = JsonError 400.
Proof.
  split; [reflexivity|].
  apply (min_above_max_rejected (U := basic_latin)
           (Filters.mk None (Some (Finite 5)) (Some (Finite 3)) None None)
           (Finite 5) (Finite 3)); reflexivity.
Defined.

Lemma phrase_filters_witness :
  parseNaturalLanguageQuery (U := basic_latin) (js "strings longer than 10")
  = success (Filters.mk None (Some (Finite 11)) None None None)
  /\ Filters.min_length (Filters.mk None (Some (Finite 11)) None None None)
     = Some (Finite (decimal (js "10") + 1)).
Proof.
  split; [reflexivity|].
  pose proof (proj1 (phrase_filters (U := basic_latin))
                (js "strings longer than 10")
                (Filters.mk None (Some (Finite 11)) None None None)
                eq_refl) as H.
  cbv zeta in H. destruct H as (_ & _ & _ & H & _).
  apply (H (js "10")); reflexivity.
Defined.

(** C6 as stated fails: "containing the character 5" names a character
    and is not recognized, and "longer than 9007199254740992" gives
    [min_length] 9007199254740992 itself. *)
Lemma phrase_filters_counterexample :
  parseNaturalLanguageQuery (U := basic_latin)
    (js "strings containing the character 5")
  = unparsed "Unable to parse natural language query"
  /\ parseNaturalLanguageQuery (U := basic_latin)
       (js "strings longer than 9007199254740992")
     = success (Filters.mk None (Some (Finite 9007199254740992)) None None None).
Proof. split; vm_compute; reflexivity. Qed.

(** ** The property computer *)

Lemma below_128 (P : N -> bool) :
  forallb P (List.map N.of_nat (seq 0 128)) = true ->
  forall c, c < 128 -> P c = true.
Proof.
  intros H c Hc. rewrite forallb_forall in H. apply H.
  rewrite <- (N2Nat.id c). apply in_map, in_seq. lia.
Qed.

Lemma ascii_alnum_below_128 (c : N) : is_ascii_alnum c = true -> c < 128.
Proof.
  unfold is_ascii_alnum, is_lower_az, is_upper_AZ, is_digit, in_range.
  intros H. bool_to_prop; lia.
Qed.

Lemma codepoints_single (c : N) (s : jsstring) :
  is_high_surrogate c = false -> codepoints (c :: s) = c :: codepoints s.
Proof. intros H. destruct s; simpl; [|rewrite H]; reflexivity. Qed.

Lemma codepoints_ascii (s : jsstring) :
  Forall (fun c => c < 128) s -> codepoints s = s.
Proof.
  induction 1 as [|c s Hc Hs IH]; [reflexivity|].
  rewrite codepoints_single, IH; [reflexivity|].
  unfold is_high_surrogate, in_range.
  apply andb_false_iff. left. apply N.leb_gt. lia.
Qed.

Lemma utf16_small (s : jsstring) :
  Forall (fun c => c < 65536) s -> utf16 s = s.
Proof.
  induction 1 as [|c s Hc Hs IH]; [reflexivity|].
  unfold utf16 in *. simpl. rewrite IH. unfold utf16_of_codepoint.
  apply N.ltb_lt in Hc. rewrite Hc. reflexivity.
Qed.

(** Whether [c], followed by [s], starts a surrogate pair. *)
Local Abbreviation starts_pair c s :=
  (match s with
   | lo :: _ => is_high_surrogate c && is_low_surrogate lo
   | [] => false
   end).

Lemma Array_from_unit (c : N) (s : jsstring) :
  starts_pair c s = false -> Array_from (c :: s) = [c] :: Array_from s.
Proof. destruct s as [|lo s]; simpl; [reflexivity|]. intros ->. reflexivity. Qed.

Lemma Array_from_pair (hi lo : N) (s : jsstring) :
  is_high_surrogate hi && is_low_surrogate lo = true ->
  Array_from (hi :: lo :: s) = [hi; lo] :: Array_from s.
Proof. simpl. intros ->. reflexivity. Qed.

Lemma codepoints_unit (c : N) (s : jsstring) :
  starts_pair c s = false -> codepoints (c :: s) = c :: codepoints s.
Proof. destruct s as [|lo s]; simpl; [reflexivity|]. intros ->. reflexivity. Qed.

Lemma codepoints_pair (hi lo : N) (s : jsstring) :
  is_high_surrogate hi && is_low_surrogate lo = true ->
  codepoints (hi :: lo :: s)
  = (65536 + (hi - 55296) * 1024 + (lo - 56320)) :: codepoints s.
Proof. simpl. intros ->. reflexivity. Qed.

(** Induction along the string iterator. *)
Lemma string_iterator_ind (P : jsstring -> Prop) :
  P [] ->
  (forall c s, starts_pair c s = false -> P s -> P (c :: s)) ->
  (forall hi lo s, is_high_surrogate hi && is_low_surrogate lo = true ->
                   P s -> P (hi :: lo :: s)) ->
  forall s, P s.
Proof.
  intros Hnil Hunit Hpair s.
  assert (G : forall n s, (length s <= n)%nat -> P s).
  { induction n as [|n IH]; intros [|c t] Hlen; simpl in Hlen; try exact Hnil; [lia|].
    destruct (starts_pair c t) eqn:E.
    - destruct t as [|lo t]; [discriminate|].
      apply Hpair; [exact E|]. apply IH. simpl in Hlen. lia.
    - apply Hunit; [exact E|]. apply IH. lia. }
  apply (G (length s)). lia.
Qed.

Lemma length_Array_from (s : jsstring) :
  length (Array_from s) = length (codepoints s).
Proof.
  induction s as [|c s E IH|hi lo s E IH] using string_iterator_ind.
  - reflexivity.
  - rewrite Array_from_unit, codepoints_unit by assumption. simpl. congruence.
  - rewrite Array_from_pair, codepoints_pair by assumption. simpl. congruence.
Qed.

Lemma utf16_of_pair (hi lo : N) :
  is_high_surrogate hi && is_low_surrogate lo = true ->
  utf16_of_codepoint (65536 + (hi - 55296) * 1024 + (lo - 56320)) = [hi; lo].
Proof.
  unfold is_high_surrogate, is_low_surrogate, in_range. intros H. bool_to_prop.
  unfold utf16_of_codepoint.
  destruct (N.ltb_spec (65536 + (hi - 55296) * 1024 + (lo - 56320)) 65536); [lia|].
  replace (65536 + (hi - 55296) * 1024 + (lo - 56320) - 65536)
    with ((hi - 55296) * 1024 + (lo - 56320)) by lia.
  assert (D : ((hi - 55296) * 1024 + (lo - 56320)) / 1024 = hi - 55296)
    by (rewrite N.div_add_l, N.div_small by lia; lia).
  assert (M : ((hi - 55296) * 1024 + (lo - 56320)) mod 1024 = lo - 56320)
    by (rewrite N.add_comm, N.Div0.mod_add; apply N.mod_small; lia).
  rewrite D, M. f_equal; [lia|f_equal; lia].
Qed.

(** The elements of the string iterator are the code points, encoded. *)
Lemma Array_from_codepoints (s : jsstring) :
  code_units s -> Array_from s = List.map utf16_of_codepoint (codepoints s).
Proof.
  unfold code_units.
  induction s as [|c s E IH|hi lo s E IH] using string_iterator_ind; intros H.
  - reflexivity.
  - rewrite Array_from_unit, codepoints_unit by assumption. cbn [List.map].
    inversion H as [|? ? Hc Hs]; subst. rewrite IH by assumption.
    f_equal. unfold utf16_of_codepoint. apply N.ltb_lt in Hc. rewrite Hc.
    reflexivity.
  - rewrite Array_from_pair, codepoints_pair by assumption. cbn [List.map].
    inversion H as [|? ? _ Hs]; subst. inversion Hs as [|? ? _ Hs']; subst.
    rewrite IH, utf16_of_pair by assumption. reflexivity.
Qed.

Lemma utf16_of_codepoint_inj (a b : N) :
  utf16_of_codepoint a = utf16_of_codepoint b -> a = b.
Proof.
  unfold utf16_of_codepoint.
  destruct (N.ltb_spec a 65536), (N.ltb_spec b 65536); intros E;
    try discriminate; [congruence|].
  injection E as Eq Er.
  pose proof (N.div_mod (a - 65536) 1024). pose proof (N.div_mod (b - 65536) 1024).
  assert ((a - 65536) / 1024 = (b - 65536) / 1024) by lia.
  assert ((a - 65536) mod 1024 = (b - 65536) mod 1024) by lia.
  lia.
Qed.

Lemma map_fmap {A B : Type} (f : A -> B) (l : list A) : List.map f l = f <$> l.
Proof. induction l as [|x l IH]; simpl; [|rewrite IH]; reflexivity. Qed.

(** The size of the set of the encoded code points. *)
Lemma size_Set_of_codepoints (l : list N) :
  size (Set_of (List.map utf16_of_codepoint l)) = length (remove_dups l).
Proof.
  unfold Set_of. rewrite map_fmap.
  replace (list_to_set (utf16_of_codepoint <$> l) : gset jsstring)
    with (list_to_set (utf16_of_codepoint <$> remove_dups l) : gset jsstring).
  - rewrite size_list_to_set, length_fmap; [reflexivity|].
    apply NoDup_fmap_2_strong; [|apply NoDup_remove_dups].
    intros a b _ _. apply utf16_of_codepoint_inj.
  - apply set_eq. intros x. rewrite !elem_of_list_to_set, !list_elem_of_fmap.
    split; intros (y & -> & Hy); exists y; (split; [reflexivity|]);
      apply elem_of_remove_dups; exact Hy.
Qed.

(** *** Words *)

Lemma count_runs_true_drop (p : N -> bool) (s : jsstring) :
  count_runs p true s = count_runs p false (drop_while p s).
Proof.
  induction s as [|c s IH]; simpl; [reflexivity|].
  destruct (p c) eqn:E; simpl; [exact IH|]. rewrite E. reflexivity.
Qed.

(** The pieces of [split(/\s+/)] are one more than the whitespace runs. *)
Lemma length_split_from (fuel : nat) : forall tok s,
  (length s <= fuel)%nat ->
  length (split_from fuel re_whitespace_run tok s)
  = S (count_runs is_whitespace false s).
Proof.
  induction fuel as [|fuel IH]; intros tok s Hlen.
  - destruct s; [reflexivity|simpl in Hlen; lia].
  - destruct s as [|c s]; [reflexivity|]. cbn [split_from].
    rewrite exec_whitespace_run. cbn [count_runs].
    destruct (is_whitespace c) eqn:E.
    + pose proof (drop_while_length is_whitespace s) as Hd.
      replace (length (drop_while is_whitespace s) =? length (c :: s))%nat
        with false by (symmetry; apply Nat.eqb_neq; simpl; lia).
      cbn [andb length]. rewrite IH by (simpl in Hlen; lia).
      rewrite count_runs_true_drop. reflexivity.
    + apply IH. simpl in Hlen. lia.
Qed.

(** Whether the last code unit of [s] is whitespace; [d] answers for the
    empty string. *)
Local Abbreviation ends_blank d s := (List.last (List.map is_whitespace s) d).

Lemma last_cons {A : Type} (l : list A) : forall d x,
  List.last (x :: l) d = List.last l x.
Proof.
  induction l as [|y l IH]; intros d x; [reflexivity|].
  change (List.last (x :: y :: l) d) with (List.last (y :: l) d).
  rewrite (IH d y), (IH x y). reflexivity.
Qed.

Lemma runs_and_tokens (s : jsstring) :
  (count_runs (fun c => negb (is_whitespace c)) true s
   + (if ends_blank false s then 1 else 0)
   = count_runs is_whitespace false s)%nat
  /\ (count_runs (fun c => negb (is_whitespace c)) false s
      + (if ends_blank true s then 1 else 0)
      = 1 + count_runs is_whitespace true s)%nat.
Proof.
  induction s as [|c s [IH1 IH2]]; [split; reflexivity|].
  assert (L : forall d, ends_blank d (c :: s) = ends_blank (is_whitespace c) s).
  { intros d. apply last_cons. }
  rewrite !L. cbn [count_runs]. destruct (is_whitespace c); simpl negb; cbv iota; lia.
Qed.

Lemma drop_while_snoc (p : N -> bool) (l : jsstring) (c : N) :
  p c = false -> exists w, drop_while p (l ++ [c]) = w ++ [c].
Proof.
  intros Hc. induction l as [|x l IH]; simpl.
  - rewrite Hc. exists []. reflexivity.
  - destruct (p x); [exact IH|]. exists (x :: l). reflexivity.
Qed.

Lemma trim_head (s : jsstring) c t : trim s = c :: t -> is_whitespace c = false.
Proof.
  unfold trim. intros H.
  destruct (drop_while is_whitespace s) as [|c' u'] eqn:Eu; [discriminate|].
  pose proof (drop_while_head _ _ _ _ Eu) as Hc'.
  simpl rev in H.
  destruct (drop_while_snoc is_whitespace (rev u') c' Hc') as [w Hw].
  rewrite Hw, rev_app_distr in H. simpl in H. injection H as -> _. exact Hc'.
Qed.

Lemma trim_last (s : jsstring) : ends_blank false (trim s) = false.
Proof.
  unfold trim. set (w := rev (drop_while is_whitespace s)).
  destruct (drop_while is_whitespace w) as [|c t] eqn:E; [reflexivity|].
  pose proof (drop_while_head _ _ _ _ E) as Hc.
  simpl rev. rewrite List.map_app. cbn [List.map]. rewrite List.last_last.
  exact Hc.
Qed.

Lemma word_count_tokens (value : jsstring) :
  calculateWordCount value
  = if forallb is_whitespace value then 0%Z
    else Z.of_nat (spec_token_count (trim value)).
Proof.
  unfold calculateWordCount. rewrite trim_blank.
  destruct (forallb is_whitespace value) eqn:B; [reflexivity|].
  f_equal. destruct (trim value) as [|c t] eqn:E.
  - rewrite <- trim_blank, E in B. discriminate.
  - unfold split. rewrite length_split_from by lia.
    pose proof (trim_head _ _ _ E) as Hc. pose proof (trim_last value) as Hl.
    rewrite E in Hl. unfold spec_token_count. cbn [count_runs]. rewrite Hc.
    simpl negb. cbv iota.
    destruct (runs_and_tokens t) as [R1 _].
    assert (L : ends_blank false (c :: t) = ends_blank (is_whitespace c) t)
      by apply last_cons.
    rewrite L, Hc in Hl. rewrite Hl in R1. lia.
Qed.

(** *** The frequency map *)

Section ObjectFacts.

Context {V : Type}.
Implicit Types (o : list (jsstring * V)) (k : jsstring) (v : V).

Lemma obj_get_replace k k' v o :
  obj_get k (obj_replace k' v o)
  = if jsstring_eqb k k'
    then match obj_get k' o with Some _ => Some v | None => None end
    else obj_get k o.
Proof.
  induction o as [|[k0 v0] o IH]; simpl.
  - destruct (jsstring_eqb k k'); reflexivity.
  - destruct (jsstring_eqb k' k0) eqn:E0; simpl.
    + apply jsstring_eqb_eq in E0. subst k0.
      destruct (jsstring_eqb k k'); reflexivity.
    + rewrite IH. destruct (jsstring_eqb k k0) eqn:E1; [|reflexivity].
      destruct (jsstring_eqb k k') eqn:E2; [|reflexivity].
      apply jsstring_eqb_eq in E1, E2. subst. rewrite jsstring_eqb_refl in E0.
      discriminate.
Qed.

Lemma obj_get_insert_index i k k' v o :
  obj_get k' o = None ->
  obj_get k (obj_insert_index i k' v o)
  = if jsstring_eqb k k' then Some v else obj_get k o.
Proof.
  induction o as [|[k0 v0] o IH]; simpl; intros Hfree; [reflexivity|].
  destruct (jsstring_eqb k' k0) eqn:E0; [discriminate|].
  assert (Hhere : obj_get k ((k', v) :: (k0, v0) :: o)
                  = if jsstring_eqb k k' then Some v else obj_get k ((k0, v0) :: o))
    by reflexivity.
  destruct (array_index k0) as [j|]; [|exact Hhere].
  destruct (j <? i)%Z; [|exact Hhere].
  simpl. rewrite (IH Hfree).
  destruct (jsstring_eqb k k0) eqn:E1; [|reflexivity].
  destruct (jsstring_eqb k k') eqn:E2; [|reflexivity].
  apply jsstring_eqb_eq in E1, E2. subst. rewrite jsstring_eqb_refl in E0.
  discriminate.
Qed.

Lemma obj_get_app k k' v o :
  obj_get k' o = None ->
  obj_get k (o ++ [(k', v)])
  = if jsstring_eqb k k' then Some v else obj_get k o.
Proof.
  induction o as [|[k0 v0] o IH]; simpl; intros Hfree.
  - destruct (jsstring_eqb k k'); reflexivity.
  - destruct (jsstring_eqb k' k0) eqn:E0; [discriminate|].
    rewrite (IH Hfree).
    destruct (jsstring_eqb k k0) eqn:E1; [|reflexivity].
    destruct (jsstring_eqb k k') eqn:E2; [|reflexivity].
    apply jsstring_eqb_eq in E1, E2. subst. rewrite jsstring_eqb_refl in E0.
    discriminate.
Qed.

(** Reading a property after an assignment. *)
Lemma obj_get_set k k' v o :
  obj_get k (obj_set k' v o) = if jsstring_eqb k k' then Some v else obj_get k o.
Proof.
  unfold obj_set. destruct (obj_get k' o) eqn:E.
  - rewrite obj_get_replace, E. reflexivity.
  - destruct (array_index k'); [apply obj_get_insert_index|apply obj_get_app];
      exact E.
Qed.

End ObjectFacts.

(** The number of elements of [l] equal to [k]. *)
Local Abbreviation occurrences k l :=
  (Z.of_nat (length (List.filter (jsstring_eqb k) l))).

Lemma frequency_fold (l : list jsstring) : forall (acc : list (jsstring * Z)) k,
  obj_get k
    (fold_left
       (fun frequency char =>
          obj_set char (default 0%Z (obj_get char frequency) + 1)%Z frequency)
       l acc)
  = if (occurrences k l =? 0)%Z then obj_get k acc
    else Some (default 0%Z (obj_get k acc) + occurrences k l)%Z.
Proof.
  induction l as [|ch l IH]; intros acc k; [reflexivity|].
  cbn [fold_left]. rewrite IH, obj_get_set. cbn [List.filter].
  destruct (jsstring_eqb k ch) eqn:E; [|reflexivity].
  apply jsstring_eqb_eq in E. subst ch. cbn [length default].
  generalize (length (List.filter (jsstring_eqb k) l)) as n.
  generalize (default 0%Z (obj_get k acc)) as z. intros z n. unfold id.
  destruct (Z.eqb_spec (Z.of_nat n) 0) as [E0|E0];
    destruct (Z.eqb_spec (Z.of_nat (S n)) 0) as [E1|E1]; try lia; f_equal; lia.
Qed.

Lemma frequency_lookup (value k : jsstring) :
  obj_get k (buildCharacterFrequencyMap value)
  = if (occurrences k (Array_from value) =? 0)%Z then None
    else Some (occurrences k (Array_from value)).
Proof.
  unfold buildCharacterFrequencyMap. rewrite frequency_fold. simpl.
  destruct (_ =? 0)%Z; reflexivity.
Qed.

Lemma occurrences_codepoints (cp : N) (l : list N) :
  length (List.filter (jsstring_eqb (utf16_of_codepoint cp))
            (List.map utf16_of_codepoint l))
  = count_occ N.eq_dec l cp.
Proof.
  induction l as [|x l IH]; simpl; [reflexivity|].
  destruct (N.eq_dec x cp) as [->|Hne].
  - rewrite jsstring_eqb_refl. simpl. rewrite IH. reflexivity.
  - destruct (jsstring_eqb _ _) eqn:E; [|exact IH].
    apply jsstring_eqb_eq, utf16_of_codepoint_inj in E. congruence.
Qed.

Section PropertyFacts.

Context {U : Unicode}.

Lemma class_not_az09_i_alnum (ch : N) :
  class_not_az09_i ch = negb (is_ascii_alnum ch).
Proof.
  destruct (N.lt_ge_cases ch 128) as [Hlt|Hge].
  - pose proof (below_128
      (fun c => eqb (class_not_az09_i c) (negb (is_ascii_alnum c)))) as H.
    apply eqb_prop, H; [vm_compute; reflexivity|exact Hlt].
  - replace (is_ascii_alnum ch) with false.
    + unfold class_not_az09_i. simpl (negb false).
      match goal with |- negb ?e = _ => destruct e eqn:E end; [|reflexivity].
      apply existsb_exists in E as (a & Ha & Heq). apply N.eqb_eq in Heq.
      assert (Hlow : canonicalize a < 128).
      { assert (Hall : forallb (fun a => canonicalize a <? 128) members_az09 = true)
          by (vm_compute; reflexivity).
        rewrite forallb_forall in Hall. apply N.ltb_lt, Hall, Ha. }
      assert (Hhigh : 128 <= canonicalize ch).
      { unfold canonicalize. destruct (N.ltb_spec ch 128); [lia|].
        destruct (unicode_upper_unit ch) as [|cu [|]]; try assumption.
        destruct (N.ltb_spec cu 128); assumption. }
      lia.
    + destruct (is_ascii_alnum ch) eqn:E; [|reflexivity].
      apply ascii_alnum_below_128 in E. lia.
Qed.

Lemma normalizeForPalindrome_spec (value : jsstring) :
  normalizeForPalindrome value = spec_normalized_form value.
Proof.
  unfold normalizeForPalindrome, spec_normalized_form, remove_class.
  apply filter_ext. intros c. rewrite class_not_az09_i_alnum, negb_involutive.
  reflexivity.
Qed.

Lemma lower_codepoints_ascii (s before : list N) :
  Forall (fun c => c < 128) s ->
  lower_codepoints before s
  = List.map (fun c => if is_upper_AZ c then c + 32 else c) s.
Proof.
  intros H. revert before. induction H as [|c s Hc Hs IH]; intros before;
    [reflexivity|].
  simpl. rewrite IH. unfold lower_codepoint.
  apply N.ltb_lt in Hc. rewrite Hc. reflexivity.
Qed.

Lemma ascii_lower_below_128 (s : jsstring) :
  Forall (fun c => c < 128) s ->
  Forall (fun c => c < 128)
    (List.map (fun c => if is_upper_AZ c then c + 32 else c) s).
Proof.
  induction 1 as [|c s Hc Hs IH]; simpl; constructor; [|exact IH].
  destruct (is_upper_AZ c) eqn:E; [|exact Hc].
  unfold is_upper_AZ, in_range in E. bool_to_prop. lia.
Qed.

Lemma below_65536 (s : jsstring) :
  Forall (fun c => c < 128) s -> Forall (fun c => c < 65536) s.
Proof. apply List.Forall_impl. intros c Hc. lia. Qed.

Lemma toLowerCase_ascii (s : jsstring) :
  Forall (fun c => c < 128) s ->
  toLowerCase s = List.map (fun c => if is_upper_AZ c then c + 32 else c) s.
Proof.
  intros H. unfold toLowerCase.
  rewrite codepoints_ascii, lower_codepoints_ascii by assumption.
  apply utf16_small, below_65536, ascii_lower_below_128, H.
Qed.

Lemma canonical_order_ascii (s : list N) :
  Forall (fun c => c < 128) s -> canonical_order s = s.
Proof.
  intros H. unfold canonical_order.
  assert (G : forall acc,
    fold_left (fun out cp => place_mark cp out) s acc = rev s ++ acc).
  { induction H as [|c s Hc Hs IH]; intros acc; [reflexivity|].
    simpl. rewrite IH, <- app_assoc. simpl.
    replace (place_mark c acc) with (c :: acc); [reflexivity|].
    destruct acc as [|p acc']; [reflexivity|]. cbn [place_mark].
    unfold combining_class at 1. apply N.ltb_lt in Hc. rewrite Hc. reflexivity. }
  rewrite G, app_nil_r. apply rev_involutive.
Qed.

Lemma normalize_NFD_ascii (s : jsstring) :
  Forall (fun c => c < 128) s -> normalize_NFD s = s.
Proof.
  intros H. unfold normalize_NFD. rewrite codepoints_ascii by assumption.
  replace (flat_map decomposition s) with s.
  - rewrite canonical_order_ascii by assumption. apply utf16_small, below_65536, H.
  - induction H as [|c s Hc Hs IH]; [reflexivity|]. simpl. rewrite <- IH.
    unfold decomposition. apply N.ltb_lt in Hc. rewrite Hc. reflexivity.
Qed.

(** On an ASCII value the normalized form keeps the letters, lower-cased,
    and the digits. *)
Lemma normalizeForPalindrome_ascii (value : jsstring) :
  Forall (fun c => c < 128) value ->
  normalizeForPalindrome value
  = List.filter is_ascii_alnum
      (List.map (fun c => if is_upper_AZ c then c + 32 else c) value).
Proof.
  intros H. rewrite normalizeForPalindrome_spec. unfold spec_normalized_form.
  rewrite toLowerCase_ascii by assumption.
  rewrite normalize_NFD_ascii by (apply ascii_lower_below_128, H).
  f_equal. pose proof (ascii_lower_below_128 value H) as H'.
  induction H' as [|c s Hc Hs IH]; [reflexivity|]. simpl. rewrite IH.
  replace (in_range 768 879 c) with false; [reflexivity|].
  symmetry. unfold in_range. apply andb_false_iff. left. apply N.leb_gt. lia.
Qed.

(** C2: [is_palindrome] is true exactly when the normalized form of the
    value (lower-cased, decomposed, combining marks removed, only ASCII
    letters and digits kept) is not empty and equal to its reversal.  A
    value of ASCII punctuation and whitespace only is not a palindrome,
    "A man, a plan, a canal: Panama" is one, "hello" is not. *)
Theorem is_palindrome_spec :
  (forall value,
     Props.is_palindrome (computeStringProperties value) = true
     <-> spec_normalized_form value <> []
         /\ spec_normalized_form value = rev (spec_normalized_form value))
  /\ (forall value,
        Forall (fun c => c < 128 /\ is_ascii_alnum c = false) value ->
        Props.is_palindrome (computeStringProperties value) = false)
  /\ Props.is_palindrome
       (computeStringProperties (js "A man, a plan, a canal: Panama")) = true
  /\ Props.is_palindrome (computeStringProperties (js "hello")) = false
  /\ Props.is_palindrome (computeStringProperties (js "...")) = false.
Proof.
  split; [|split; [|repeat split; vm_compute; reflexivity]].
  - intros value. cbn [computeStringProperties Props.is_palindrome].
    rewrite normalizeForPalindrome_spec, andb_true_iff, jsstring_eqb_eq.
    destruct (spec_normalized_form value); simpl; [|intuition congruence].
    split; [intros [[=] _]|intros [[] _]; reflexivity].
  - intros value H. cbn [computeStringProperties Props.is_palindrome].
    rewrite normalizeForPalindrome_ascii
      by (eapply List.Forall_impl; [|exact H]; intros c [Hc _]; exact Hc).
    replace (List.filter _ _) with (@nil N); [reflexivity|].
    induction H as [|c s [Hc Hn] Hs IH]; [reflexivity|]. simpl.
    replace (is_ascii_alnum (if is_upper_AZ c then c + 32 else c)) with false;
      [exact IH|].
    destruct (is_upper_AZ c) eqn:Eu; [|symmetry; exact Hn].
    unfold is_ascii_alnum in Hn. rewrite Eu, orb_true_r in Hn. discriminate.
Qed.

(** C8: [computeStringProperties] is a function of the value alone, and
    for every value: [length] is the number of code points;
    [unique_characters] is the number of distinct code points, upper and
    lower case apart; [word_count] is 0 for a whitespace-only value and
    otherwise the number of maximal whitespace-delimited tokens of the
    trimmed value; the frequency map has, for every code point, the number
    of its occurrences in the value (and no entry when there is none, and
    no other key); [sha256_hash], the id, is the hexadecimal SHA-256
    digest of the UTF-8 bytes of the value as submitted. *)
Theorem computeStringProperties_spec (value : jsstring) :
  let p := computeStringProperties value in
  (forall other, other = value -> computeStringProperties other = p)
  /\ Props.length p = Z.of_nat (length (codepoints value))
  /\ Props.word_count p
     = (if forallb is_whitespace value then 0%Z
        else Z.of_nat (spec_token_count (trim value)))
  /\ Props.sha256_hash p = toHex (SHA256.digest (encode value))
  /\ (code_units value ->
      Props.unique_characters p
      = Z.of_nat (length (remove_dups (codepoints value)))
      /\ exists m,
          Props.character_frequency_map p = frequency_object m
          /\ (forall cp,
                obj_get (utf16_of_codepoint cp) m
                = if (count_occ N.eq_dec (codepoints value) cp =? 0)%nat then None
                  else Some (Z.of_nat (count_occ N.eq_dec (codepoints value) cp)))
          /\ (forall k n, obj_get k m = Some n ->
                exists cp, In cp (codepoints value) /\ k = utf16_of_codepoint cp))
  /\ Props.unique_characters (computeStringProperties (js "Aa")) = 2%Z
  /\ Props.unique_characters (computeStringProperties (js "aabbcc")) = 3%Z
  /\ Props.word_count (computeStringProperties (js "one two  three")) = 3%Z
  /\ Props.word_count (computeStringProperties (js "   ")) = 0%Z
  /\ Props.sha256_hash (computeStringProperties (js "abc"))
     = js "ba7816bf8f01cfea414140de5dae2223b00361a396177a9cb410ff61f20015ad".
Proof.
  cbv zeta. split; [intros other ->; reflexivity|].
  split; [cbn [computeStringProperties Props.length]; rewrite length_Array_from;
          reflexivity|].
  split; [apply word_count_tokens|].
  split; [reflexivity|].
  split; [|repeat split; vm_compute; reflexivity].
  intros Hcu. cbn [computeStringProperties Props.unique_characters
                   Props.character_frequency_map].
  split.
  - rewrite (Array_from_codepoints _ Hcu), size_Set_of_codepoints. reflexivity.
  - exists (buildCharacterFrequencyMap value). split; [reflexivity|]. split.
    + intros cp. rewrite frequency_lookup, (Array_from_codepoints _ Hcu),
        occurrences_codepoints.
      destruct (count_occ N.eq_dec (codepoints value) cp); reflexivity.
    + intros k n Hk. rewrite frequency_lookup, (Array_from_codepoints _ Hcu) in Hk.
      destruct (List.filter (jsstring_eqb k)
                  (List.map utf16_of_codepoint (codepoints value)))
        as [|x l] eqn:E; [discriminate|].
      assert (Hx : In x (List.filter (jsstring_eqb k)
                           (List.map utf16_of_codepoint (codepoints value))))
        by (rewrite E; left; reflexivity).
      apply filter_In in Hx as [Hin Heq]. apply jsstring_eqb_eq in Heq. subst x.
      apply in_map_iff in Hin as (cp & <- & Hcp). exists cp. auto.
Qed.

End PropertyFacts.

Lemma computeStringProperties_spec_witness :
  code_units (js "Aa")
  /\ Props.unique_characters (computeStringProperties (U := basic_latin) (js "Aa"))
     = Z.of_nat (length (remove_dups (codepoints (js "Aa")))).
Proof.
  assert (H : code_units (js "Aa")) by (repeat constructor).
  split; [exact H|].
  pose proof (computeStringProperties_spec (U := basic_latin) (js "Aa")) as S.
  cbv zeta in S. destruct S as (_ & _ & _ & _ & S & _).
  exact (proj1 (S H)).
Defined.

Lemma is_palindrome_spec_witness :
  Forall (fun c => c < 128 /\ is_ascii_alnum c = false) (js "?! ?")
  /\ Props.is_palindrome (computeStringProperties (U := basic_latin) (js "?! ?"))
     = false.
Proof.
  assert (H : Forall (fun c => c < 128 /\ is_ascii_alnum c = false) (js "?! ?"))
    by (repeat constructor).
  split; [exact H|].
  exact (proj1 (proj2 (is_palindrome_spec (U := basic_latin))) (js "?! ?") H).
Defined.

(** ** The fuel of [JSON.parse] *)

Lemma skip_ws_length (s : jsstring) :
  (length (JSON.skip_ws s) <= length s)%nat.
Proof. apply drop_while_length. Qed.

Lemma take_while_length (p : N -> bool) (s : jsstring) :
  (length (take_while p s) <= length s)%nat.
Proof.
  induction s as [|c s IH]; simpl; [lia|]. destruct (p c); simpl; lia.
Qed.

Lemma parse_string_shorter (n : nat) : forall s acc r rest,
  (length s <= n)%nat ->
  JSON.parse_string s acc = Some (r, rest) -> (length rest < length s)%nat.
Proof.
  induction n as [|n IH]; intros [|c s] acc r rest Hlen; simpl in Hlen;
    try discriminate; [lia|].
  cbn [JSON.parse_string].
  destruct (c =? 34); [intros [= _ ->]; simpl; lia|].
  destruct (c =? 92).
  - destruct s as [|e t]; [discriminate|].
    destruct (JSON.simple_escape e).
    + intros H. apply IH in H; simpl in *; lia.
    + destruct (e =? 117); [|discriminate].
      destruct t as [|a [|b [|c' [|d t']]]]; try discriminate.
      destruct (JSON.hex_value a), (JSON.hex_value b), (JSON.hex_value c'),
        (JSON.hex_value d); try discriminate.
      intros H. apply IH in H; simpl in *; lia.
  - destruct (c <? 32); [discriminate|].
    intros H. apply IH in H; simpl in *; lia.
Qed.

Lemma parse_number_shorter (s : jsstring) :
  JSON.parse_number s <> JSON.OutOfFuel
  /\ forall v rest, JSON.parse_number s = JSON.Parsed v rest ->
                    (length rest < length s)%nat.
Proof.
  unfold JSON.parse_number.
  set (negative := match s with c :: _ => c =? 45 | [] => false end).
  set (s1 := if negative then skipn 1 s else s).
  set (whole := match s1 with
                | c :: _ => if c =? 48 then [48] else take_while is_digit s1
                | [] => []
                end).
  set (s2 := skipn (length whole) s1).
  set (has_fraction := match s2 with c :: _ => c =? 46 | [] => false end).
  set (fraction := if has_fraction then take_while is_digit (skipn 1 s2) else []).
  set (s3 := if has_fraction then skipn (S (length fraction)) s2 else s2).
  set (has_exponent := match s3 with c :: _ => (c =? 101) || (c =? 69) | [] => false end).
  set (minus := has_exponent && match skipn 1 s3 with c :: _ => c =? 45 | [] => false end).
  set (plus := has_exponent && match skipn 1 s3 with c :: _ => c =? 43 | [] => false end).
  set (e1 := if minus || plus then skipn 2 s3 else skipn 1 s3).
  set (exponent := if has_exponent then take_while is_digit e1 else []).
  set (s4 := if has_exponent then skipn (length exponent) e1 else s3).
  assert (H1 : (length s1 <= length s)%nat).
  { unfold s1. destruct negative; [rewrite length_skipn|]; lia. }
  assert (Hw : (length whole <= length s1)%nat).
  { unfold whole. destruct s1 as [|c s1']; [simpl; lia|].
    destruct (c =? 48); [simpl; lia|apply take_while_length]. }
  assert (H2 : length s2 = (length s1 - length whole)%nat)
    by (unfold s2; apply length_skipn).
  assert (H3 : (length s3 <= length s2)%nat).
  { unfold s3. destruct has_fraction; [rewrite length_skipn|]; lia. }
  assert (H4 : (length s4 <= length s3)%nat).
  { unfold s4, e1. destruct has_exponent; [|lia]. rewrite length_skipn.
    destruct (minus || plus); rewrite length_skipn; lia. }
  destruct (_ || _ || _) eqn:E; split; try discriminate.
  intros v rest [= _ <-].
  apply orb_false_iff in E as [E _]. apply orb_false_iff in E as [E _].
  apply Nat.eqb_neq in E. lia.
Qed.

(** With fuel for twice the length of the text the parser never runs out
    of it, and what it parses makes the text shorter. *)
Lemma parse_fuel (fuel : nat) :
  (forall s, (2 * length s + 1 <= fuel)%nat ->
     JSON.parse_value fuel s <> JSON.OutOfFuel
     /\ forall v rest, JSON.parse_value fuel s = JSON.Parsed v rest ->
                       (length rest < length s)%nat)
  /\ (forall s acc, (2 * length s + 2 <= fuel)%nat ->
        JSON.parse_elements fuel s acc <> JSON.OutOfFuel
        /\ forall v rest, JSON.parse_elements fuel s acc = JSON.Parsed v rest ->
                          (length rest < length s)%nat)
  /\ (forall s acc, (2 * length s + 2 <= fuel)%nat ->
        JSON.parse_members fuel s acc <> JSON.OutOfFuel
        /\ forall v rest, JSON.parse_members fuel s acc = JSON.Parsed v rest ->
                          (length rest < length s)%nat).
Proof.
  induction fuel as [|fuel (IHv & IHe & IHm)]; [repeat split; intros; lia|].
  split; [|split].
  - intros s Hlen. cbn [JSON.parse_value].
    pose proof (skip_ws_length s) as Hs.
    destruct (JSON.skip_ws s) as [|c t]; [split; discriminate|]. simpl in Hs.
    destruct (c =? 123).
    { pose proof (skip_ws_length t) as Ht.
      destruct (JSON.skip_ws t) as [|c' t']; [split; discriminate|]. simpl in Ht.
      destruct (c' =? 125).
      - split; [discriminate|]. intros v rest [= _ <-]. lia.
      - destruct (IHm t [] ltac:(lia)) as [A B]. split; [exact A|].
        intros v rest H. apply B in H. lia. }
    destruct (c =? 91).
    { pose proof (skip_ws_length t) as Ht.
      destruct (JSON.skip_ws t) as [|c' t']; [split; discriminate|]. simpl in Ht.
      destruct (c' =? 93).
      - split; [discriminate|]. intros v rest [= _ <-]. lia.
      - destruct (IHe t [] ltac:(lia)) as [A B]. split; [exact A|].
        intros v rest H. apply B in H. lia. }
    destruct (c =? 34).
    { destruct (JSON.parse_string t []) as [[str t']|] eqn:E; [|split; discriminate].
      apply (parse_string_shorter (length t)) in E; [|lia].
      split; [discriminate|]. intros v rest [= _ <-]. lia. }
    destruct (strip_prefix (js "true") (c :: t)) as [t'|] eqn:E1.
    { apply strip_prefix_Some in E1. apply (f_equal (@length N)) in E1.
      rewrite length_app in E1. simpl in E1.
      split; [discriminate|]. intros v rest [= _ <-]. lia. }
    destruct (strip_prefix (js "false") (c :: t)) as [t'|] eqn:E2.
    { apply strip_prefix_Some in E2. apply (f_equal (@length N)) in E2.
      rewrite length_app in E2. simpl in E2.
      split; [discriminate|]. intros v rest [= _ <-]. lia. }
    destruct (strip_prefix (js "null") (c :: t)) as [t'|] eqn:E3.
    { apply strip_prefix_Some in E3. apply (f_equal (@length N)) in E3.
      rewrite length_app in E3. simpl in E3.
      split; [discriminate|]. intros v rest [= _ <-]. lia. }
    destruct (parse_number_shorter (c :: t)) as [A B]. split; [exact A|].
    intros v rest H. apply B in H. simpl in *. lia.
  - intros s acc Hlen. cbn [JSON.parse_elements].
    destruct (IHv s ltac:(lia)) as [A B].
    destruct (JSON.parse_value fuel s) as [v t| |]; [|split; discriminate|contradiction].
    specialize (B v t eq_refl). pose proof (skip_ws_length t) as Ht.
    destruct (JSON.skip_ws t) as [|c t']; [split; discriminate|]. simpl in Ht.
    destruct (c =? 44).
    + destruct (IHe t' (v :: acc) ltac:(lia)) as [A' B']. split; [exact A'|].
      intros v' rest H. apply B' in H. lia.
    + destruct (c =? 93); split; try discriminate. intros v' rest [= _ <-]. lia.
  - intros s acc Hlen. cbn [JSON.parse_members].
    pose proof (skip_ws_length s) as Hs.
    destruct (JSON.skip_ws s) as [|q t]; [split; discriminate|]. simpl in Hs.
    destruct (q =? 34); [|split; discriminate].
    destruct (JSON.parse_string t []) as [[key t1]|] eqn:E; [|split; discriminate].
    apply (parse_string_shorter (length t)) in E; [|lia].
    pose proof (skip_ws_length t1) as Ht1.
    destruct (JSON.skip_ws t1) as [|colon t2]; [split; discriminate|]. simpl in Ht1.
    destruct (colon =? 58); [|split; discriminate].
    destruct (IHv t2 ltac:(lia)) as [A B].
    destruct (JSON.parse_value fuel t2) as [v t3| |]; [|split; discriminate|contradiction].
    specialize (B v t3 eq_refl). pose proof (skip_ws_length t3) as Ht3.
    destruct (JSON.skip_ws t3) as [|c t4]; [split; discriminate|]. simpl in Ht3.
    destruct (c =? 44).
    + destruct (IHm t4 (obj_set key v acc) ltac:(lia)) as [A' B']. split; [exact A'|].
      intros v' rest H. apply B' in H. lia.
    + destruct (c =? 125); split; try discriminate. intros v' rest [= _ <-]. lia.
Qed.

(** [JSON.parse] never fails for want of fuel. *)
Lemma parse_value_fuel (text : jsstring) :
  JSON.parse_value (2 * length text + 2) text <> JSON.OutOfFuel.
Proof. apply (parse_fuel (2 * length text + 2)). lia. Qed.

(** ** Reading rows back *)

(** C9, amended: reading a row never fails on the frequency map, and the
    map is empty when the text is not valid JSON or is valid JSON for
    something other than an object or an array (null, a boolean, a number
    or a string); an object or an array is returned as it was parsed,
    whatever its keys and values, so a valid encoding of a frequency map
    is read back as that map. *)
Theorem mapRowToRecord_frequency_map (row : StoredStringRow) :
  let raw := Row.character_frequency_map row in
  let read := Props.character_frequency_map (Rec.properties (mapRowToRecord row)) in
  (JSON.parse raw = None -> read = JObject [])
  /\ (forall v, JSON.parse raw = Some v ->
        match v with
        | JObject _ | JArray _ => read = v
        | _ => read = JObject []
        end)
  /\ (spec_valid_frequency_text raw = true ->
      exists members, JSON.parse raw = Some (JObject members)
                      /\ read = JObject members).
Proof.
  cbv zeta. cbn [mapRowToRecord Rec.properties Props.character_frequency_map].
  unfold parseFrequencyMap, spec_valid_frequency_text.
  destruct (JSON.parse (Row.character_frequency_map row)) as [v|].
  - repeat split; try discriminate.
    + intros v' [= <-]. destruct v; reflexivity.
    + destruct v; try discriminate. intros _. eauto.
  - repeat split; try discriminate.
Qed.

Lemma mapRowToRecord_frequency_map_witness :
  JSON.parse [110; 111; 116; 32; 106; 115; 111; 110] = None
  /\ Props.character_frequency_map
       (Rec.properties
          (mapRowToRecord
             (Row.mk [] [] 0 0 0 0 [110; 111; 116; 32; 106; 115; 111; 110] [])))
     = JObject [].
Proof.
  split; [reflexivity|].
  apply (mapRowToRecord_frequency_map
           (Row.mk [] [] 0 0 0 0 [110; 111; 116; 32; 106; 115; 111; 110] [])).
  reflexivity.
Defined.

(** C9 as stated fails: the text [{"ab":true}] is valid JSON but not a
    map from single-character strings to integer counts, and the record
    read back holds it as it is. *)
Lemma mapRowToRecord_frequency_map_counterexample :
  let raw := [123; 34; 97; 98; 34; 58; 116; 114; 117; 101; 125] in
  spec_valid_frequency_text raw = false
  /\ Props.character_frequency_map
       (Rec.properties (mapRowToRecord (Row.mk [] [] 0 0 0 0 raw [])))
     = JObject [(js "ab", JBool true)]
  /\ JObject [(js "ab", JBool true)] <> JObject [].
Proof. repeat split; [discriminate]. Qed.

(** ** The store *)

Lemma existing_row_iff (id value : jsstring) (l : list StoredStringRow) :
  existsb (fun r => jsstring_eqb (Row.id r) id || jsstring_eqb (Row.value r) value) l
  = true
  <-> exists r, In r l /\ (Row.id r = id \/ Row.value r = value).
Proof.
  rewrite existsb_exists. split; intros (r & Hin & H); exists r; (split; [exact Hin|]).
  - apply orb_true_iff in H. rewrite !jsstring_eqb_eq in H. exact H.
  - apply orb_true_iff. rewrite !jsstring_eqb_eq. exact H.
Qed.

Lemma find_existsb {A : Type} (f : A -> bool) (l : list A) :
  existsb f l = match List.find f l with Some _ => true | None => false end.
Proof.
  induction l as [|x l IH]; simpl; [reflexivity|]. destruct (f x); [reflexivity|exact IH].
Qed.

Lemma has_columns_subset (t : Table) :
  has_columns expected_columns t = true ->
  has_columns ["id"; "value"]%string t = true.
Proof.
  unfold has_columns, expected_columns. cbn [forallb]. intros H.
  apply andb_true_iff in H as [H1 H]. apply andb_true_iff in H as [H2 _].
  rewrite H1, H2. reflexivity.
Qed.

Section StoreFacts.

Context {U : Unicode}.

(** The record that a successful insert returns. *)
Local Abbreviation record_of value now :=
  {| Rec.id := Props.sha256_hash (computeStringProperties value);
     Rec.value := value;
     Rec.properties := computeStringProperties value;
     Rec.created_at := now |}.

Local Abbreviation taken value t :=
  (existsb (fun r => jsstring_eqb (Row.id r)
                       (Props.sha256_hash (computeStringProperties value))
                     || jsstring_eqb (Row.value r) value) (rows t)).

(** The three outcomes of [insert]. *)
Lemma insert_cases (value now : jsstring) (t : Table) :
  has_columns ["id"; "value"]%string t = true ->
  insert value now t =
  if taken value t then (JsonError 409, t)
  else if has_columns expected_columns t
       then (Json 201 (record_of value now),
             mkTable (columns t)
               (rows t ++ [row_of value (computeStringProperties value) now]))
       else (Thrown NoSuchColumn, t).
Proof.
  intros Hcols. unfold insert, check_existing, select_existing.
  rewrite Hcols, find_existsb.
  destruct (List.find _ (rows t)) as [r|] eqn:E; cbn [option_map]; [reflexivity|].
  unfold write_record, insert_row. cbn [Row.id Row.value row_of].
  destruct (has_columns expected_columns t); [|reflexivity].
  rewrite find_existsb, E. reflexivity.
Qed.

(** Every write keeps the rows pairwise different in id and in value. *)
Lemma insert_row_unique (row : StoredStringRow) (t t' : Table) :
  unique_rows (rows t) -> insert_row row t = inr t' -> unique_rows (rows t').
Proof.
  unfold insert_row. destruct (has_columns expected_columns t); [|discriminate].
  destruct (existsb _ (rows t)) eqn:E; [discriminate|].
  intros Hu [= <-]. cbn [rows]. intros i j r1 r2 H1 H2 Heq.
  assert (Hfresh : forall r, In r (rows t) ->
            Row.id r <> Row.id row /\ Row.value r <> Row.value row).
  { intros r Hr. split; intros Hc;
      (assert (existsb (fun r0 => jsstring_eqb (Row.id r0) (Row.id row)
                                  || jsstring_eqb (Row.value r0) (Row.value row))
                 (rows t) = true); [|congruence]);
      apply existing_row_iff; exists r; auto. }
  destruct (lookup_app_Some (rows t) [row] i r1) as [A1 _].
  destruct (lookup_app_Some (rows t) [row] j r2) as [A2 _].
  destruct (A1 H1) as [L1|[G1 L1]], (A2 H2) as [L2|[G2 L2]].
  - exact (Hu i j r1 r2 L1 L2 Heq).
  - apply list_lookup_singleton_Some in L2 as [_ <-].
    apply list_elem_of_lookup_2, list_elem_of_In, Hfresh in L1. intuition congruence.
  - apply list_lookup_singleton_Some in L1 as [_ <-].
    apply list_elem_of_lookup_2, list_elem_of_In, Hfresh in L2. intuition congruence.
  - apply list_lookup_singleton_Some in L1 as [E1 _].
    apply list_lookup_singleton_Some in L2 as [E2 _]. lia.
Qed.

Lemma post_step_unique (value now : jsstring) (phase : Phase) (t : Table) :
  unique_rows (rows t) -> unique_rows (rows (snd (post_step value now phase t))).
Proof.
  intros Hu. destruct phase; cbn [post_step].
  - destruct (check_existing value t); exact Hu.
  - unfold write_record.
    destruct (insert_row _ t) as [e|t'] eqn:E; [exact Hu|].
    exact (insert_row_unique _ _ _ Hu E).
  - exact Hu.
Qed.

(** Whatever the schedule, no two rows with the same id or the same value
    are stored. *)
Lemma run_unique (schedule : list nat) : forall reqs t,
  unique_rows (rows t) -> unique_rows (rows (snd (run schedule reqs t))).
Proof.
  induction schedule as [|i schedule IH]; intros reqs t Hu; [exact Hu|].
  cbn [run]. unfold run_one. destruct (reqs !! i) as [[[value now] phase]|].
  - pose proof (post_step_unique value now phase t Hu) as H.
    destruct (post_step value now phase t) as [phase' t']. apply IH, H.
  - apply IH, Hu.
Qed.

Lemma check_existing_cases (value : jsstring) (t : Table) :
  has_columns ["id"; "value"]%string t = true ->
  check_existing value t = if taken value t then Some (JsonError 409) else None.
Proof.
  intros Hcols. unfold check_existing, select_existing.
  rewrite Hcols, find_existsb. destruct (List.find _ (rows t)); reflexivity.
Qed.

(** Two requests for one value that both pass the pre-check: the first
    write stores the row, the second fails on the constraint and its
    handler throws. *)
Lemma race_loser_throws (value now1 now2 : jsstring) (t : Table) :
  has_columns expected_columns t = true ->
  taken value t = false ->
  run [0; 1; 0; 1]%nat [(value, now1, Start); (value, now2, Start)] t
  = ([(value, now1, Done (Json 201 (record_of value now1)));
      (value, now2, Done (Thrown ConstraintFailed))],
     mkTable (columns t)
       (rows t ++ [row_of value (computeStringProperties value) now1])).
Proof.
  intros Hcols Hfree. pose proof (has_columns_subset t Hcols) as Hsub.
  assert (S1 : forall now, post_step value now Start t = (Checked, t)).
  { intros now. cbn [post_step]. rewrite (check_existing_cases _ _ Hsub), Hfree.
    reflexivity. }
  assert (S2 : post_step value now1 Checked t
               = (Done (Json 201 (record_of value now1)),
                  mkTable (columns t)
                    (rows t ++ [row_of value (computeStringProperties value) now1]))).
  { cbn [post_step]. unfold write_record, insert_row. rewrite Hcols.
    cbn [row_of Row.id Row.value]. rewrite Hfree. reflexivity. }
  assert (S3 : post_step value now2 Checked
                 (mkTable (columns t)
                    (rows t ++ [row_of value (computeStringProperties value) now1]))
               = (Done (Thrown ConstraintFailed),
                  mkTable (columns t)
                    (rows t ++ [row_of value (computeStringProperties value) now1]))).
  { cbn [post_step]. unfold write_record, insert_row. cbn [columns rows].
    replace (has_columns expected_columns (mkTable (columns t) _)) with true
      by (symmetry; exact Hcols).
    rewrite existsb_app. cbn [existsb row_of Row.id Row.value].
    rewrite jsstring_eqb_refl, orb_true_r. reflexivity. }
  assert (R : forall i schedule reqs t0,
    run (i :: schedule) reqs t0
    = let (reqs', t') := run_one i reqs t0 in run schedule reqs' t') by reflexivity.
  rewrite R. unfold run_one at 1.
  change ([(value, now1, Start); (value, now2, Start)] !! 0%nat)
    with (Some (value, now1, Start)).
  cbv iota beta. rewrite S1.
  change (<[0%nat:=(value, now1, Checked)]> [(value, now1, Start); (value, now2, Start)])
    with [(value, now1, Checked); (value, now2, Start)].
  rewrite R. unfold run_one at 1.
  change ([(value, now1, Checked); (value, now2, Start)] !! 1%nat)
    with (Some (value, now2, Start)).
  cbv iota beta. rewrite S1.
  change (<[1%nat:=(value, now2, Checked)]> [(value, now1, Checked); (value, now2, Start)])
    with [(value, now1, Checked); (value, now2, Checked)].
  rewrite R. unfold run_one at 1.
  change ([(value, now1, Checked); (value, now2, Checked)] !! 0%nat)
    with (Some (value, now1, Checked)).
  cbv iota beta. rewrite S2.
  match goal with
  | |- context [<[0%nat:=?x]> [?a; ?b]] => change (<[0%nat:=x]> [a; b]) with [x; b]
  end.
  rewrite R. unfold run_one at 1.
  match goal with
  | |- context [[?a; ?b] !! 1%nat] => change ([a; b] !! 1%nat) with (Some b)
  end.
  cbv iota beta. rewrite S3. reflexivity.
Qed.

(** C4, at the failing schedule: two requests for the value "a" against
    the empty table both pass the pre-check, then both write.  The second
    write fails on the constraint, so one row is stored, but its handler
    throws ([Thrown ConstraintFailed], a response 500) where the claim
    promises the conflict response 409. *)
Theorem concurrent_insert_race :
  run [0; 1; 0; 1]%nat
    [(js "a", js "2025-10-20T10:00:00.000Z", Start);
     (js "a", js "2025-10-20T10:00:00.001Z", Start)]
    (mkTable expected_columns [])
  = ([(js "a", js "2025-10-20T10:00:00.000Z",
       Done (Json 201 (record_of (js "a") (js "2025-10-20T10:00:00.000Z"))));
      (js "a", js "2025-10-20T10:00:00.001Z", Done (Thrown ConstraintFailed))],
     mkTable expected_columns
       [row_of (js "a") (computeStringProperties (js "a"))
          (js "2025-10-20T10:00:00.000Z")])
  /\ run [0; 1; 0; 1]%nat
       [(js "a", js "2025-10-20T10:00:00.000Z", Start);
        (js "a", js "2025-10-20T10:00:00.001Z", Start)]
       (mkTable schema_sql_columns [])
     = ([(js "a", js "2025-10-20T10:00:00.000Z", Done (Thrown NoSuchColumn));
         (js "a", js "2025-10-20T10:00:00.001Z", Done (Thrown NoSuchColumn))],
        mkTable schema_sql_columns []).
Proof. split; vm_compute; reflexivity. Qed.

End StoreFacts.

(** The row written for a value with digits, a quote, a backslash, a
    control character, a surrogate pair and an unpaired surrogate is read
    back as the record that [insert] returned. *)
Lemma read_back_example :
  let value := js "a1 b0a" ++ [34; 92; 9; 1; 55357; 56832; 56832] in
  let now := js "2025-10-20T10:00:00.000Z" in
  let outcome := insert (U := basic_latin) value now (mkTable expected_columns []) in
  option_map (fun row => Json 201 (mapRowToRecord row)) (head (rows (snd outcome)))
  = Some (fst outcome).
Proof. vm_compute. reflexivity. Qed.

(** ** Listing *)

Section ListingFacts.

Context {U : Unicode}.

(** Without [contains_character], the conditions of the query select a
    stored row exactly when the in-memory pass keeps its record. *)
Lemma conditions_match_without_character (f : QueryFilters) (row : StoredStringRow) :
  Filters.contains_character f = None ->
  (Row.is_palindrome row = 0 \/ Row.is_palindrome row = 1)%Z ->
  forallb (fun c => holds c row) (conditions_of f) = spec_selected f row.
Proof.
  destruct f as [pal lo hi wc ch]. cbn [Filters.contains_character]. intros -> Hpal.
  unfold spec_selected, matches, conditions_of, differs.
  cbn [Filters.is_palindrome Filters.min_length Filters.max_length
       Filters.word_count Filters.contains_character mapRowToRecord
       Rec.properties Props.is_palindrome Props.length Props.word_count].
  rewrite app_nil_r.
  assert (P : forall flag : bool,
    (Row.is_palindrome row =? (if flag then 1 else 0))%Z
    = eqb (negb (Row.is_palindrome row =? 0)%Z) flag).
  { intros [|]; destruct Hpal as [-> | ->]; reflexivity. }
  destruct pal as [flag|], lo as [lo|], hi as [hi|], wc as [wc|];
    cbn [app forallb holds]; rewrite ?P;
    repeat match goal with
      | |- context [eqb ?a ?b] => destruct (eqb a b)
      | |- context [number_ltb ?a ?b] => destruct (number_ltb a b)
      | |- context [number_eqb ?a ?b] => destruct (number_eqb a b)
      end; reflexivity.
Qed.

Lemma pattern_compare_any (text : list N) : pattern_compare [37] text = true.
Proof.
  induction text as [|c text IH]; [reflexivity|].
  change (pattern_compare [37] (c :: text)) with (false || pattern_compare [37] text).
  exact IH.
Qed.

(** A pattern [%c%] whose character is no wildcard asks for a character
    of the text that equals it up to ASCII case. *)
Lemma pattern_compare_contains (c : N) (text : list N) :
  c <> 37 -> c <> 95 ->
  pattern_compare [37; c; 37] text
  = existsb (fun d => (if is_upper_AZ c then c + 32 else c)
                      =? (if is_upper_AZ d then d + 32 else d)) text.
Proof.
  intros H1 H2. apply N.eqb_neq in H1, H2.
  assert (E : forall t, pattern_compare [c; 37] t
                        = match t with
                          | [] => false
                          | d :: t' =>
                              (if is_upper_AZ c then c + 32 else c)
                              =? (if is_upper_AZ d then d + 32 else d)
                          end).
  { intros t. cbn [pattern_compare]. rewrite H1, H2. destruct t as [|d t']; [reflexivity|].
    fold (pattern_compare [37]). rewrite pattern_compare_any, andb_true_r. reflexivity. }
  induction text as [|d text IH].
  - change (pattern_compare [37; c; 37] []) with (pattern_compare [c; 37] [] || false).
    rewrite E. reflexivity.
  - change (pattern_compare [37; c; 37] (d :: text))
      with (pattern_compare [c; 37] (d :: text) || pattern_compare [37; c; 37] text).
    rewrite E, IH. reflexivity.
Qed.

Lemma includes_single (s : jsstring) (x : N) :
  includes s [x] = existsb (N.eqb x) s.
Proof.
  induction s as [|d s IH]; [reflexivity|].
  cbn [includes strip_prefix existsb]. destruct (x =? d); [reflexivity|exact IH].
Qed.

(** A text without U+0000 is read to its end. *)
Lemma c_string_whole (s : list N) : Forall (fun d => d <> 0) s -> c_string s = s.
Proof.
  unfold c_string. induction 1 as [|d s Hd _ IH]; [reflexivity|].
  cbn [take_while]. apply N.eqb_neq in Hd. rewrite Hd. cbn [negb]. rewrite IH.
  reflexivity.
Qed.

(** A U+0000 ends the pattern: the pattern built for the character
    U+0000 is read as [%] and selects every row. *)
Lemma like_pattern_ends_at_nul (before after text : list N) :
  Forall (fun d => d <> 0) before ->
  like (before ++ 0 :: after) text = like before text.
Proof.
  intros H. unfold like. f_equal. unfold c_string.
  induction H as [|d s Hd _ IH]; [reflexivity|].
  cbn [app take_while]. apply N.eqb_neq in Hd. rewrite Hd. cbn [negb]. rewrite IH.
  reflexivity.
Qed.

(** On ASCII values without U+0000 and an ASCII character that is
    neither a wildcard nor U+0000, the condition of the query and the
    in-memory test agree. *)
Lemma like_matches_includes_ascii (c : N) (row : StoredStringRow) :
  c <> 0 -> c < 128 -> c <> 37 -> c <> 95 ->
  Forall (fun d => d <> 0) (Row.value row) ->
  Forall (fun d => d < 128) (Row.value row) ->
  holds (lower_value_like ([37] ++ toLowerCase [c] ++ [37])) row
  = includes (toLowerCase (Row.value row)) (toLowerCase [c]).
Proof.
  intros H0 Hc H1 H2 Hz Hv. destruct row as [i value l p u w m t].
  cbn [Row.value] in *.
  assert (Hc' : Forall (fun d => d < 128) [c]) by (constructor; [exact Hc|constructor]).
  rewrite (toLowerCase_ascii [c] Hc'), (toLowerCase_ascii value Hv).
  cbn [holds Row.value List.map app].
  set (lc := if is_upper_AZ c then c + 32 else c).
  assert (Hlc : lc < 128 /\ lc <> 37 /\ lc <> 95 /\ is_upper_AZ lc = false /\ lc <> 0).
  { unfold lc. destruct (is_upper_AZ c) eqn:E.
    - unfold is_upper_AZ, in_range in *. bool_to_prop.
      repeat split; try lia. apply andb_false_iff. right. apply N.leb_gt. lia.
    - auto 6. }
  destruct Hlc as (L0 & L1 & L2 & L3 & L4).
  rewrite (codepoints_ascii [37; lc; 37])
    by (repeat constructor; try exact L0; lia).
  assert (Hs : Forall (fun d => d < 128) (sql_lower value))
    by (apply ascii_lower_below_128, Hv).
  assert (Hsz : Forall (fun d => d <> 0) (sql_lower value)).
  { unfold sql_lower. clear -Hz. induction Hz as [|d s Hd _ IH]; [constructor|].
    cbn [List.map]. constructor; [|exact IH]. destruct (is_upper_AZ d); lia. }
  rewrite (codepoints_ascii _ Hs). unfold like.
  rewrite (c_string_whole [37; lc; 37]) by (repeat constructor; [discriminate|exact L4|discriminate]).
  rewrite (c_string_whole _ Hsz).
  rewrite (pattern_compare_contains lc _ L1 L2), includes_single, L3.
  unfold sql_lower. clear Hs Hsz Hv Hz.
  induction value as [|d value IH]; [reflexivity|].
  cbn [List.map existsb]. rewrite IH. f_equal.
  destruct (is_upper_AZ d) eqn:Ed; [|rewrite Ed; reflexivity].
  replace (is_upper_AZ (d + 32)) with false; [reflexivity|].
  symmetry. unfold is_upper_AZ, in_range in *. bool_to_prop.
  apply andb_false_iff. right. apply N.leb_gt. lia.
Qed.

(** C1, at the failing input: the value "abc" is stored and is listed
    with [contains_character = "%"].  The query selects the row, because
    its pattern "%%%" matches every text, while [applyFilters] drops the
    record, whose value does not contain the character; "_" behaves the
    same way. *)
Theorem like_wildcards_select_every_row :
  let t := snd (insert (js "abc") (js "2025-10-20T10:00:00.000Z")
                  (mkTable expected_columns [])) in
  let percent := Filters.mk None None None None (Some (js "%")) in
  let underscore := Filters.mk None None None None (Some (js "_")) in
  length (rows t) = 1%nat
  /\ fetchRecords t percent = inr (List.map mapRowToRecord (rows t))
  /\ applyFilters (List.map mapRowToRecord (rows t)) percent = []
  /\ fetchRecords t underscore = inr (List.map mapRowToRecord (rows t))
  /\ applyFilters (List.map mapRowToRecord (rows t)) underscore = [].
Proof. cbv zeta. repeat split; vm_compute; reflexivity. Qed.

End ListingFacts.

(** * The routes together

    The routes with a path parameter, the text of the frequency map read
    back, the tables that the routes build, the order of a listing, and
    concurrent requests. *)

Ltac divmod_lia := zify; Z.to_euclidean_division_equations; lia.

Local Abbreviation record_of value now :=
  {| Rec.id := Props.sha256_hash (computeStringProperties value);
     Rec.value := value;
     Rec.properties := computeStringProperties value;
     Rec.created_at := now |}.

Local Abbreviation ascii_lower :=
  (List.map (fun c => if is_upper_AZ c then c + 32 else c)).

(** ** The text of the frequency map *)

Lemma hex_value_digit (d : N) : d < 16 -> JSON.hex_value (hex_digit d) = Some d.
Proof.
  intros H. unfold JSON.hex_value, hex_digit, is_digit, in_range.
  destruct (d <? 10) eqn:E.
  - apply N.ltb_lt in E.
    replace ((48 <=? 48 + d) && (48 + d <=? 57)) with true
      by (symmetry; apply andb_true_iff; split; apply N.leb_le; lia).
    f_equal. lia.
  - apply N.ltb_ge in E.
    replace ((48 <=? 87 + d) && (87 + d <=? 57)) with false
      by (symmetry; apply andb_false_iff; right; apply N.leb_gt; lia).
    replace ((97 <=? 87 + d) && (87 + d <=? 102)) with true
      by (symmetry; apply andb_true_iff; split; apply N.leb_le; lia).
    f_equal. lia.
Qed.

Lemma parse_string_hex4 (c : N) (t acc : jsstring) :
  c < 65536 ->
  JSON.parse_string ([92; 117] ++ JSON.hex4 c ++ t) acc
  = JSON.parse_string t (c :: acc).
Proof.
  intros H. unfold JSON.hex4. cbn [app JSON.parse_string].
  change (92 =? 34) with false. change (92 =? 92) with true.
  change (JSON.simple_escape 117) with (@None N). change (117 =? 117) with true.
  cbv iota.
  rewrite !hex_value_digit by divmod_lia.
  f_equal. f_equal. divmod_lia.
Qed.

Lemma parse_string_quote_unit (c : N) (t acc : jsstring) :
  JSON.parse_string (JSON.quote_char [c] ++ t) acc
  = JSON.parse_string t (c :: acc).
Proof.
  unfold JSON.quote_char.
  destruct (c =? 34) eqn:E1; [apply N.eqb_eq in E1; subst; reflexivity|].
  destruct (c =? 92) eqn:E2; [apply N.eqb_eq in E2; subst; reflexivity|].
  destruct (c =? 8) eqn:E3; [apply N.eqb_eq in E3; subst; reflexivity|].
  destruct (c =? 12) eqn:E4; [apply N.eqb_eq in E4; subst; reflexivity|].
  destruct (c =? 10) eqn:E5; [apply N.eqb_eq in E5; subst; reflexivity|].
  destruct (c =? 13) eqn:E6; [apply N.eqb_eq in E6; subst; reflexivity|].
  destruct (c =? 9) eqn:E7; [apply N.eqb_eq in E7; subst; reflexivity|].
  destruct ((c <? 32) || in_range 55296 57343 c) eqn:E8.
  - apply parse_string_hex4. apply orb_true_iff in E8 as [E8|E8].
    + apply N.ltb_lt in E8. lia.
    + unfold in_range in E8. apply andb_true_iff in E8 as [_ E8].
      apply N.leb_le in E8. lia.
  - apply orb_false_iff in E8 as [E8 _].
    cbn [app JSON.parse_string]. rewrite E1, E2, E8. reflexivity.
Qed.

Lemma parse_string_quote_pair (hi lo : N) (t acc : jsstring) :
  is_high_surrogate hi && is_low_surrogate lo = true ->
  JSON.parse_string (JSON.quote_char [hi; lo] ++ t) acc
  = JSON.parse_string t (lo :: hi :: acc).
Proof.
  intros H. apply andb_true_iff in H as [Hh Hl].
  unfold is_high_surrogate, is_low_surrogate, in_range in *.
  apply andb_true_iff in Hh as [Hh _]. apply andb_true_iff in Hl as [Hl _].
  apply N.leb_le in Hh, Hl.
  cbn [JSON.quote_char app JSON.parse_string].
  replace (hi =? 34) with false by (symmetry; apply N.eqb_neq; lia).
  replace (hi =? 92) with false by (symmetry; apply N.eqb_neq; lia).
  replace (hi <? 32) with false by (symmetry; apply N.ltb_ge; lia).
  replace (lo =? 34) with false by (symmetry; apply N.eqb_neq; lia).
  replace (lo =? 92) with false by (symmetry; apply N.eqb_neq; lia).
  replace (lo <? 32) with false by (symmetry; apply N.ltb_ge; lia).
  reflexivity.
Qed.

(** Reading a quoted string gives the string back. *)
Lemma parse_string_quote (k : jsstring) : forall t acc,
  JSON.parse_string (flat_map JSON.quote_char (Array_from k) ++ 34 :: t) acc
  = Some (rev acc ++ k, t).
Proof.
  induction k as [|c s Hc IH|hi lo s Hp IH] using string_iterator_ind; intros t acc.
  - cbn. rewrite app_nil_r. reflexivity.
  - rewrite (Array_from_unit _ _ Hc). cbn [flat_map]. rewrite <- app_assoc.
    rewrite parse_string_quote_unit, IH. cbn [rev]. rewrite <- app_assoc.
    reflexivity.
  - rewrite (Array_from_pair _ _ _ Hp). cbn [flat_map]. rewrite <- app_assoc.
    rewrite (parse_string_quote_pair _ _ _ _ Hp), IH. cbn [rev].
    rewrite <- !app_assoc. reflexivity.
Qed.

Local Abbreviation decimal_step := (fun acc d => (10 * acc + (Z.of_N d - 48))%Z).

Lemma digits_of_spec (fuel : nat) : forall n acc,
  n < 2 ^ N.of_nat fuel ->
  exists ds,
    JSON.digits_of fuel n acc = ds ++ acc
    /\ forallb is_digit ds = true
    /\ (forall a, fold_left decimal_step ds a
                  = (a * 10 ^ Z.of_nat (length ds) + Z.of_N n)%Z)
    /\ (0 < n -> exists d ds', ds = d :: ds' /\ d <> 48).
Proof.
  induction fuel as [|fuel IH]; intros n acc Hn.
  - exists []. cbn in *. repeat split; [|lia]. intros a. lia.
  - rewrite Nat2N.inj_succ, N.pow_succ_r' in Hn. cbn [JSON.digits_of].
    destruct (n <? 10) eqn:E.
    + apply N.ltb_lt in E. exists [48 + n]. repeat split.
      * cbn. unfold is_digit, in_range.
        rewrite andb_true_r. apply andb_true_iff; split; apply N.leb_le; lia.
      * intros a. cbn. lia.
      * intros H. exists (48 + n), []. split; [reflexivity|lia].
    + apply N.ltb_ge in E.
      assert (Hq : n / 10 < 2 ^ N.of_nat fuel).
      { generalize dependent (2 ^ N.of_nat fuel). intros P HP. divmod_lia. }
      destruct (IH (n / 10) ((48 + n mod 10) :: acc) Hq) as (ds & E1 & E2 & E3 & E4).
      exists (ds ++ [48 + n mod 10]). repeat split.
      * rewrite E1, <- app_assoc. reflexivity.
      * rewrite forallb_app, E2. cbn. unfold is_digit, in_range.
        rewrite andb_true_r. apply andb_true_iff; split; apply N.leb_le; divmod_lia.
      * intros a. rewrite fold_left_app, E3, length_app. cbn [fold_left length].
        rewrite Nat.add_1_r, Nat2Z.inj_succ, Z.pow_succ_r by lia.
        generalize (10 ^ Z.of_nat (length ds))%Z. intros X.
        assert (Z.of_N n = 10 * Z.of_N (n / 10) + Z.of_N (n mod 10))%Z by divmod_lia.
        assert (Z.of_N (48 + n mod 10) - 48 = Z.of_N (n mod 10))%Z by lia.
        lia.
      * intros _. destruct E4 as (d & ds' & -> & Hd); [divmod_lia|].
        exists d, (ds' ++ [48 + n mod 10]). split; [reflexivity|exact Hd].
Qed.

(** The decimal notation of a positive integer: digits, the first of
    which is not a zero, whose value is the integer. *)
Lemma integer_to_string_spec (z : Z) :
  (0 < z)%Z ->
  exists d ds,
    JSON.integer_to_string z = d :: ds
    /\ forallb is_digit (d :: ds) = true
    /\ d <> 48
    /\ decimal (d :: ds) = z.
Proof.
  intros Hz. unfold JSON.integer_to_string.
  replace (z <? 0)%Z with false by (symmetry; apply Z.ltb_ge; lia).
  cbn [app].
  assert (Hn : 0 < Z.abs_N z) by lia.
  destruct (digits_of_spec (S (N.to_nat (N.log2 (Z.abs_N z)))) (Z.abs_N z) [])
    as (ds & E1 & E2 & E3 & E4).
  { rewrite Nat2N.inj_succ, N2Nat.id. apply N.log2_spec, Hn. }
  destruct (E4 Hn) as (d & ds' & -> & Hd).
  exists d, ds'. rewrite E1, app_nil_r. repeat split; [exact E2|exact Hd|].
  unfold decimal. rewrite E3. lia.
Qed.

Lemma take_while_app (p : N -> bool) (ds : jsstring) (c : N) (rest : jsstring) :
  forallb p ds = true -> p c = false -> take_while p (ds ++ c :: rest) = ds.
Proof.
  intros H Hc. induction ds as [|d ds IH]; cbn in *; [rewrite Hc; reflexivity|].
  apply andb_true_iff in H as [-> H]. rewrite IH by exact H. reflexivity.
Qed.

Lemma parse_number_integer (z : Z) (c : N) (rest : jsstring) :
  (0 < z)%Z -> c = 44 \/ c = 125 ->
  JSON.parse_number (JSON.integer_to_string z ++ c :: rest)
  = JSON.Parsed (JNumber z 0) (c :: rest).
Proof.
  intros Hz Hc.
  destruct (integer_to_string_spec z Hz) as (d & ds & -> & Hdig & Hd & Hval).
  assert (Hd' : is_digit d = true) by (cbn in Hdig; apply andb_true_iff in Hdig; tauto).
  unfold is_digit, in_range in Hd'. apply andb_true_iff in Hd' as [L1 L2].
  apply N.leb_le in L1, L2.
  assert (T : take_while is_digit ((d :: ds) ++ c :: rest) = d :: ds).
  { apply take_while_app; [exact Hdig|]. destruct Hc as [-> | ->]; reflexivity. }
  unfold JSON.parse_number.
  cbn [app] in *. cbv zeta.
  replace (d =? 45) with false by (symmetry; apply N.eqb_neq; lia).
  replace (d =? 48) with false by (symmetry; apply N.eqb_neq; lia).
  rewrite T.
  replace (skipn (length (d :: ds)) (d :: ds ++ c :: rest)) with (c :: rest)
    by (symmetry; apply (drop_app_length (d :: ds))).
  replace (c =? 46) with false by (destruct Hc as [-> | ->]; reflexivity).
  replace (c =? 101) with false by (destruct Hc as [-> | ->]; reflexivity).
  replace (c =? 69) with false by (destruct Hc as [-> | ->]; reflexivity).
  cbn [orb andb length Nat.eqb]. rewrite app_nil_r, Hval.
  f_equal.
Qed.

Lemma parse_value_integer (fuel : nat) (z : Z) (c : N) (rest : jsstring) :
  (0 < z)%Z -> c = 44 \/ c = 125 ->
  JSON.parse_value (S fuel) (JSON.integer_to_string z ++ c :: rest)
  = JSON.Parsed (JNumber z 0) (c :: rest).
Proof.
  intros Hz Hc. rewrite <- (parse_number_integer z c rest Hz Hc).
  destruct (integer_to_string_spec z Hz) as (d & ds & -> & Hdig & Hd & Hval).
  assert (Hd' : is_digit d = true) by (cbn in Hdig; apply andb_true_iff in Hdig; tauto).
  unfold is_digit, in_range in Hd'. apply andb_true_iff in Hd' as [L1 L2].
  apply N.leb_le in L1, L2.
  cbn [JSON.parse_value app JSON.skip_ws drop_while].
  replace (JSON.is_json_space d) with false.
  2:{ symmetry. unfold JSON.is_json_space.
      repeat (apply orb_false_iff; split); apply N.eqb_neq; lia. }
  replace (d =? 123) with false by (symmetry; apply N.eqb_neq; lia).
  replace (d =? 91) with false by (symmetry; apply N.eqb_neq; lia).
  replace (d =? 34) with false by (symmetry; apply N.eqb_neq; lia).
  change (js "true") with [116; 114; 117; 101].
  change (js "false") with [102; 97; 108; 115; 101].
  change (js "null") with [110; 117; 108; 108].
  cbn [strip_prefix].
  replace (116 =? d) with false by (symmetry; apply N.eqb_neq; lia).
  replace (102 =? d) with false by (symmetry; apply N.eqb_neq; lia).
  replace (110 =? d) with false by (symmetry; apply N.eqb_neq; lia).
  reflexivity.
Qed.

(** One member of the text of an object. *)
Local Abbreviation member :=
  (fun kv : jsstring * Z =>
     JSON.quote (fst kv) ++ [58] ++ JSON.integer_to_string (snd kv)).

Local Abbreviation store :=
  (fun (acc : list (jsstring * JValue)) (kv : jsstring * Z) =>
     obj_set (fst kv) (JNumber (snd kv) 0) acc).

Lemma parse_members_join (o : list (jsstring * Z)) :
  forall fuel acc rest,
    o <> [] -> (length o < fuel)%nat -> Forall (fun kv => 0 < snd kv)%Z o ->
    JSON.parse_members fuel (JSON.join [44] (List.map member o) ++ 125 :: rest) acc
    = JSON.Parsed (JObject (fold_left store o acc)) rest.
Proof.
  induction o as [|[k v] o IH]; intros fuel acc rest Hne Hfuel Hpos; [congruence|].
  destruct fuel as [|fuel]; [cbn in Hfuel; lia|].
  destruct fuel as [|fuel]; [cbn in Hfuel; lia|].
  inversion Hpos as [|? ? Hv Hpos']; subst. cbn [fst snd] in Hv.
  assert (Step : forall c tail,
    c = 44 \/ c = 125 ->
    JSON.parse_members (S (S fuel))
      (JSON.quote k ++ 58 :: JSON.integer_to_string v ++ c :: tail) acc
    = if c =? 44 then JSON.parse_members (S fuel) tail (obj_set k (JNumber v 0) acc)
      else JSON.Parsed (JObject (obj_set k (JNumber v 0) acc)) tail).
  { intros c tail Hc. unfold JSON.quote. cbn [app JSON.parse_members JSON.skip_ws drop_while].
    change (JSON.is_json_space 34) with false. cbv iota. change (34 =? 34) with true.
    cbv iota. rewrite <- app_assoc. cbn [app].
    rewrite parse_string_quote. cbn [rev app JSON.skip_ws drop_while].
    change (JSON.is_json_space 58) with false. cbv iota. change (58 =? 58) with true.
    cbv iota. rewrite (parse_value_integer fuel v c tail Hv Hc).
    cbn [JSON.skip_ws drop_while].
    destruct Hc as [-> | ->]; reflexivity. }
  destruct o as [|kv' o'].
  - cbn [List.map JSON.join fold_left fst snd]. rewrite <- !app_assoc. cbn [app].
    rewrite (Step 125 rest) by auto. reflexivity.
  - change (JSON.join [44] (List.map member ((k, v) :: kv' :: o')))
      with (member (k, v) ++ [44] ++ JSON.join [44] (List.map member (kv' :: o'))).
    cbn [fst snd fold_left]. rewrite <- !app_assoc. cbn [app].
    rewrite (Step 44 _) by auto. change (44 =? 44) with true. cbv iota.
    apply IH; [discriminate|cbn in *; lia|exact Hpos'].
Qed.

Lemma length_join_members (o : list (jsstring * Z)) :
  (length o <= length (JSON.join [44%N] (List.map member o)))%nat.
Proof.
  induction o as [|kv o IH]; [cbn; lia|].
  destruct o as [|kv' o'].
  - cbn [List.map JSON.join]. unfold JSON.quote. cbn. lia.
  - change (JSON.join [44] (List.map member (kv :: kv' :: o')))
      with (member kv ++ [44] ++ JSON.join [44] (List.map member (kv' :: o'))).
    rewrite !length_app. cbn [length] in *. lia.
Qed.

(** Reading the text of an object stores its members one by one. *)
Lemma parse_stringify (o : list (jsstring * Z)) :
  Forall (fun kv => 0 < snd kv)%Z o ->
  JSON.parse (JSON.stringify o) = Some (JObject (fold_left store o [])).
Proof.
  intros Hpos. destruct o as [|kv o']; [reflexivity|].
  remember (kv :: o') as o eqn:Eo.
  unfold JSON.parse, JSON.stringify.
  set (members := JSON.join [44] (List.map member o)).
  set (text := [123] ++ members ++ [125]).
  assert (Hlen : (length o < 2 * length text + 1)%nat).
  { unfold text. rewrite !length_app. pose proof (length_join_members o).
    cbn [length]. fold members in H. lia. }
  replace (2 * length text + 2)%nat with (S (2 * length text + 1)) by lia.
  generalize dependent (2 * length text + 1)%nat.
  intros fuel Hlen. unfold text.
  change ([123] ++ members ++ [125]) with (123 :: (members ++ [125])).
  cbn [JSON.parse_value JSON.skip_ws drop_while].
  change (JSON.is_json_space 123) with false. cbv iota. change (123 =? 123) with true.
  cbv iota.
  assert (Hs : exists t, members ++ [125] = 34 :: t).
  { unfold members. rewrite Eo. destruct o' as [|kv' o'']; cbn [List.map JSON.join fst];
      unfold JSON.quote; cbn [app]; eauto. }
  destruct Hs as [t Hs].
  assert (Hw : JSON.skip_ws (members ++ [125]) = 34 :: t)
    by (rewrite Hs; reflexivity).
  rewrite Hw. change (34 =? 125) with false. cbv iota. unfold members.
  rewrite parse_members_join; [reflexivity| |exact Hlen|exact Hpos].
  rewrite Eo. discriminate.
Qed.

(** ** Property order *)

Lemma decimal_snoc (ds : jsstring) (d : N) :
  decimal (ds ++ [d]) = (10 * decimal ds + (Z.of_N d - 48))%Z.
Proof. unfold decimal. rewrite fold_left_app. reflexivity. Qed.

(** A run of digits without a leading zero. *)
Local Abbreviation numeral ds :=
  (forallb is_digit ds = true /\ hd 49 ds <> 48).

Lemma is_digit_bounds (d : N) : is_digit d = true -> 48 <= d <= 57.
Proof.
  unfold is_digit, in_range. intros H. apply andb_true_iff in H as [H1 H2].
  apply N.leb_le in H1, H2. lia.
Qed.

Lemma numeral_snoc (ds : jsstring) (d : N) :
  numeral (ds ++ [d]) -> numeral ds /\ 48 <= d <= 57 /\ (ds = [] -> d <> 48).
Proof.
  intros [H1 H2]. rewrite forallb_app in H1. apply andb_true_iff in H1 as [H1 H3].
  cbn in H3. rewrite andb_true_r in H3. apply is_digit_bounds in H3.
  destruct ds as [|c ds]; cbn in *; repeat split; auto; try lia; congruence.
Qed.

Lemma decimal_positive (ds : jsstring) :
  numeral ds -> ds <> [] -> (0 < decimal ds)%Z.
Proof.
  induction ds as [|d ds IH] using rev_ind; [congruence|].
  intros H _. apply numeral_snoc in H as (H & Hd & H0).
  rewrite decimal_snoc. destruct ds as [|c ds'].
  - cbn. specialize (H0 eq_refl). lia.
  - assert (0 < decimal (c :: ds'))%Z by (apply IH; [exact H|discriminate]). lia.
Qed.

Lemma decimal_inj (a : jsstring) : forall b,
  numeral a -> numeral b -> decimal a = decimal b -> a = b.
Proof.
  induction a as [|x a IH] using rev_ind; intros b Ha Hb E.
  - destruct b as [|y b]; [reflexivity|].
    assert (0 < decimal (y :: b))%Z by (apply decimal_positive; [exact Hb|discriminate]).
    cbn in E. unfold decimal in *. cbn in *. lia.
  - destruct b as [|y b _] using rev_ind.
    + assert (0 < decimal (a ++ [x]))%Z.
      { apply decimal_positive; [exact Ha|]. destruct a; discriminate. }
      change (decimal []) with 0%Z in E. lia.
    + rewrite !decimal_snoc in E.
      apply numeral_snoc in Ha as (Ha & Hx & _). apply numeral_snoc in Hb as (Hb & Hy & _).
      assert (decimal a = decimal b) by lia.
      assert (x = y) by lia. subst y. f_equal. apply IH; assumption.
Qed.

Lemma array_index_numeral (k : jsstring) (i : Z) :
  array_index k = Some i ->
  decimal k = i /\ (k = [48] \/ (numeral k /\ k <> [])).
Proof.
  unfold array_index. destruct k as [|c rest]; [discriminate|].
  destruct (((c =? 48) && (length rest =? 0)%nat)
            || (in_range 49 57 c && forallb is_digit rest)) eqn:E; [|discriminate].
  destruct (decimal (c :: rest) <? 4294967295)%Z; [|discriminate].
  intros [= <-]. split; [reflexivity|].
  apply orb_true_iff in E as [E|E]; apply andb_true_iff in E as [E1 E2].
  - left. apply N.eqb_eq in E1. apply Nat.eqb_eq in E2.
    destruct rest; [subst; reflexivity|discriminate].
  - right. unfold in_range in E1. apply andb_true_iff in E1 as [L1 L2].
    apply N.leb_le in L1, L2. repeat split; [|cbn; lia|discriminate].
    cbn [forallb]. rewrite E2, andb_true_r. unfold is_digit, in_range.
    apply andb_true_iff; split; apply N.leb_le; lia.
Qed.

(** Two keys that are the same array index are the same key. *)
Lemma array_index_inj (k k' : jsstring) (i : Z) :
  array_index k = Some i -> array_index k' = Some i -> k = k'.
Proof.
  intros H H'. apply array_index_numeral in H as [E H], H' as [E' H'].
  destruct H as [-> | [H Hne]], H' as [-> | [H' Hne']].
  - reflexivity.
  - pose proof (decimal_positive k' H' Hne'). cbn in E. lia.
  - pose proof (decimal_positive k H Hne). cbn in E'. lia.
  - apply decimal_inj; [exact H|exact H'|congruence].
Qed.

Lemma jsstring_eqb_sym (a b : jsstring) : jsstring_eqb a b = jsstring_eqb b a.
Proof.
  destruct (jsstring_eqb a b) eqn:E1, (jsstring_eqb b a) eqn:E2; try reflexivity.
  - apply jsstring_eqb_eq in E1. subst. rewrite jsstring_eqb_refl in E2. discriminate.
  - apply jsstring_eqb_eq in E2. subst. rewrite jsstring_eqb_refl in E1. discriminate.
Qed.

Lemma may_follow_differs (k k' : jsstring) :
  may_follow k k' = true -> jsstring_eqb k' k = false.
Proof.
  unfold may_follow. intros H. apply andb_true_iff in H as [H _].
  rewrite jsstring_eqb_sym. apply negb_true_iff, H.
Qed.

Lemma property_order_app (l1 l2 : list jsstring) :
  property_order (l1 ++ l2)
  = property_order l1 && property_order l2
    && forallb (fun a => forallb (may_follow a) l2) l1.
Proof.
  induction l1 as [|a l1 IH]; cbn [app property_order forallb].
  - rewrite andb_true_r. reflexivity.
  - rewrite forallb_app, IH.
    destruct (forallb (may_follow a) l1), (forallb (may_follow a) l2),
      (property_order l1), (property_order l2); reflexivity.
Qed.

Section OrderFacts.

Context {V : Type}.
Implicit Types (o : list (jsstring * V)) (k : jsstring) (v : V).

Lemma keys_replace k v o : List.map fst (obj_replace k v o) = List.map fst o.
Proof.
  induction o as [|[k' v'] o IH]; [reflexivity|]. cbn [obj_replace].
  destruct (jsstring_eqb k k'); cbn [List.map fst]; [reflexivity|].
  rewrite IH. reflexivity.
Qed.

Lemma obj_get_None k o :
  obj_get k o = None
  <-> forallb (fun k' => negb (jsstring_eqb k k')) (List.map fst o) = true.
Proof.
  induction o as [|[k' v'] o IH]; cbn [obj_get List.map forallb fst]; [tauto|].
  destruct (jsstring_eqb k k'); cbn [negb andb]; [split; discriminate|exact IH].
Qed.

Lemma forallb_keys_insert (P : jsstring -> bool) i k v o :
  forallb P (List.map fst (obj_insert_index i k v o))
  = P k && forallb P (List.map fst o).
Proof.
  induction o as [|[k' v'] o IH]; [reflexivity|]. cbn [obj_insert_index].
  destruct (array_index k') as [j|]; [|reflexivity].
  destruct (j <? i)%Z; [|reflexivity].
  cbn [List.map forallb fst]. rewrite IH.
  destruct (P k), (P k'); reflexivity.
Qed.

Lemma order_insert_index i k v o :
  array_index k = Some i -> obj_get k o = None ->
  property_order (List.map fst o) = true ->
  property_order (List.map fst (obj_insert_index i k v o)) = true.
Proof.
  intros Hi. induction o as [|[k' v'] o IH]; intros Hk Ho; [reflexivity|].
  cbn [obj_get] in Hk. destruct (jsstring_eqb k k') eqn:Ekk; [discriminate|].
  cbn [List.map fst property_order] in Ho. apply andb_true_iff in Ho as [Hf Ho].
  assert (Later : forallb (may_follow k) (List.map fst o)
                  = forallb (fun k'' => match array_index k'' with
                                        | Some j'' => (i <? j'')%Z
                                        | None => true
                                        end) (List.map fst o)).
  { apply obj_get_None in Hk. revert Hk. clear -Hi.
    induction (List.map fst o) as [|k'' l IHl]; intros Hk; [reflexivity|].
    cbn [forallb] in *. apply andb_true_iff in Hk as [Hk1 Hk].
    rewrite (IHl Hk). f_equal. unfold may_follow. rewrite Hk1, Hi. reflexivity. }
  cbn [obj_insert_index].
  destruct (array_index k') as [j|] eqn:Ej.
  - destruct (j <? i)%Z eqn:Eji.
    + cbn [List.map fst property_order]. rewrite forallb_keys_insert, Hf.
      rewrite (IH Hk Ho), !andb_true_r.
      unfold may_follow. rewrite jsstring_eqb_sym, Ekk, Ej, Hi. exact Eji.
    + cbn [List.map fst property_order forallb]. rewrite Hf, Ho, !andb_true_r.
      assert (Hij : (i < j)%Z).
      { apply Z.ltb_ge in Eji. destruct (Z.eq_dec i j) as [<-|]; [|lia].
        rewrite (array_index_inj _ _ _ Hi Ej), jsstring_eqb_refl in Ekk.
        discriminate. }
      apply andb_true_iff; split.
      * unfold may_follow. rewrite Ekk, Hi, Ej. apply Z.ltb_lt, Hij.
      * rewrite Later. rewrite forallb_forall in Hf |- *. intros k'' Hin.
        specialize (Hf k'' Hin). unfold may_follow in Hf. rewrite Ej in Hf.
        apply andb_true_iff in Hf as [_ Hf].
        destruct (array_index k''); [|reflexivity]. apply Z.ltb_lt in Hf.
        apply Z.ltb_lt. lia.
  - cbn [List.map fst property_order forallb]. rewrite Hf, Ho, !andb_true_r.
    apply andb_true_iff; split.
    + unfold may_follow. rewrite Ekk, Hi, Ej. reflexivity.
    + rewrite Later. rewrite forallb_forall in Hf |- *. intros k'' Hin.
      specialize (Hf k'' Hin). unfold may_follow in Hf. rewrite Ej in Hf.
      apply andb_true_iff in Hf as [_ Hf].
      destruct (array_index k''); [discriminate|reflexivity].
Qed.

Lemma order_append k v o :
  array_index k = None -> obj_get k o = None ->
  property_order (List.map fst o) = true ->
  property_order (List.map fst (o ++ [(k, v)])) = true.
Proof.
  intros Hi Hk Ho. rewrite List.map_app, property_order_app, Ho.
  cbn [List.map fst property_order forallb andb].
  apply obj_get_None in Hk. revert Hk. clear -Hi.
  induction (List.map fst o) as [|k' l IH]; [reflexivity|].
  cbn [forallb]. intros Hk. apply andb_true_iff in Hk as [Hk1 Hk].
  rewrite (IH Hk), !andb_true_r. unfold may_follow.
  rewrite jsstring_eqb_sym, Hk1, Hi. destruct (array_index k'); reflexivity.
Qed.

(** An assignment keeps the keys different and the array indices first,
    in ascending order. *)
Lemma order_set k v o :
  property_order (List.map fst o) = true ->
  property_order (List.map fst (obj_set k v o)) = true.
Proof.
  intros Ho. unfold obj_set. destruct (obj_get k o) eqn:Ek.
  - rewrite keys_replace. exact Ho.
  - destruct (array_index k) as [i|] eqn:Ei.
    + apply order_insert_index; assumption.
    + apply order_append; assumption.
Qed.

Lemma obj_get_In k v o :
  property_order (List.map fst o) = true -> In (k, v) o -> obj_get k o = Some v.
Proof.
  induction o as [|[k' v'] o IH]; intros Ho Hin; [destruct Hin|].
  cbn [List.map fst property_order] in Ho. apply andb_true_iff in Ho as [Hf Ho].
  cbn [obj_get]. destruct Hin as [[= -> ->]|Hin].
  - rewrite jsstring_eqb_refl. reflexivity.
  - rewrite forallb_forall in Hf.
    rewrite (may_follow_differs k' k); [exact (IH Ho Hin)|].
    apply Hf. apply (in_map fst) in Hin. exact Hin.
Qed.

(** Assigning to a key that may follow every key of the object appends
    the property. *)
Lemma obj_set_append k v o :
  forallb (fun k' => may_follow k' k) (List.map fst o) = true ->
  obj_set k v o = o ++ [(k, v)].
Proof.
  intros H. unfold obj_set.
  assert (Hk : obj_get k o = None).
  { apply obj_get_None. rewrite forallb_forall in H |- *. intros k' Hin.
    rewrite (may_follow_differs k' k); [reflexivity|exact (H k' Hin)]. }
  rewrite Hk. destruct (array_index k) as [i|] eqn:Ei; [|reflexivity].
  clear Hk. induction o as [|[k' v'] o IH]; [reflexivity|].
  cbn [List.map fst forallb] in H. apply andb_true_iff in H as [H1 H].
  cbn [obj_insert_index]. unfold may_follow in H1. rewrite Ei in H1.
  apply andb_true_iff in H1 as [_ H1].
  destruct (array_index k') as [j|]; [|discriminate]. rewrite H1, (IH H).
  reflexivity.
Qed.

End OrderFacts.

(** Storing the members of an object in property order, one by one,
    builds the object again. *)
Lemma store_in_order {A B : Type} (g : A -> B) (o : list (jsstring * A)) :
  forall acc : list (jsstring * B),
    property_order (List.map fst acc ++ List.map fst o) = true ->
    fold_left (fun acc kv => obj_set (fst kv) (g (snd kv)) acc) o acc
    = acc ++ List.map (fun kv => (fst kv, g (snd kv))) o.
Proof.
  induction o as [|[k v] o IH]; intros acc H; cbn [fold_left List.map fst snd].
  - rewrite app_nil_r. reflexivity.
  - assert (Hk : forallb (fun k' => may_follow k' k) (List.map fst acc) = true).
    { rewrite property_order_app in H. apply andb_true_iff in H as [_ H].
      rewrite forallb_forall in H |- *. intros k' Hin. specialize (H k' Hin).
      cbn [List.map fst forallb] in H. apply andb_true_iff in H as [H _]. exact H. }
    rewrite (obj_set_append _ _ _ Hk), IH.
    + rewrite <- app_assoc. reflexivity.
    + rewrite List.map_app, <- app_assoc. exact H.
Qed.

Lemma frequency_map_order (value : jsstring) :
  property_order (List.map fst (buildCharacterFrequencyMap value)) = true.
Proof.
  unfold buildCharacterFrequencyMap.
  assert (H : forall l (acc : list (jsstring * Z)),
    property_order (List.map fst acc) = true ->
    property_order
      (List.map fst
         (fold_left
            (fun frequency char =>
               obj_set char (default 0%Z (obj_get char frequency) + 1)%Z frequency)
            l acc)) = true).
  { induction l as [|c l IH]; intros acc Hacc; [exact Hacc|].
    cbn [fold_left]. apply IH, order_set, Hacc. }
  apply H. reflexivity.
Qed.

Lemma frequency_map_positive (value : jsstring) :
  Forall (fun kv => 0 < snd kv)%Z (buildCharacterFrequencyMap value).
Proof.
  apply List.Forall_forall. intros [k v] Hin. cbn [snd].
  pose proof (obj_get_In k v _ (frequency_map_order value) Hin) as H.
  rewrite frequency_lookup in H.
  destruct (Z.of_nat (length (List.filter (jsstring_eqb k) (Array_from value))) =? 0)%Z
    eqn:E; [discriminate|].
  apply Z.eqb_neq in E. injection H as <-. lia.
Qed.

(** The text written for the frequency map of a value is the JSON text
    of that map. *)
Lemma parse_frequency_text (value : jsstring) :
  JSON.parse (JSON.stringify (buildCharacterFrequencyMap value))
  = Some (frequency_object (buildCharacterFrequencyMap value)).
Proof.
  rewrite (parse_stringify _ (frequency_map_positive value)).
  rewrite (store_in_order (fun n => JNumber n 0) _ []); [reflexivity|].
  exact (frequency_map_order value).
Qed.

(** The text written for the frequency map of a value is read back as
    that map. *)
Lemma parseFrequencyMap_stringify (value : jsstring) :
  parseFrequencyMap (JSON.stringify (buildCharacterFrequencyMap value))
  = frequency_object (buildCharacterFrequencyMap value).
Proof. unfold parseFrequencyMap. rewrite parse_frequency_text. reflexivity. Qed.

(** ** Reading and deleting one value *)

Lemma decode_plain (s : jsstring) : forall fuel,
  (length s <= fuel)%nat -> ~ In 37 s -> URI.decode fuel s = Some s.
Proof.
  induction s as [|c s IH]; intros fuel Hf Hs; destruct fuel as [|fuel];
    try reflexivity; [cbn in Hf; lia|].
  cbn [URI.decode].
  replace (c =? 37) with false
    by (symmetry; apply N.eqb_neq; intros ->; apply Hs; left; reflexivity).
  rewrite IH; [reflexivity|cbn in Hf; lia|].
  intros H. apply Hs. right. exact H.
Qed.

Lemma has_columns_In (names : list string) (name : string) (t : Table) :
  has_columns names t = true -> In name names -> has_columns [name] t = true.
Proof.
  unfold has_columns. intros H Hin. cbn [forallb]. rewrite andb_true_r.
  rewrite forallb_forall in H. exact (H name Hin).
Qed.

Lemma filter_all {A : Type} (p : A -> bool) (l : list A) :
  existsb (fun x => negb (p x)) l = false -> List.filter p l = l.
Proof.
  induction l as [|x l IH]; [reflexivity|]. cbn [existsb List.filter].
  intros H. apply orb_false_iff in H as [H1 H]. apply negb_false_iff in H1.
  rewrite H1, (IH H). reflexivity.
Qed.

Lemma filter_none_length {A : Type} (p : A -> bool) (l : list A) :
  (length (List.filter p l) =? 0)%nat = negb (existsb p l).
Proof.
  induction l as [|x l IH]; [reflexivity|]. cbn [existsb List.filter].
  destruct (p x); [reflexivity|exact IH].
Qed.

Lemma existsb_filter_out {A : Type} (p : A -> bool) (l : list A) :
  existsb p (List.filter (fun x => negb (p x)) l) = false.
Proof.
  induction l as [|x l IH]; [reflexivity|]. cbn [List.filter].
  destruct (p x) eqn:E; cbn [negb]; [exact IH|].
  cbn [existsb]. rewrite E, IH. reflexivity.
Qed.

Lemma find_filter_out {A : Type} (p : A -> bool) (l : list A) :
  List.find p (List.filter (fun x => negb (p x)) l) = None.
Proof.
  pose proof (existsb_filter_out p l) as H. rewrite find_existsb in H.
  destruct (List.find p _); [discriminate|reflexivity].
Qed.

Lemma find_snoc {A : Type} (p : A -> bool) (l : list A) (x : A) :
  existsb p l = false -> p x = true -> List.find p (l ++ [x]) = Some x.
Proof.
  induction l as [|y l IH]; cbn [existsb app List.find]; intros H Hx.
  - rewrite Hx. reflexivity.
  - apply orb_false_iff in H as [-> H]. exact (IH H Hx).
Qed.

Lemma unique_rows_cons (r : StoredStringRow) (l : list StoredStringRow) :
  unique_rows (r :: l)
  <-> (forall r', In r' l -> Row.id r <> Row.id r' /\ Row.value r <> Row.value r')
      /\ unique_rows l.
Proof.
  split.
  - intros Hu. split.
    + intros r' Hin. apply list_elem_of_In, list_elem_of_lookup_1 in Hin as [j Hj].
      split; intros E; discriminate (Hu 0%nat (S j) r r' eq_refl Hj); auto.
    + intros i j r1 r2 H1 H2 E.
      pose proof (Hu (S i) (S j) r1 r2 H1 H2 E). lia.
  - intros [Hr Hu] i j r1 r2 H1 H2 E.
    destruct i as [|i], j as [|j]; cbn in H1, H2.
    + reflexivity.
    + injection H1 as <-.
      apply list_elem_of_lookup_2, list_elem_of_In, Hr in H2. intuition congruence.
    + injection H2 as <-.
      apply list_elem_of_lookup_2, list_elem_of_In, Hr in H1. intuition congruence.
    + f_equal. exact (Hu i j r1 r2 H1 H2 E).
Qed.

Lemma unique_rows_filter (p : StoredStringRow -> bool) (l : list StoredStringRow) :
  unique_rows l -> unique_rows (List.filter p l).
Proof.
  induction l as [|r l IH]; intros Hu; [exact Hu|].
  apply unique_rows_cons in Hu as [Hr Hu]. cbn [List.filter].
  destruct (p r); [|exact (IH Hu)].
  apply unique_rows_cons. split; [|exact (IH Hu)].
  intros r' Hin. apply filter_In in Hin as [Hin _]. exact (Hr r' Hin).
Qed.

Section RoundTrip.

Context {U : Unicode}.

Lemma mapRowToRecord_row_of (value now : jsstring) :
  mapRowToRecord (row_of value (computeStringProperties value) now)
  = record_of value now.
Proof.
  unfold mapRowToRecord, row_of.
  cbn [Row.id Row.value Row.length Row.is_palindrome Row.unique_characters
       Row.word_count Row.character_frequency_map Row.created_at].
  f_equal. rewrite parseFrequencyMap_stringify.
  unfold computeStringProperties.
  cbn [Props.length Props.is_palindrome Props.unique_characters Props.word_count
       Props.sha256_hash Props.character_frequency_map].
  f_equal. destruct ((0 <? length (normalizeForPalindrome value))%nat
                     && jsstring_eqb (normalizeForPalindrome value)
                          (rev (normalizeForPalindrome value))); reflexivity.
Qed.

(** X1: the text written for the frequency map of a value is read back
    as that map, and the row that POST /strings writes for a value is
    read back, by [mapRowToRecord], as the record that the request
    returned: the stored columns lose nothing. *)
Theorem row_read_back (value now : jsstring) :
  parseFrequencyMap (JSON.stringify (buildCharacterFrequencyMap value))
  = Props.character_frequency_map (computeStringProperties value)
  /\ mapRowToRecord (row_of value (computeStringProperties value) now)
     = record_of value now.
Proof.
  split; [apply parseFrequencyMap_stringify|apply mapRowToRecord_row_of].
Qed.

(** C3: [insert] fails with the conflict status 409 exactly when a row
    with the same id or the same value is in the table, and then leaves
    the table as it is; when it answers with a record, the record is
    [{id, value, properties, created_at}], and the table afterwards is
    the table before with one more row, which holds the record: its
    columns are the id, the value, the properties and the time of the
    record, the text of its frequency map is the JSON text of the map of
    the record, and the row is read back as the record; against the
    table the route expects, a value that is not yet stored is inserted,
    and inserting it a second time is a conflict. *)
Theorem insert_conflict_iff (value now : jsstring) (t : Table) :
  has_columns ["id"; "value"]%string t = true ->
  (fst (insert value now t) = JsonError 409
   <-> exists r, In r (rows t)
                 /\ (Row.id r = Props.sha256_hash (computeStringProperties value)
                     \/ Row.value r = value))
  /\ (fst (insert value now t) = JsonError 409 -> snd (insert value now t) = t)
  /\ (forall status record,
        fst (insert value now t) = Json status record ->
        status = 201%Z
        /\ record = record_of value now
        /\ In (row_of value (computeStringProperties value) now)
             (rows (snd (insert value now t)))
        /\ exists row,
             rows (snd (insert value now t)) = rows t ++ [row]
             /\ columns (snd (insert value now t)) = columns t
             /\ Row.id row = Rec.id record
             /\ Row.value row = Rec.value record
             /\ Row.length row = Props.length (Rec.properties record)
             /\ Row.is_palindrome row
                = (if Props.is_palindrome (Rec.properties record) then 1 else 0)%Z
             /\ Row.unique_characters row
                = Props.unique_characters (Rec.properties record)
             /\ Row.word_count row = Props.word_count (Rec.properties record)
             /\ JSON.parse (Row.character_frequency_map row)
                = Some (Props.character_frequency_map (Rec.properties record))
             /\ Row.created_at row = Rec.created_at record
             /\ mapRowToRecord row = record)
  /\ (has_columns expected_columns t = true ->
      existsb (fun r => jsstring_eqb (Row.id r)
                          (Props.sha256_hash (computeStringProperties value))
                        || jsstring_eqb (Row.value r) value) (rows t) = false ->
      fst (insert value now t) = Json 201 (record_of value now)
      /\ forall later,
           fst (insert value later (snd (insert value now t))) = JsonError 409).
Proof.
  intros Hcols. rewrite (insert_cases _ _ _ Hcols).
  rewrite <- existing_row_iff.
  destruct (existsb _ (rows t)) eqn:Et.
  - repeat split; try discriminate; auto.
  - destruct (has_columns expected_columns t) eqn:Ee; cbn [fst snd].
    + split; [split; discriminate|]. split; [discriminate|]. split.
      * intros status record [= <- <-]. split; [reflexivity|]. split; [reflexivity|].
        split; [cbn [rows]; apply in_or_app; right; left; reflexivity|].
        exists (row_of value (computeStringProperties value) now).
        cbn [rows columns Rec.id Rec.value Rec.properties Rec.created_at].
        split; [reflexivity|]. split; [reflexivity|].
        split; [reflexivity|]. split; [reflexivity|].
        split; [reflexivity|]. split; [reflexivity|].
        split; [reflexivity|]. split; [reflexivity|].
        split; [exact (parse_frequency_text value)|].
        split; [reflexivity|]. apply mapRowToRecord_row_of.
      * intros _ _. split; [reflexivity|].
        intros later. rewrite insert_cases by exact Hcols. cbn [rows].
        rewrite existsb_app. cbn [existsb row_of Row.id Row.value].
        rewrite jsstring_eqb_refl, orb_true_r. reflexivity.
    + repeat split; discriminate.
Qed.

(** What a successful POST did to the table. *)
Lemma createString_created (value now : jsstring) (t t' : Table)
  (status : Z) (record : StoredStringRecord) :
  createString value now t = (Json status record, t') ->
  (0 < length (trim value))%nat
  /\ has_columns expected_columns t = true
  /\ existsb (fun r => jsstring_eqb (Row.id r)
                         (Props.sha256_hash (computeStringProperties value))
                       || jsstring_eqb (Row.value r) value) (rows t) = false
  /\ status = 201%Z
  /\ record = record_of value now
  /\ t' = mkTable (columns t)
            (rows t ++ [row_of value (computeStringProperties value) now]).
Proof.
  unfold createString. destruct (0 <? length (trim value))%nat eqn:Eb; [|discriminate].
  apply Nat.ltb_lt in Eb. unfold insert, check_existing, select_existing.
  destruct (has_columns ["id"; "value"]%string t); [|discriminate].
  destruct (List.find _ (rows t)) eqn:Ef; cbn [option_map]; [discriminate|].
  unfold write_record, insert_row. cbn [row_of Row.id Row.value].
  destruct (has_columns expected_columns t); [|discriminate].
  rewrite find_existsb, Ef. intros [= <- <- <-]. auto 10.
Qed.

(** The outcomes of the handler of the two DELETE routes. *)
Lemma delete_route_cases (column : string) (key : StoredStringRow -> jsstring)
  (param text : jsstring) (t : Table) :
  has_columns [column] t = true -> param <> [] ->
  decodeURIComponent param = Some text ->
  delete_route column key param t
  = if existsb (fun r => jsstring_eqb (key r) text) (rows t)
    then (NoContent204,
          mkTable (columns t)
            (List.filter (fun r => negb (jsstring_eqb (key r) text)) (rows t)))
    else (NotFound404, t).
Proof.
  intros Hc Hp Hd. unfold delete_route, delete_where. rewrite Hd, Hc.
  destruct param as [|c param]; [congruence|]. cbn [length Nat.eqb].
  rewrite filter_none_length.
  destruct (existsb _ (rows t)) eqn:E; cbn [negb]; [reflexivity|].
  rewrite filter_all.
  - destruct t; reflexivity.
  - rewrite <- E. clear. induction (rows t) as [|r l IH]; [reflexivity|].
    cbn [existsb]. rewrite negb_involutive, IH. reflexivity.
Qed.

End RoundTrip.

Lemma insert_conflict_iff_witness :
  has_columns ["id"; "value"]%string (mkTable expected_columns []) = true
  /\ fst (insert (U := basic_latin) (js "listen") (js "2025-10-20T10:00:00.000Z")
            (mkTable expected_columns []))
     = Json 201
         {| Rec.id :=
              Props.sha256_hash (computeStringProperties (U := basic_latin) (js "listen"));
            Rec.value := js "listen";
            Rec.properties := computeStringProperties (U := basic_latin) (js "listen");
            Rec.created_at := js "2025-10-20T10:00:00.000Z" |}.
Proof.
  split; [reflexivity|].
  destruct (insert_conflict_iff (U := basic_latin) (js "listen")
              (js "2025-10-20T10:00:00.000Z") (mkTable expected_columns [])
              eq_refl) as (_ & _ & _ & H).
  exact (proj1 (H eq_refl eq_refl)).
Defined.

(** ** The digest *)

Lemma length_round (st : list N) (kw : N * N) :
  length (SHA256.round st kw) = length st.
Proof.
  unfold SHA256.round.
  do 9 (destruct st as [|? st]; try reflexivity).
Qed.

Lemma length_compress (h block : list N) :
  length (SHA256.compress h block) = length h.
Proof.
  unfold SHA256.compress. rewrite length_map, length_combine.
  assert (H : forall l st, length (fold_left SHA256.round l st) = length st).
  { induction l as [|kw l IH]; intros st; [reflexivity|].
    cbn [fold_left]. rewrite IH. apply length_round. }
  rewrite H. lia.
Qed.

Lemma length_blocks (fuel : nat) : forall h bytes,
  length (SHA256.blocks fuel h bytes) = length h.
Proof.
  induction fuel as [|fuel IH]; intros h bytes; [reflexivity|].
  cbn [SHA256.blocks]. destruct bytes; [reflexivity|].
  rewrite IH. apply length_compress.
Qed.

Lemma be_bytes_spec (count : nat) (x : N) :
  length (SHA256.be_bytes count x) = count
  /\ Forall (fun b => b < 256) (SHA256.be_bytes count x).
Proof.
  unfold SHA256.be_bytes. split.
  - rewrite length_map, length_rev, length_seq. reflexivity.
  - apply List.Forall_forall. intros b Hb. apply in_map_iff in Hb as (i & <- & _).
    apply N.mod_lt. discriminate.
Qed.

Lemma digest_spec (msg : list N) :
  length (SHA256.digest msg) = 32%nat
  /\ Forall (fun b => b < 256) (SHA256.digest msg).
Proof.
  unfold SHA256.digest.
  pose proof (length_blocks (length (SHA256.pad msg)) SHA256.H0 (SHA256.pad msg)) as H.
  change (length SHA256.H0) with 8%nat in H.
  generalize dependent (SHA256.blocks (length (SHA256.pad msg)) SHA256.H0 (SHA256.pad msg)).
  intros l Hl. split.
  - do 9 (destruct l as [|? l]; try discriminate). reflexivity.
  - apply List.Forall_forall. intros b Hb. apply in_flat_map in Hb as (x & _ & Hb).
    pose proof (proj2 (be_bytes_spec 4 x)) as H. rewrite List.Forall_forall in H.
    exact (H b Hb).
Qed.

Lemma toHex_spec (buffer : list N) :
  Forall (fun b => b < 256) buffer ->
  length (toHex buffer) = (2 * length buffer)%nat
  /\ Forall (fun c => is_digit c || in_range 97 102 c = true) (toHex buffer).
Proof.
  induction 1 as [|b buffer Hb _ [IH1 IH2]]; [split; [reflexivity|constructor]|].
  assert (D : forall d, d < 16 -> is_digit (hex_digit d) || in_range 97 102 (hex_digit d) = true).
  { intros d Hd. unfold hex_digit, is_digit, in_range.
    destruct (d <? 10) eqn:E; [apply N.ltb_lt in E|apply N.ltb_ge in E];
      apply orb_true_iff; [left|right]; apply andb_true_iff; split; apply N.leb_le; lia. }
  split.
  - cbn [toHex flat_map app length] in *. unfold toHex in IH1. rewrite IH1. lia.
  - cbn [toHex flat_map app]. constructor; [|constructor; [|exact IH2]]; apply D.
    + zify; Z.to_euclidean_division_equations; lia.
    + zify; Z.to_euclidean_division_equations; lia.
Qed.

Lemma existsb_or_false {A : Type} (p q : A -> bool) (l : list A) :
  existsb (fun x => p x || q x) l = false ->
  existsb p l = false /\ existsb q l = false.
Proof.
  induction l as [|x l IH]; [auto|]. cbn [existsb]. intros H.
  apply orb_false_iff in H as [H1 H]. apply orb_false_iff in H1 as [-> ->].
  destruct (IH H) as [-> ->]. auto.
Qed.

Lemma decodeURIComponent_nil_inv (param : jsstring) (text : jsstring) :
  decodeURIComponent param = Some text -> text <> [] -> param <> [].
Proof. intros H Ht ->. cbn in H. congruence. Qed.

Lemma trim_nonempty (value : jsstring) :
  (0 < length (trim value))%nat -> value <> [].
Proof. intros H ->. cbn in H. lia. Qed.

Section RouteFacts.

Context {U : Unicode}.

Lemma sha256_hash_plain (value : jsstring) :
  Props.sha256_hash (computeStringProperties value) <> []
  /\ decodeURIComponent (Props.sha256_hash (computeStringProperties value))
     = Some (Props.sha256_hash (computeStringProperties value)).
Proof.
  cbn [computeStringProperties Props.sha256_hash].
  destruct (digest_spec (encode value)) as [L B].
  destruct (toHex_spec _ B) as [L' D]. rewrite L in L'. split.
  - intros E. rewrite E in L'. discriminate.
  - apply decode_plain; [reflexivity|]. intros Hin.
    rewrite List.Forall_forall in D. specialize (D 37 Hin). discriminate.
Qed.

(** X2: a value that POST /strings stored is found by GET /strings/:value
    under every parameter that decodes to the value, and the record
    returned is the one that POST returned. *)
Theorem create_then_get (param value now : jsstring) (t t' : Table)
  (status : Z) (record : StoredStringRecord) :
  createString value now t = (Json status record, t') ->
  decodeURIComponent param = Some value ->
  getByValue param t' = Answered (Json 200 record).
Proof.
  intros Hc Hd.
  destruct (createString_created _ _ _ _ _ _ Hc) as (Hb & Hcols & Hfree & _ & -> & ->).
  pose proof (decodeURIComponent_nil_inv _ _ Hd (trim_nonempty _ Hb)) as Hp.
  unfold getByValue, select_by_value. rewrite Hd.
  destruct param as [|c param]; [congruence|]. cbn [length Nat.eqb rows].
  change (has_columns expected_columns (mkTable (columns t) ?r))
    with (has_columns expected_columns t). rewrite Hcols.
  apply existsb_or_false in Hfree as [_ Hfree].
  rewrite (find_snoc _ _ _ Hfree) by (cbn; apply jsstring_eqb_refl).
  rewrite mapRowToRecord_row_of. reflexivity.
Qed.

(** X3: DELETE /strings/by-value/:value answers 204 exactly when a row
    holds the decoded value and 404 otherwise; it removes the rows with
    that value and no other row, and a request that answers 404 leaves
    the table as it was. *)
Theorem deleteByValue_outcome (param value : jsstring) (t : Table) :
  has_columns ["value"]%string t = true ->
  param <> [] ->
  decodeURIComponent param = Some value ->
  let response := fst (deleteByValue param t) in
  let t' := snd (deleteByValue param t) in
  (response = NoContent204 <-> exists r, In r (rows t) /\ Row.value r = value)
  /\ (response = NotFound404 <-> ~ exists r, In r (rows t) /\ Row.value r = value)
  /\ columns t' = columns t
  /\ (forall r, In r (rows t') <-> In r (rows t) /\ Row.value r <> value)
  /\ (response = NotFound404 -> t' = t).
Proof.
  intros Hc Hp Hd. cbv zeta. unfold deleteByValue.
  rewrite (delete_route_cases _ _ _ _ _ Hc Hp Hd).
  assert (Hex : existsb (fun r => jsstring_eqb (Row.value r) value) (rows t) = true
                <-> exists r, In r (rows t) /\ Row.value r = value).
  { rewrite existsb_exists. split; intros (r & Hin & H); exists r; split; auto;
      apply jsstring_eqb_eq; exact H. }
  destruct (existsb _ (rows t)) eqn:E; cbn [fst snd columns rows].
  - split; [tauto|]. split; [split; [discriminate|intros H; destruct H; tauto]|].
    split; [reflexivity|]. split; [|discriminate].
    intros r. rewrite filter_In, negb_true_iff.
    split; intros [Hin H]; (split; [exact Hin|]).
    + intros Hv. apply jsstring_eqb_eq in Hv. congruence.
    + destruct (jsstring_eqb (Row.value r) value) eqn:Ev; [|reflexivity].
      apply jsstring_eqb_eq in Ev. contradiction.
  - assert (Hno : ~ exists r, In r (rows t) /\ Row.value r = value)
      by (intros H; apply Hex in H; discriminate).
    split; [split; [discriminate|intros H; contradiction]|].
    split; [tauto|]. split; [reflexivity|]. split; [|reflexivity].
    intros r. split; [|tauto]. intros Hin. split; [exact Hin|].
    intros Hv. apply Hno. exists r. auto.
Qed.

(** After a DELETE by value on the table the routes expect, with a
    parameter that decodes, the value is gone. *)
Lemma deleted_value_not_found (param value : jsstring) (t : Table) :
  has_columns expected_columns t = true ->
  param <> [] ->
  decodeURIComponent param = Some value ->
  let t' := snd (deleteByValue param t) in
  getByValue param t' = Answered (JsonError 404)
  /\ deleteByValue param t' = (NotFound404, t').
Proof.
  intros Hc Hp Hd. cbv zeta.
  assert (Hv : has_columns ["value"]%string t = true).
  { apply (has_columns_In _ _ _ Hc). cbn. auto. }
  assert (Ht' : exists l, snd (deleteByValue param t) = mkTable (columns t) l
                  /\ existsb (fun r => jsstring_eqb (Row.value r) value) l = false).
  { unfold deleteByValue. rewrite (delete_route_cases _ _ _ _ _ Hv Hp Hd).
    destruct (existsb _ (rows t)) eqn:E; cbn [snd].
    - eexists. split; [reflexivity|]. apply existsb_filter_out.
    - exists (rows t). split; [destruct t; reflexivity|exact E]. }
  destruct Ht' as (l & -> & Hl). split.
  - unfold getByValue, select_by_value. rewrite Hd.
    destruct param as [|c param]; [congruence|]. cbn [length Nat.eqb rows].
    change (has_columns expected_columns (mkTable (columns t) l))
      with (has_columns expected_columns t). rewrite Hc.
    rewrite find_existsb in Hl. destruct (List.find _ l); [discriminate|reflexivity].
  - unfold deleteByValue.
    rewrite (delete_route_cases "value" Row.value param value
               (mkTable (columns t) l) Hv Hp Hd).
    cbn [rows]. rewrite Hl. reflexivity.
Qed.

Lemma filter_out_twice {A : Type} (p : A -> bool) (l : list A) :
  List.filter (fun x => negb (p x)) (List.filter (fun x => negb (p x)) l)
  = List.filter (fun x => negb (p x)) l.
Proof.
  induction l as [|x l IH]; [reflexivity|]. cbn [List.filter].
  destruct (p x) eqn:E; cbn [negb List.filter]; [exact IH|].
  rewrite E. cbn [negb]. rewrite IH. reflexivity.
Qed.

Lemma snd_if {A B : Type} (c : bool) (a b : A) (x : B) :
  snd (if c then (a, x) else (b, x)) = x.
Proof. destruct c; reflexivity. Qed.

(** X4: after DELETE /strings/by-value/:value, whatever it answered and
    whatever the table and the parameter are, the same parameter finds
    nothing: GET /strings/:value does not answer with a record, and a
    second DELETE does not answer 204 and leaves the table alone.  When
    the table has the columns the routes expect and the parameter is not
    empty and decodes, both answer 404. *)
Theorem delete_then_get (param : jsstring) (t : Table) :
  let t' := snd (deleteByValue param t) in
  (forall status record, getByValue param t' <> Answered (Json status record))
  /\ fst (deleteByValue param t') <> NoContent204
  /\ snd (deleteByValue param t') = t'
  /\ (forall value,
        has_columns expected_columns t = true ->
        param <> [] ->
        decodeURIComponent param = Some value ->
        getByValue param t' = Answered (JsonError 404)
        /\ deleteByValue param t' = (NotFound404, t')).
Proof.
  cbv zeta. split; [|split; [|split]];
    [| | |intros value Hc Hp Hd; exact (deleted_value_not_found param value t Hc Hp Hd)].
  all: unfold deleteByValue, delete_route, getByValue.
  all: destruct param as [|c param]; [cbn [length Nat.eqb fst snd]; try discriminate;
                                      try reflexivity|].
  all: cbn [length Nat.eqb].
  all: destruct (decodeURIComponent (c :: param)) as [value|] eqn:Hd;
    [|cbn [fst snd]; rewrite ?Hd; cbn [fst snd]; try discriminate; try reflexivity].
  all: unfold delete_where; destruct (has_columns ["value"]%string t) eqn:Hv.
  - (* the statement ran: no row with the value is left *)
    intros status record. rewrite snd_if.
    unfold select_by_value. destruct (has_columns expected_columns _); [|discriminate].
    cbn [rows]. rewrite find_filter_out. discriminate.
  - (* the statement failed: the SELECT fails as well *)
    intros status record. cbn [snd]. unfold select_by_value.
    destruct (has_columns expected_columns t) eqn:He; [|discriminate].
    rewrite (has_columns_In expected_columns "value"%string t He) in Hv
      by (cbn; auto). discriminate.
  - rewrite snd_if.
    change (has_columns ["value"]%string (mkTable (columns t) ?l))
      with (has_columns ["value"]%string t). rewrite Hv. cbn [rows].
    rewrite filter_none_length, existsb_filter_out. cbn [negb fst]. discriminate.
  - cbn [snd fst]. rewrite Hv. cbn [fst]. discriminate.
  - rewrite snd_if.
    change (has_columns ["value"]%string (mkTable (columns t) ?l))
      with (has_columns ["value"]%string t). rewrite Hv. cbn [rows columns].
    rewrite filter_none_length, existsb_filter_out. cbn [negb snd].
    rewrite filter_out_twice. reflexivity.
  - cbn [snd fst]. rewrite Hv. reflexivity.
Qed.

(** X5: deleting what POST /strings has just stored, by its value or by
    its id, answers 204 and gives back the table as it was before the
    POST. *)
Theorem create_then_delete (param value now : jsstring) (t t' : Table)
  (status : Z) (record : StoredStringRecord) :
  createString value now t = (Json status record, t') ->
  decodeURIComponent param = Some value ->
  deleteByValue param t' = (NoContent204, t)
  /\ deleteById (Rec.id record) t' = (NoContent204, t).
Proof.
  intros Hc Hd.
  destruct (createString_created _ _ _ _ _ _ Hc) as (Hb & Hcols & Hfree & _ & -> & ->).
  pose proof (decodeURIComponent_nil_inv _ _ Hd (trim_nonempty _ Hb)) as Hp.
  apply existsb_or_false in Hfree as [Hid Hval].
  destruct (sha256_hash_plain value) as [Hne Hplain].
  assert (Hback : forall key text,
    existsb (fun r => jsstring_eqb (key r) text) (rows t) = false ->
    key (row_of value (computeStringProperties value) now) = text ->
    (if existsb (fun r => jsstring_eqb (key r) text)
          (rows t ++ [row_of value (computeStringProperties value) now])
     then (NoContent204,
           mkTable (columns t)
             (List.filter (fun r => negb (jsstring_eqb (key r) text))
                (rows t ++ [row_of value (computeStringProperties value) now])))
     else (NotFound404,
           mkTable (columns t)
             (rows t ++ [row_of value (computeStringProperties value) now])))
    = (NoContent204, t)).
  { intros key text Hk Hrow. rewrite existsb_app, Hk. cbn [existsb orb].
    rewrite Hrow, jsstring_eqb_refl. cbn [orb]. f_equal.
    rewrite List.filter_app. cbn [List.filter]. rewrite Hrow, jsstring_eqb_refl.
    cbn [negb]. rewrite app_nil_r, filter_all.
    - destruct t; reflexivity.
    - rewrite <- Hk. clear. induction (rows t) as [|r l IH]; [reflexivity|].
      cbn [existsb]. rewrite negb_involutive, IH. reflexivity. }
  split.
  - unfold deleteByValue. rewrite (delete_route_cases _ _ _ value).
    + cbn [columns rows]. apply Hback; [exact Hval|reflexivity].
    + apply (has_columns_In expected_columns); [exact Hcols|cbn; auto].
    + exact Hp.
    + exact Hd.
  - cbn [Rec.id]. unfold deleteById.
    rewrite (delete_route_cases _ _ _ (Props.sha256_hash (computeStringProperties value))).
    + cbn [columns rows]. apply Hback; [exact Hid|reflexivity].
    + apply (has_columns_In expected_columns); [exact Hcols|cbn; auto].
    + exact Hne.
    + exact Hplain.
Qed.

End RouteFacts.

(** ** The tables that the routes build *)

Section ReachableFacts.

Context {U : Unicode}.

(** What the requests keep true of the table. *)
Local Abbreviation kept t :=
  (columns t = expected_columns
   /\ unique_rows (rows t)
   /\ Forall written_row (rows t)).

Lemma createString_kept (value now : jsstring) (t : Table) :
  kept t -> kept (snd (createString value now t)).
Proof.
  intros (Hc & Hu & Hw). unfold createString.
  destruct (0 <? length (trim value))%nat eqn:Eb; [|auto].
  apply Nat.ltb_lt in Eb. unfold insert.
  destruct (check_existing value t); [auto|].
  unfold write_record.
  destruct (insert_row _ t) as [e|t'] eqn:Ei; [auto|]. cbn [snd].
  split; [|split].
  - unfold insert_row in Ei. destruct (has_columns expected_columns t); [|discriminate].
    destruct (existsb _ (rows t)); [discriminate|]. injection Ei as <-. exact Hc.
  - exact (insert_row_unique _ _ _ Hu Ei).
  - unfold insert_row in Ei. destruct (has_columns expected_columns t); [|discriminate].
    destruct (existsb _ (rows t)); [discriminate|]. injection Ei as <-. cbn [rows].
    apply Forall_app. split; [exact Hw|]. constructor; [|constructor].
    split; [exact Eb|reflexivity].
Qed.

Lemma delete_route_kept (column : string) (key : StoredStringRow -> jsstring)
  (param : jsstring) (t : Table) :
  kept t -> kept (snd (delete_route column key param t)).
Proof.
  intros (Hc & Hu & Hw). unfold delete_route.
  destruct (length param =? 0)%nat; [auto|].
  destruct (decodeURIComponent param) as [text|]; [|auto].
  unfold delete_where. destruct (has_columns [column] t); [|auto].
  assert (K : kept (mkTable (columns t)
                      (List.filter (fun r => negb (jsstring_eqb (key r) text)) (rows t)))).
  { cbn [columns rows]. split; [exact Hc|]. split; [apply unique_rows_filter, Hu|].
    apply List.Forall_forall. intros r Hin. apply filter_In in Hin as [Hin _].
    rewrite List.Forall_forall in Hw. exact (Hw r Hin). }
  destruct (length _ =? 0)%nat; exact K.
Qed.

Lemma table_after_kept (ops : list Operation) : kept (table_after ops).
Proof.
  unfold table_after.
  assert (H : forall t, kept t -> kept (fold_left apply_operation ops t)).
  { induction ops as [|op ops IH]; intros t Ht; [exact Ht|].
    cbn [fold_left]. apply IH. destruct op; cbn [apply_operation].
    - apply createString_kept, Ht.
    - apply delete_route_kept, Ht.
    - apply delete_route_kept, Ht. }
  apply H. cbn [columns rows]. split; [reflexivity|]. split; [|constructor].
  intros i j r1 r2 H1. discriminate.
Qed.

(** X6: whatever requests were served (POST /strings and the two DELETE
    routes, each run to its end), the table has the columns the routes
    expect, no two rows share an id or a value, and every row is the row
    of its own value: its value is not blank and its id and its other
    columns are the ones computed from that value. *)
Theorem table_after_invariant (ops : list Operation) :
  columns (table_after ops) = expected_columns
  /\ unique_rows (rows (table_after ops))
  /\ (forall r, In r (rows (table_after ops)) ->
        (0 < length (trim (Row.value r)))%nat
        /\ r = row_of (Row.value r) (computeStringProperties (Row.value r))
                 (Row.created_at r)).
Proof.
  destruct (table_after_kept ops) as (Hc & Hu & Hw).
  split; [exact Hc|]. split; [exact Hu|].
  rewrite List.Forall_forall in Hw. exact Hw.
Qed.

(** X7: a record that GET /strings/:value returns from a table built by
    the routes carries the decoded value, the id that is the digest of
    that value, and exactly the properties computed from it. *)
Theorem get_returns_computed (ops : list Operation) (param : jsstring)
  (status : Z) (record : StoredStringRecord) :
  getByValue param (table_after ops) = Answered (Json status record) ->
  status = 200%Z
  /\ decodeURIComponent param = Some (Rec.value record)
  /\ record = record_of (Rec.value record) (Rec.created_at record).
Proof.
  destruct (table_after_kept ops) as (Hc & _ & Hw).
  unfold getByValue, select_by_value.
  destruct (length param =? 0)%nat; [discriminate|].
  destruct (decodeURIComponent param) as [text|]; [|discriminate].
  destruct (has_columns expected_columns (table_after ops)); [|discriminate].
  destruct (List.find _ (rows (table_after ops))) as [row|] eqn:Ef; [|discriminate].
  apply find_some in Ef as [Hin Hv]. apply jsstring_eqb_eq in Hv.
  rewrite List.Forall_forall in Hw. destruct (Hw row Hin) as [_ Hrow].
  intros [= <- <-]. split; [reflexivity|].
  cbn [mapRowToRecord Rec.value Rec.created_at]. rewrite Hv. split; [reflexivity|].
  rewrite <- Hv. rewrite Hrow at 1. apply mapRowToRecord_row_of.
Qed.

(** X8: on a table built by the routes, DELETE /strings/by-id/:id with
    the digest of a value makes room for that value: a POST of the value,
    if it is not blank, then answers 201 with its record. *)
Theorem delete_by_id_then_create (ops : list Operation) (value now : jsstring) :
  (0 < length (trim value))%nat ->
  fst (createString value now
         (snd (deleteById (Props.sha256_hash (computeStringProperties value))
                 (table_after ops))))
  = Json 201 (record_of value now).
Proof.
  intros Hb. destruct (table_after_kept ops) as (Hc & _ & Hw).
  set (t := table_after ops) in *. set (hash := Props.sha256_hash _).
  assert (He : has_columns expected_columns t = true) by (unfold has_columns; rewrite Hc; reflexivity).
  destruct (sha256_hash_plain value) as [Hne Hplain]. fold hash in Hne, Hplain.
  assert (Ht' : exists l, snd (deleteById hash t) = mkTable (columns t) l
                  /\ existsb (fun r => jsstring_eqb (Row.id r) hash) l = false
                  /\ Forall written_row l).
  { unfold deleteById. rewrite (delete_route_cases _ _ _ hash); try assumption.
    - destruct (existsb _ (rows t)) eqn:E; cbn [snd].
      + eexists. split; [reflexivity|]. split; [apply existsb_filter_out|].
        apply List.Forall_forall. intros r Hin. apply filter_In in Hin as [Hin _].
        rewrite List.Forall_forall in Hw. exact (Hw r Hin).
      + exists (rows t). split; [destruct t; reflexivity|]. split; assumption.
    - apply (has_columns_In expected_columns); [exact He|cbn; auto]. }
  destruct Ht' as (l & -> & Hl & Hwl).
  unfold createString. replace (0 <? length (trim value))%nat with true
    by (symmetry; apply Nat.ltb_lt, Hb).
  rewrite insert_cases by (apply (has_columns_subset t), He).
  cbn [rows columns]. fold hash.
  replace (existsb _ l) with false.
  - change (has_columns expected_columns (mkTable (columns t) l))
      with (has_columns expected_columns t). rewrite He. reflexivity.
  - symmetry. apply not_true_is_false. intros H.
    apply existsb_exists in H as (r & Hin & H).
    assert (Hr : jsstring_eqb (Row.id r) hash = false).
    { destruct (jsstring_eqb (Row.id r) hash) eqn:E; [|reflexivity].
      assert (existsb (fun r => jsstring_eqb (Row.id r) hash) l = true)
        by (apply existsb_exists; eauto). congruence. }
    rewrite Hr in H. cbn [orb] in H. apply jsstring_eqb_eq in H.
    rewrite List.Forall_forall in Hwl. destruct (Hwl r Hin) as [_ Hrow].
    rewrite Hrow, H in Hr. cbn [row_of Row.id] in Hr. fold hash in Hr.
    rewrite jsstring_eqb_refl in Hr. discriminate.
Qed.

End ReachableFacts.


(** ** Listing in order *)

Lemma text_ltb_irrefl (a : list N) : text_ltb a a = false.
Proof.
  induction a as [|x a IH]; [reflexivity|]. cbn [text_ltb].
  rewrite N.ltb_irrefl, N.eqb_refl, IH. reflexivity.
Qed.

Lemma text_ltb_cons (x y : N) (a b : list N) :
  text_ltb (x :: a) (y :: b) = true <-> x < y \/ (x = y /\ text_ltb a b = true).
Proof.
  cbn [text_ltb]. rewrite orb_true_iff, andb_true_iff, N.ltb_lt, N.eqb_eq. tauto.
Qed.

Lemma text_ltb_cons_false (x y : N) (a b : list N) :
  text_ltb (x :: a) (y :: b) = false <-> y <= x /\ (x = y -> text_ltb a b = false).
Proof.
  cbn [text_ltb]. rewrite orb_false_iff, andb_false_iff, N.ltb_ge, N.eqb_neq.
  split; [intros [H1 [H2|H2]]|intros [H1 H2]]; try tauto.
  split; [exact H1|]. destruct (N.eq_dec x y); tauto.
Qed.

(** [x] is not after [r] and [r] is before [row]: [row] is not before [x]. *)
Lemma text_ltb_between (r : list N) : forall row x,
  text_ltb r row = true -> text_ltb r x = false -> text_ltb row x = false.
Proof.
  induction r as [|a r IH]; intros row x H1 H2.
  - destruct x; [destruct row; reflexivity|discriminate].
  - destruct row as [|b row]; [discriminate|]. destruct x as [|c x]; [reflexivity|].
    apply text_ltb_cons in H1. apply text_ltb_cons_false in H2.
    apply text_ltb_cons_false. destruct H2 as [H2 H3]. split; [lia|].
    intros ->. destruct H1 as [H1|[-> H1]]; [lia|].
    apply (IH row x H1). apply H3. reflexivity.
Qed.

Section NewestFirst.

Local Abbreviation older r r' :=
  (text_ltb (codepoints (Row.created_at r)) (codepoints (Row.created_at r'))).

Lemma insert_desc_Permutation (row : StoredStringRow) (sorted : list StoredStringRow) :
  Permutation (insert_desc row sorted) (row :: sorted).
Proof.
  induction sorted as [|r sorted IH]; [reflexivity|]. cbn [insert_desc].
  destruct (older r row); [reflexivity|].
  rewrite IH. apply perm_swap.
Qed.

Lemma order_by_Permutation (l : list StoredStringRow) :
  Permutation (order_by_created_at_desc l) l.
Proof.
  unfold order_by_created_at_desc.
  assert (H : forall acc,
    Permutation (fold_left (fun sorted row => insert_desc row sorted) l acc) (l ++ acc)).
  { induction l as [|r l IH]; intros acc; [reflexivity|].
    cbn [fold_left]. rewrite IH, insert_desc_Permutation.
    symmetry. apply Permutation_middle. }
  rewrite H, app_nil_r. reflexivity.
Qed.

Lemma insert_desc_newest_first (row : StoredStringRow) (sorted : list StoredStringRow) :
  newest_first sorted = true -> newest_first (insert_desc row sorted) = true.
Proof.
  induction sorted as [|r sorted IH]; intros H; [reflexivity|].
  cbn [newest_first] in H. apply andb_true_iff in H as [Hr Hs].
  cbn [insert_desc]. destruct (older r row) eqn:E.
  - cbn [newest_first forallb]. rewrite Hr, Hs, !andb_true_r.
    apply andb_true_iff; split.
    + apply negb_true_iff. apply (text_ltb_between _ _ _ E), text_ltb_irrefl.
    + rewrite forallb_forall in Hr |- *. intros x Hx.
      apply negb_true_iff, (text_ltb_between _ _ _ E), negb_true_iff, Hr, Hx.
  - cbn [newest_first]. rewrite (IH Hs), andb_true_r.
    rewrite forallb_forall in Hr |- *. intros x Hx.
    apply (Permutation_in _ (insert_desc_Permutation row sorted)) in Hx.
    destruct Hx as [<-|Hx]; [rewrite E; reflexivity|exact (Hr x Hx)].
Qed.

Lemma order_by_newest_first (l : list StoredStringRow) :
  newest_first (order_by_created_at_desc l) = true.
Proof.
  unfold order_by_created_at_desc.
  assert (H : forall acc, newest_first acc = true ->
    newest_first (fold_left (fun sorted row => insert_desc row sorted) l acc) = true).
  { induction l as [|r l IH]; intros acc Hacc; [exact Hacc|].
    cbn [fold_left]. apply IH, insert_desc_newest_first, Hacc. }
  apply H. reflexivity.
Qed.

Lemma newest_first_app (l1 l2 : list StoredStringRow) :
  newest_first (l1 ++ l2) = true ->
  forall a b, In a l1 -> In b l2 -> older a b = false.
Proof.
  induction l1 as [|r l1 IH]; intros H a b Ha Hb; [destruct Ha|].
  cbn [app newest_first] in H. apply andb_true_iff in H as [Hr H].
  destruct Ha as [<-|Ha]; [|exact (IH H a b Ha Hb)].
  rewrite forallb_forall in Hr. apply negb_true_iff, Hr, in_or_app. right. exact Hb.
Qed.

End NewestFirst.

Lemma filter_map_commute {A B : Type} (g : A -> B) (p : B -> bool) (l : list A) :
  List.filter p (List.map g l) = List.map g (List.filter (fun x => p (g x)) l).
Proof.
  induction l as [|x l IH]; [reflexivity|]. cbn [List.map List.filter].
  destruct (p (g x)); cbn [List.map]; rewrite IH; reflexivity.
Qed.

Lemma filter_ext_in {A : Type} (p q : A -> bool) (l : list A) :
  (forall x, In x l -> p x = q x) -> List.filter p l = List.filter q l.
Proof.
  induction l as [|x l IH]; intros H; [reflexivity|]. cbn [List.filter].
  rewrite (H x) by (left; reflexivity). rewrite IH; [reflexivity|].
  intros y Hy. apply H. right. exact Hy.
Qed.

Section ListingAgreement.

Context {U : Unicode}.

Lemma matches_character (f : QueryFilters) (record : StoredStringRecord) (ch : jsstring) :
  Filters.contains_character f = Some ch ->
  matches f record
  = matches (Filters.mk (Filters.is_palindrome f) (Filters.min_length f)
               (Filters.max_length f) (Filters.word_count f) None) record
    && includes (toLowerCase (Rec.value record)) (toLowerCase ch).
Proof.
  destruct f as [pal lo hi wc c]. cbn [Filters.contains_character]. intros ->.
  unfold matches.
  cbn [Filters.is_palindrome Filters.min_length Filters.max_length
       Filters.word_count Filters.contains_character].
  destruct (includes _ _); cbn [negb];
    destruct pal as [flag|], lo as [lo|], hi as [hi|], wc as [wc|];
    repeat match goal with
      | |- context [eqb ?a ?b] => destruct (eqb a b); cbn [negb]
      | |- context [number_ltb ?a ?b] => destruct (number_ltb a b)
      | |- context [differs ?a ?b] => destruct (differs a b)
      end; reflexivity.
Qed.

Lemma conditions_match (f : QueryFilters) (row : StoredStringRow) :
  (Row.is_palindrome row = 0 \/ Row.is_palindrome row = 1)%Z ->
  (forall ch, Filters.contains_character f = Some ch ->
     exists c, ch = [c] /\ 0 < c < 128 /\ c <> 37 /\ c <> 95
               /\ Forall (fun d => 0 < d < 128) (Row.value row)) ->
  forallb (fun c => holds c row) (conditions_of f) = matches f (mapRowToRecord row).
Proof.
  intros Hpal Hch. destruct (Filters.contains_character f) as [ch|] eqn:E.
  - destruct (Hch ch eq_refl) as (c & -> & [H0 H1] & H2 & H3 & H4).
    rewrite (matches_character f _ [c] E).
    rewrite <- (like_matches_includes_ascii c row); try assumption; try lia;
      [|apply (List.Forall_impl _ (P := fun d => 0 < d < 128)); [intros d Hd; lia|exact H4]
       |apply (List.Forall_impl _ (P := fun d => 0 < d < 128)); [intros d Hd; lia|exact H4]].
    pose proof (conditions_match_without_character
                  (Filters.mk (Filters.is_palindrome f) (Filters.min_length f)
                     (Filters.max_length f) (Filters.word_count f) None)
                  row eq_refl Hpal) as H.
    unfold spec_selected in H. rewrite <- H.
    unfold conditions_of.
    cbn [Filters.is_palindrome Filters.min_length Filters.max_length
         Filters.word_count Filters.contains_character].
    rewrite E, !app_assoc, forallb_app, app_nil_r.
    cbn [forallb]. rewrite andb_true_r. reflexivity.
  - exact (conditions_match_without_character f row E Hpal).
Qed.

(** X9: on a table built by the routes, GET /strings answers, up to the
    order of the records, with what [applyFilters] keeps of all stored
    records, when the filter [contains_character] is absent, or is an
    ASCII character other than U+0000 and the wildcards of LIKE and the
    stored values are ASCII without U+0000. *)
Theorem listing_agrees_with_applyFilters (ops : list Operation) (f f' : QueryFilters)
  (status : Z) (records : list StoredStringRecord) :
  (forall ch, Filters.contains_character f = Some ch ->
     exists c, ch = [c] /\ 0 < c < 128 /\ c <> 37 /\ c <> 95
               /\ forall r, In r (rows (table_after ops)) ->
                            Forall (fun d => 0 < d < 128) (Row.value r)) ->
  listStrings f (table_after ops) = Json status (records, f') ->
  status = 200%Z
  /\ f' = f
  /\ Permutation records
       (applyFilters (List.map mapRowToRecord (rows (table_after ops))) f).
Proof.
  intros Hch. destruct (table_after_kept ops) as (_ & _ & Hw).
  rewrite List.Forall_forall in Hw.
  unfold listStrings, fetchRecords, select_where.
  destruct (match Filters.min_length f with Some _ => _ | None => _ end); [discriminate|].
  destruct (has_columns expected_columns (table_after ops)); [|discriminate].
  intros [= <- <- <-]. split; [reflexivity|]. split; [reflexivity|].
  unfold applyFilters. rewrite filter_map_commute.
  apply Permutation_map. rewrite order_by_Permutation.
  rewrite (filter_ext_in _ (fun x => matches f (mapRowToRecord x))); [reflexivity|].
  intros r Hin. apply conditions_match.
  - destruct (Hw r Hin) as [_ ->]. cbn [row_of Row.is_palindrome].
    destruct (Props.is_palindrome _); auto.
  - intros ch E. destruct (Hch ch E) as (c & H0 & H1 & H2 & H3 & H4).
    exists c. auto 10.
Qed.

(** X10: the records that a listing returns are ordered by [created_at],
    newest first: no record is older than a record listed after it. *)
Theorem listing_newest_first (t : Table) (f : QueryFilters)
  (records before between after : list StoredStringRecord)
  (a b : StoredStringRecord) :
  fetchRecords t f = inr records ->
  records = before ++ a :: between ++ b :: after ->
  text_ltb (codepoints (Rec.created_at a)) (codepoints (Rec.created_at b)) = false.
Proof.
  unfold fetchRecords, select_where.
  destruct (has_columns expected_columns t); [|discriminate].
  intros [= <-] E.
  set (sorted := order_by_created_at_desc _) in E.
  pose proof (order_by_newest_first
                (List.filter (fun row => forallb (fun c => holds c row) (conditions_of f))
                   (rows t))) as Hs.
  fold sorted in Hs.
  apply map_eq_app in E as (l1 & l2 & -> & _ & E).
  apply map_eq_cons in E as (ra & l3 & -> & <- & E).
  apply map_eq_app in E as (l4 & l5 & -> & _ & E).
  apply map_eq_cons in E as (rb & l6 & -> & <- & _).
  cbn [mapRowToRecord Rec.created_at].
  apply (newest_first_app (l1 ++ [ra]) (l4 ++ rb :: l6)).
  - rewrite <- app_assoc. exact Hs.
  - apply in_or_app. right. left. reflexivity.
  - apply in_or_app. right. left. reflexivity.
Qed.

End ListingAgreement.

(** ** The frequency map as a whole *)

Lemma property_order_NoDup (keys : list jsstring) :
  property_order keys = true -> NoDup keys.
Proof.
  induction keys as [|k keys IH]; intros H; [constructor|].
  cbn [property_order] in H. apply andb_true_iff in H as [Hk H].
  constructor; [|exact (IH H)].
  intros Hin. apply list_elem_of_In in Hin. rewrite forallb_forall in Hk.
  pose proof (may_follow_differs _ _ (Hk k Hin)) as E.
  rewrite jsstring_eqb_refl in E. discriminate.
Qed.

Lemma obj_get_key {V : Type} (k : jsstring) (o : list (jsstring * V)) :
  obj_get k o <> None <-> In k (List.map fst o).
Proof.
  induction o as [|[k' v] o IH]; cbn [obj_get List.map fst In]; [tauto|].
  destruct (jsstring_eqb k k') eqn:E.
  - apply jsstring_eqb_eq in E. split; [auto|discriminate].
  - rewrite IH. split; [auto|]. intros [->|H]; [|exact H].
    rewrite jsstring_eqb_refl in E. discriminate.
Qed.

Lemma filter_eqb_In (k : jsstring) (l : list jsstring) :
  length (List.filter (jsstring_eqb k) l) <> 0%nat <-> In k l.
Proof.
  induction l as [|x l IH]; cbn [List.filter In]; [cbn; tauto|].
  destruct (jsstring_eqb k x) eqn:E.
  - apply jsstring_eqb_eq in E. cbn [length]. split; [auto|lia].
  - rewrite IH. split; [auto|]. intros [->|H]; [|exact H].
    rewrite jsstring_eqb_refl in E. discriminate.
Qed.

(** The keys of the frequency map are the characters of the value. *)
Lemma frequency_map_keys (value k : jsstring) :
  In k (List.map fst (buildCharacterFrequencyMap value)) <-> In k (Array_from value).
Proof.
  rewrite <- obj_get_key, frequency_lookup, <- filter_eqb_In.
  destruct (Z.of_nat _ =? 0)%Z eqn:E.
  - apply Z.eqb_eq in E. split; [congruence|lia].
  - apply Z.eqb_neq in E. split; [lia|discriminate].
Qed.

Local Abbreviation total o := (fold_right Z.add 0%Z (List.map snd o)).

Lemma total_replace (k : jsstring) (v old : Z) (o : list (jsstring * Z)) :
  obj_get k o = Some old -> total (obj_replace k v o) = (total o - old + v)%Z.
Proof.
  induction o as [|[k' v'] o IH]; [discriminate|]. cbn [obj_get obj_replace].
  destruct (jsstring_eqb k k').
  - intros [= ->]. cbn [List.map snd fold_right]. lia.
  - intros H. cbn [List.map snd fold_right]. rewrite (IH H). lia.
Qed.

Lemma total_insert_index (i : Z) (k : jsstring) (v : Z) (o : list (jsstring * Z)) :
  total (obj_insert_index i k v o) = (total o + v)%Z.
Proof.
  induction o as [|[k' v'] o IH]; [cbn; lia|]. cbn [obj_insert_index].
  destruct (array_index k') as [j|]; [|cbn [List.map snd fold_right]; lia].
  destruct (j <? i)%Z; cbn [List.map snd fold_right]; [rewrite IH|]; ring.
Qed.

Lemma total_set (k : jsstring) (o : list (jsstring * Z)) :
  total (obj_set k (default 0%Z (obj_get k o) + 1)%Z o) = (total o + 1)%Z.
Proof.
  unfold obj_set. destruct (obj_get k o) as [old|] eqn:E.
  - rewrite (total_replace _ _ _ _ E). cbn. lia.
  - destruct (array_index k) as [i|].
    + rewrite total_insert_index. cbn. lia.
    + rewrite List.map_app, fold_right_app. cbn [List.map snd fold_right].
      change (default 0%Z None + 1)%Z with 1%Z.
      generalize (List.map snd o). intros l.
      induction l as [|x l IH]; cbn [fold_right]; lia.
Qed.

Lemma total_frequency (value : jsstring) :
  total (buildCharacterFrequencyMap value) = Z.of_nat (length (Array_from value)).
Proof.
  unfold buildCharacterFrequencyMap.
  assert (H : forall l (acc : list (jsstring * Z)),
    total (fold_left
             (fun frequency char =>
                obj_set char (default 0%Z (obj_get char frequency) + 1)%Z frequency)
             l acc)
    = (total acc + Z.of_nat (length l))%Z).
  { induction l as [|c l IH]; intros acc; [cbn; lia|].
    cbn [fold_left]. rewrite IH, total_set. cbn [length]. lia. }
  rewrite H. reflexivity.
Qed.

Lemma frequency_map_size (value : jsstring) :
  length (buildCharacterFrequencyMap value) = size (Set_of (Array_from value)).
Proof.
  pose proof (property_order_NoDup _ (frequency_map_order value)) as Hnd.
  rewrite <- (length_map fst). unfold Set_of.
  rewrite <- (size_list_to_set (C := gset jsstring) _ Hnd). f_equal.
  apply set_eq. intros k. rewrite !elem_of_list_to_set, !list_elem_of_In.
  apply frequency_map_keys.
Qed.

Lemma frequency_map_counts (value : jsstring) :
  Forall (fun kv => 1 <= snd kv)%Z (buildCharacterFrequencyMap value).
Proof.
  pose proof (frequency_map_positive value) as H.
  apply (List.Forall_impl _ (P := fun kv => (0 < snd kv)%Z)); [|exact H].
  intros kv Hkv. lia.
Qed.

Section FrequencyFacts.

Context {U : Unicode}.

(** X11: the frequency map of a value has one entry for each different
    character of the value, as many entries as [unique_characters]
    says; every count is at least 1, and the counts add up to
    [length]. *)
Theorem frequency_map_totals (value : jsstring) :
  let p := computeStringProperties value in
  let m := buildCharacterFrequencyMap value in
  Props.character_frequency_map p = frequency_object m
  /\ NoDup (List.map fst m)
  /\ (forall k, In k (List.map fst m) <-> In k (Array_from value))
  /\ Z.of_nat (length m) = Props.unique_characters p
  /\ Forall (fun kv => 1 <= snd kv)%Z m
  /\ fold_right Z.add 0%Z (List.map snd m) = Props.length p.
Proof.
  cbv zeta.
  pose proof (property_order_NoDup _ (frequency_map_order value)) as Hnd.
  split; [reflexivity|]. split; [exact Hnd|].
  split; [apply frequency_map_keys|]. split; [|split].
  - cbn [computeStringProperties Props.unique_characters]. f_equal.
    apply frequency_map_size.
  - apply frequency_map_counts.
  - apply total_frequency.
Qed.

End FrequencyFacts.

Lemma split_from_nonempty (fuel : nat) (r : regex) : forall tok s,
  split_from fuel r tok s <> [].
Proof.
  induction fuel as [|fuel IH]; intros tok s; [discriminate|].
  cbn [split_from]. destruct s as [|c s]; [discriminate|].
  destruct (exec r (c :: s)) as [[rest cap]|]; [|apply IH].
  destruct ((length rest =? length (c :: s))%nat && (length tok =? 0)%nat);
    [apply IH|discriminate].
Qed.

Lemma word_count_zero (value : jsstring) :
  calculateWordCount value = 0%Z <-> forallb is_whitespace value = true.
Proof.
  unfold calculateWordCount. rewrite trim_blank.
  destruct (forallb is_whitespace value) eqn:E; [tauto|].
  split; [|discriminate]. intros H. exfalso.
  assert (Hne : trim value <> []).
  { intros Ht. rewrite <- trim_blank, Ht in E. discriminate. }
  unfold split in H. destruct (trim value) as [|c s]; [congruence|].
  pose proof (split_from_nonempty (2 * length (c :: s)) re_whitespace_run [] (c :: s)).
  destruct (split_from _ _ _ _); [congruence|cbn in H; lia].
Qed.

Lemma word_count_nonnegative (value : jsstring) : (0 <= calculateWordCount value)%Z.
Proof.
  unfold calculateWordCount. destruct (length (trim value) =? 0)%nat; lia.
Qed.

Lemma length_Array_from_le (s : jsstring) : (length (Array_from s) <= length s)%nat.
Proof.
  induction s as [|c s Hc IH|hi lo s Hp IH] using string_iterator_ind.
  - reflexivity.
  - rewrite (Array_from_unit _ _ Hc). cbn [length]. lia.
  - rewrite (Array_from_pair _ _ _ Hp). cbn [length]. lia.
Qed.

Lemma total_at_least (o : list (jsstring * Z)) :
  Forall (fun kv => 1 <= snd kv)%Z o ->
  (Z.of_nat (length o) <= fold_right Z.add 0 (List.map snd o))%Z.
Proof.
  induction 1 as [|kv o Hkv _ IH]; [reflexivity|].
  cbn [length List.map fold_right]. lia.
Qed.

Section PropertyBounds.

Context {U : Unicode}.

(** X12: the id of a value is 64 lower-case hexadecimal digits; it holds
    no percent sign, so [decodeURIComponent] leaves it as it is. *)
Theorem sha256_hash_hex (value : jsstring) :
  let hash := Props.sha256_hash (computeStringProperties value) in
  length hash = 64%nat
  /\ Forall (fun c => is_digit c || in_range 97 102 c = true) hash
  /\ decodeURIComponent hash = Some hash.
Proof.
  cbv zeta. cbn [computeStringProperties Props.sha256_hash].
  destruct (digest_spec (encode value)) as [L B].
  destruct (toHex_spec _ B) as [L' D]. rewrite L in L'.
  split; [exact L'|]. split; [exact D|].
  apply decode_plain; [reflexivity|]. intros Hin.
  rewrite List.Forall_forall in D. specialize (D 37 Hin). discriminate.
Qed.

(** X13: POST /strings answers 400 exactly for the values whose word
    count is 0, the values of whitespace only, and then leaves the table
    alone; so no row of a table built by the routes has the word count
    0. *)
Theorem blank_values_rejected (value now : jsstring) (t : Table) :
  (fst (createString value now t) = JsonError 400
   <-> Props.word_count (computeStringProperties value) = 0%Z)
  /\ (Props.word_count (computeStringProperties value) = 0%Z
      <-> forallb is_whitespace value = true)
  /\ (fst (createString value now t) = JsonError 400 ->
      snd (createString value now t) = t)
  /\ (forall ops r, In r (rows (table_after ops)) -> (1 <= Row.word_count r)%Z).
Proof.
  cbn [computeStringProperties Props.word_count].
  assert (H400 : fst (createString value now t) = JsonError 400
                 <-> forallb is_whitespace value = true).
  { unfold createString. rewrite <- trim_blank.
    destruct (length (trim value)) as [|n] eqn:E; cbn [Nat.ltb Nat.leb Nat.eqb fst];
      [tauto|].
    split; [|discriminate]. unfold insert, check_existing.
    destruct (select_existing _ value t) as [e|[found|]]; cbn [fst]; try discriminate.
    unfold write_record. destruct (insert_row _ t); discriminate. }
  split; [rewrite word_count_zero; exact H400|].
  split; [apply word_count_zero|]. split.
  - rewrite H400. unfold createString. rewrite <- trim_blank.
    intros E. apply Nat.eqb_eq in E. rewrite E. reflexivity.
  - intros ops r Hin. destruct (table_after_kept ops) as (_ & _ & Hw).
    rewrite List.Forall_forall in Hw. destruct (Hw r Hin) as [Hb ->].
    cbn [row_of Row.word_count Row.value computeStringProperties Props.word_count] in *.
    pose proof (word_count_nonnegative (Row.value r)) as H0.
    destruct (Z.eq_dec (calculateWordCount (Row.value r)) 0%Z) as [E|E]; [|lia].
    apply word_count_zero in E. rewrite <- trim_blank in E.
    apply Nat.eqb_eq in E. lia.
Qed.

(** X14: [unique_characters] is at most [length], which is at most the
    number of UTF-16 code units of the value; a value that is not empty
    has one character at least. *)
Theorem unique_characters_bounds (value : jsstring) :
  let p := computeStringProperties value in
  (0 <= Props.unique_characters p <= Props.length p)%Z
  /\ (Props.length p <= Z.of_nat (length value))%Z
  /\ (value <> [] -> 1 <= Props.unique_characters p)%Z.
Proof.
  cbv zeta. cbn [computeStringProperties Props.unique_characters Props.length].
  rewrite <- frequency_map_size, <- (total_frequency value).
  pose proof (frequency_map_keys value) as Hk.
  split; [|split].
  - pose proof (total_at_least _ (frequency_map_counts value)). lia.
  - rewrite total_frequency. pose proof (length_Array_from_le value). lia.
  - intros Hne. destruct value as [|c s]; [congruence|].
    assert (Hin : exists k, In k (Array_from (c :: s))).
    { destruct s as [|lo s]; cbn [Array_from]; [eexists; left; reflexivity|].
      destruct (is_high_surrogate c && is_low_surrogate lo); eexists; left; reflexivity. }
    destruct Hin as [k Hin]. apply Hk in Hin.
    destruct (buildCharacterFrequencyMap (c :: s)); [destruct Hin|cbn [length]; lia].
Qed.

(** X15: for an ASCII value, [is_palindrome] does not depend on the case
    of the letters, on the characters that are no letters or digits, or
    on the direction in which the value is read. *)
Theorem is_palindrome_ascii_invariance (value : jsstring) :
  Forall (fun c => c < 128) value ->
  let is_palindrome v := Props.is_palindrome (computeStringProperties v) in
  is_palindrome (rev value) = is_palindrome value
  /\ is_palindrome (ascii_lower value) = is_palindrome value
  /\ is_palindrome (List.filter is_ascii_alnum value) = is_palindrome value.
Proof.
  intros Hv. cbv zeta. cbn [computeStringProperties Props.is_palindrome].
  assert (Hrev : Forall (fun c => c < 128) (rev value)).
  { apply List.Forall_forall. intros c Hc. apply in_rev in Hc.
    rewrite List.Forall_forall in Hv. exact (Hv c Hc). }
  assert (Hfil : Forall (fun c => c < 128) (List.filter is_ascii_alnum value)).
  { apply List.Forall_forall. intros c Hc. apply filter_In in Hc as [Hc _].
    rewrite List.Forall_forall in Hv. exact (Hv c Hc). }
  rewrite (normalizeForPalindrome_ascii _ Hrev).
  rewrite (normalizeForPalindrome_ascii _ (ascii_lower_below_128 _ Hv)).
  rewrite (normalizeForPalindrome_ascii _ Hfil).
  rewrite (normalizeForPalindrome_ascii _ Hv).
  set (n := List.filter is_ascii_alnum (ascii_lower value)).
  split; [|split].
  - rewrite List.map_rev, filter_rev. fold n.
    rewrite rev_involutive, length_rev, (jsstring_eqb_sym (rev n) n). reflexivity.
  - replace (ascii_lower (ascii_lower value)) with (ascii_lower value); [reflexivity|].
    rewrite List.map_map. apply map_ext_in. intros c Hc.
    rewrite List.Forall_forall in Hv. specialize (Hv c Hc).
    destruct (is_upper_AZ c) eqn:E; [|rewrite E; reflexivity].
    replace (is_upper_AZ (c + 32)) with false; [reflexivity|].
    symmetry. unfold is_upper_AZ, in_range in *.
    apply andb_true_iff in E as [E1 E2]. apply N.leb_le in E1, E2.
    apply andb_false_iff. right. apply N.leb_gt. lia.
  - replace (List.filter is_ascii_alnum (ascii_lower (List.filter is_ascii_alnum value)))
      with n; [reflexivity|].
    unfold n. clear. induction value as [|c value IH]; [reflexivity|].
    cbn [List.map List.filter].
    assert (E : is_ascii_alnum (if is_upper_AZ c then c + 32 else c) = is_ascii_alnum c).
    { unfold is_ascii_alnum, is_lower_az, is_upper_AZ, is_digit, in_range.
      destruct ((65 <=? c) && (c <=? 90)) eqn:E.
      - apply andb_true_iff in E as [E1 E2]. apply N.leb_le in E1, E2.
        rewrite orb_true_r. cbn [orb].
        replace ((97 <=? c + 32) && (c + 32 <=? 122)) with true; [reflexivity|].
        symmetry. apply andb_true_iff; split; apply N.leb_le; lia.
      - rewrite E. reflexivity. }
    rewrite E. destruct (is_ascii_alnum c) eqn:Ec; [|exact IH].
    cbn [List.map List.filter]. rewrite E, IH. reflexivity.
Qed.

End PropertyBounds.

(** ** The parser and its route *)

Lemma drop_while_app_all (p : N -> bool) (a b : jsstring) :
  forallb p a = true -> drop_while p (a ++ b) = drop_while p b.
Proof.
  induction a as [|c a IH]; [reflexivity|]. cbn [forallb app drop_while].
  intros H. apply andb_true_iff in H as [-> H]. exact (IH H).
Qed.

Lemma drop_while_app_keep (p : N -> bool) (a b : jsstring) :
  drop_while p a <> [] -> drop_while p (a ++ b) = drop_while p a ++ b.
Proof.
  induction a as [|c a IH]; [intros H; exfalso; apply H; reflexivity|].
  cbn [app drop_while]. destruct (p c); [exact IH|reflexivity].
Qed.

Lemma trim_padding (before q after : jsstring) :
  forallb is_whitespace before = true -> forallb is_whitespace after = true ->
  trim (before ++ q ++ after) = trim q.
Proof.
  intros Hb Ha. unfold trim. f_equal. rewrite (drop_while_app_all _ _ _ Hb).
  destruct (drop_while is_whitespace q) as [|c d] eqn:E.
  - apply drop_while_nil in E.
    assert (H : drop_while is_whitespace (q ++ after) = []).
    { apply drop_while_nil. rewrite forallb_app, E, Ha. reflexivity. }
    rewrite H. reflexivity.
  - rewrite drop_while_app_keep by (rewrite E; discriminate).
    rewrite E, rev_app_distr. apply drop_while_app_all.
    rewrite forallb_rev. exact Ha.
Qed.

Lemma is_whitespace_lower (c : N) :
  is_whitespace (if is_upper_AZ c then c + 32 else c) = is_whitespace c.
Proof.
  destruct (is_upper_AZ c) eqn:E; [|reflexivity].
  unfold is_upper_AZ, in_range in E. apply andb_true_iff in E as [E1 E2].
  apply N.leb_le in E1, E2.
  assert (F : forall x, 65 <= x <= 122 -> is_whitespace x = false).
  { intros x Hx. unfold is_whitespace, in_range.
    repeat (apply orb_false_iff; split);
      try (apply N.eqb_neq; lia);
      apply andb_false_iff; (left; apply N.leb_gt; lia) || (right; apply N.leb_gt; lia). }
  rewrite !F by lia. reflexivity.
Qed.

Lemma drop_while_lower (s : jsstring) :
  drop_while is_whitespace (ascii_lower s) = ascii_lower (drop_while is_whitespace s).
Proof.
  induction s as [|c s IH]; [reflexivity|]. cbn [List.map drop_while].
  rewrite is_whitespace_lower. destruct (is_whitespace c); [exact IH|reflexivity].
Qed.

Lemma trim_lower (s : jsstring) : trim (ascii_lower s) = ascii_lower (trim s).
Proof.
  unfold trim. rewrite drop_while_lower, <- List.map_rev, drop_while_lower,
    <- List.map_rev. reflexivity.
Qed.

Section ParserInvariance.

Context {U : Unicode}.

Lemma parse_ascii (q : jsstring) :
  Forall (fun c => c < 128) q ->
  parseNaturalLanguageQuery q
  = if (length (trim (ascii_lower q)) =? 0)%nat
    then unparsed "Unable to parse natural language query"
    else conclude (apply_rules (trim (ascii_lower q))).
Proof.
  intros Hq. unfold parseNaturalLanguageQuery.
  assert (Ht : Forall (fun c => c < 128) (trim q)).
  { apply List.Forall_forall. intros c Hc. unfold trim in Hc.
    assert (D : forall s x, In x (drop_while is_whitespace s) -> In x s).
    { induction s as [|y s IH]; intros x Hx; [exact Hx|]. cbn [drop_while] in Hx.
      destruct (is_whitespace y); [right; exact (IH x Hx)|exact Hx]. }
    apply in_rev, D, in_rev, D in Hc. rewrite List.Forall_forall in Hq. exact (Hq c Hc). }
  rewrite (toLowerCase_ascii _ Ht), trim_lower, length_map. reflexivity.
Qed.

(** X16: the parser ignores whitespace around the query and, for ASCII
    queries, the case of the letters. *)
Theorem parse_ignores_padding_and_case :
  (forall before q after,
     forallb is_whitespace before = true -> forallb is_whitespace after = true ->
     parseNaturalLanguageQuery (before ++ q ++ after) = parseNaturalLanguageQuery q)
  /\ (forall q q',
        Forall (fun c => c < 128) q -> Forall (fun c => c < 128) q' ->
        ascii_lower q = ascii_lower q' ->
        parseNaturalLanguageQuery q = parseNaturalLanguageQuery q').
Proof.
  split.
  - intros before q after Hb Ha. unfold parseNaturalLanguageQuery.
    rewrite (trim_padding _ _ _ Hb Ha). reflexivity.
  - intros q q' Hq Hq' E. rewrite (parse_ascii q Hq), (parse_ascii q' Hq'), E.
    reflexivity.
Qed.

Lemma conclude_success_bounds (st : ParseState) (f : QueryFilters) :
  conclude st = success f ->
  match Filters.min_length f, Filters.max_length f with
  | Some lo, Some hi => number_ltb hi lo
  | _, _ => false
  end = false.
Proof.
  unfold conclude. destruct (0 <? length (conflicts st))%nat; [discriminate|].
  destruct (match Filters.min_length (filters st) with Some _ => _ | None => _ end)
    eqn:E; [discriminate|].
  destruct (negb (parsed st)); [discriminate|]. intros [= <-]. exact E.
Qed.

(** X17: when the parser succeeds, GET /strings/filter-by-natural-language
    answers as GET /strings does for the parsed filters: with the same
    records, or with the same error of the query; it answers 400 or 422
    only when the parser does not succeed. *)
Theorem natural_language_route (query : jsstring) (f : QueryFilters) (t : Table) :
  parseNaturalLanguageQuery query = success f ->
  (forall records,
     filterByNaturalLanguage query t = Json 200 (records, (query, f))
     <-> listStrings f t = Json 200 (records, f))
  /\ (forall e, filterByNaturalLanguage query t = Thrown e <-> listStrings f t = Thrown e)
  /\ (forall status, filterByNaturalLanguage query t <> JsonError status)
  /\ (forall status, listStrings f t <> JsonError status).
Proof.
  intros Hp.
  assert (Hb : match Filters.min_length f, Filters.max_length f with
               | Some lo, Some hi => number_ltb hi lo
               | _, _ => false
               end = false).
  { unfold parseNaturalLanguageQuery in Hp.
    destruct (length (trim query) =? 0)%nat; [discriminate|].
    exact (conclude_success_bounds _ _ Hp). }
  unfold filterByNaturalLanguage, listStrings. rewrite Hp, Hb.
  destruct (fetchRecords t f) as [e|records]; repeat split;
    try discriminate; try congruence.
Qed.

End ParserInvariance.

(** ** Decoding the path parameter *)

Lemma continuation_octets_length (count : nat) : forall s bs rest,
  URI.continuation_octets count s = Some (bs, rest) ->
  length s = (3 * count + length rest)%nat /\ length bs = count.
Proof.
  induction count as [|count IH]; intros s bs rest; cbn [URI.continuation_octets].
  - intros [= <- <-]. cbn. lia.
  - destruct s as [|p [|h1 [|h2 t]]]; try discriminate.
    destruct (p =? 37); [|discriminate].
    destruct (URI.hex_octet h1 h2) as [b|]; [|discriminate].
    destruct (URI.continuation_octets count t) as [[bs' rest']|] eqn:E; [|discriminate].
    intros [= <- <-]. destruct (IH _ _ _ E) as [H1 H2]. cbn [length]. lia.
Qed.

Lemma length_utf16_of_codepoint (cp : N) : (length (utf16_of_codepoint cp) <= 2)%nat.
Proof. unfold utf16_of_codepoint. destruct (cp <? 65536); cbn; lia. Qed.

Lemma decode_length (fuel : nat) : forall s r,
  URI.decode fuel s = Some r ->
  (length r <= length s)%nat
  /\ ((length s <= fuel)%nat -> In 37 s -> (length r < length s)%nat).
Proof.
  induction fuel as [|fuel IH]; intros s r; cbn [URI.decode].
  - intros [= <-]. split; [cbn; lia|]. destruct s; [intros _ []|cbn; lia].
  - destruct s as [|c t]; [intros [= <-]; split; [reflexivity|intros _ []]|].
    destruct (c =? 37) eqn:Ec.
    + destruct t as [|h1 [|h2 t']]; try discriminate.
      destruct (URI.hex_octet h1 h2) as [b|]; [|discriminate].
      destruct (b <? 128).
      * destruct (URI.decode fuel t') as [r'|] eqn:E; [|discriminate].
        intros [= <-]. destruct (IH _ _ E) as [H _]. cbn [length]. lia.
      * destruct (URI.following b) as [count|]; [|discriminate].
        destruct (URI.continuation_octets count t') as [[bs rest]|] eqn:Ek; [|discriminate].
        destruct (URI.utf8_codepoint b bs) as [cp|]; [|discriminate].
        destruct (URI.decode fuel rest) as [r'|] eqn:E; [|discriminate].
        intros [= <-]. destruct (IH _ _ E) as [H _].
        destruct (continuation_octets_length _ _ _ _ Ek) as [Hl _].
        pose proof (length_utf16_of_codepoint cp). rewrite length_app. cbn [length]. lia.
    + destruct (URI.decode fuel t) as [r'|] eqn:E; [|discriminate].
      intros [= <-]. destruct (IH _ _ E) as [H1 H2]. cbn [length]. split; [lia|].
      intros Hf [Hin|Hin].
      * subst c. discriminate.
      * specialize (H2 ltac:(lia) Hin). lia.
Qed.

(** X18: [decodeURIComponent] leaves a parameter as it is exactly when
    the parameter holds no percent sign; what it returns is never longer
    than the parameter. *)
Theorem decodeURIComponent_plain (s : jsstring) :
  (decodeURIComponent s = Some s <-> ~ In 37 s)
  /\ (forall r, decodeURIComponent s = Some r -> (length r <= length s)%nat).
Proof.
  unfold decodeURIComponent. split; [split|].
  - intros H Hin. destruct (decode_length _ _ _ H) as [_ H2].
    specialize (H2 ltac:(lia) Hin). lia.
  - apply decode_plain. reflexivity.
  - intros r H. exact (proj1 (decode_length _ _ _ H)).
Qed.

Lemma decode_malformed (p rest : jsstring) : forall fuel,
  (length (p ++ 37%N :: rest) <= fuel)%nat ->
  ~ In 37 p ->
  match rest with
  | h1 :: h2 :: _ => URI.hex_octet h1 h2 = None
  | _ => True
  end ->
  URI.decode fuel (p ++ 37 :: rest) = None.
Proof.
  induction p as [|c p IH]; intros fuel Hf Hp Hr.
  - destruct fuel as [|fuel]; [cbn in Hf; lia|]. cbn [app URI.decode].
    change (37 =? 37) with true. cbv iota.
    destruct rest as [|h1 [|h2 t]]; try reflexivity. rewrite Hr. reflexivity.
  - destruct fuel as [|fuel]; [cbn in Hf; lia|]. cbn [app URI.decode].
    replace (c =? 37) with false
      by (symmetry; apply N.eqb_neq; intros ->; apply Hp; left; reflexivity).
    rewrite IH; [reflexivity|cbn in Hf; lia| |exact Hr].
    intros H. apply Hp. right. exact H.
Qed.

(** X19: a parameter whose first percent sign is not followed by two
    hexadecimal digits makes [decodeURIComponent] throw: the three routes
    with a path parameter fail, and the table is left alone. *)
Theorem malformed_escape_throws (p rest : jsstring) (t : Table) :
  ~ In 37 p ->
  match rest with
  | h1 :: h2 :: _ => URI.hex_octet h1 h2 = None
  | _ => True
  end ->
  let param := p ++ 37 :: rest in
  decodeURIComponent param = None
  /\ getByValue param t = ThrownURIError
  /\ deleteByValue param t = (DeleteURIError, t)
  /\ deleteById param t = (DeleteURIError, t).
Proof.
  intros Hp Hr. cbv zeta.
  assert (H : decodeURIComponent (p ++ 37 :: rest) = None)
    by (apply decode_malformed; [reflexivity|exact Hp|exact Hr]).
  assert (Hl : (length (p ++ 37%N :: rest) =? 0)%nat = false)
    by (rewrite length_app; cbn [length]; apply Nat.eqb_neq; lia).
  unfold getByValue, deleteByValue, deleteById, delete_route. rewrite H, Hl. auto.
Qed.

(** ** Escaped UTF-8 *)

Lemma hex_value_upper (d : N) :
  d < 16 -> JSON.hex_value (URI.upper_hex_digit d) = Some d.
Proof.
  intros H. unfold JSON.hex_value, URI.upper_hex_digit, is_digit, in_range.
  destruct (d <? 10) eqn:E.
  - apply N.ltb_lt in E.
    replace ((48 <=? 48 + d) && (48 + d <=? 57)) with true
      by (symmetry; apply andb_true_iff; split; apply N.leb_le; lia).
    f_equal. lia.
  - apply N.ltb_ge in E.
    replace ((48 <=? 55 + d) && (55 + d <=? 57)) with false
      by (symmetry; apply andb_false_iff; right; apply N.leb_gt; lia).
    replace ((97 <=? 55 + d) && (55 + d <=? 102)) with false
      by (symmetry; apply andb_false_iff; left; apply N.leb_gt; lia).
    replace ((65 <=? 55 + d) && (55 + d <=? 70)) with true
      by (symmetry; apply andb_true_iff; split; apply N.leb_le; lia).
    f_equal. lia.
Qed.

Lemma hex_octet_escape (b : N) :
  b < 256 ->
  URI.hex_octet (URI.upper_hex_digit (b / 16)) (URI.upper_hex_digit (b mod 16)) = Some b.
Proof.
  intros H. unfold URI.hex_octet.
  rewrite !hex_value_upper by divmod_lia. f_equal. divmod_lia.
Qed.

Lemma decode_fuel (f1 : nat) : forall f2 s,
  (length s <= f1)%nat -> (length s <= f2)%nat -> URI.decode f1 s = URI.decode f2 s.
Proof.
  induction f1 as [|f1 IH]; intros f2 s H1 H2.
  - destruct s; [destruct f2; reflexivity|cbn in H1; lia].
  - destruct s as [|c t]; [destruct f2; reflexivity|].
    destruct f2 as [|f2]; [cbn in H2; lia|]. cbn [URI.decode]. cbn [length] in H1, H2.
    destruct (c =? 37).
    + destruct t as [|h1 [|h2 t']]; try reflexivity. cbn [length] in H1, H2.
      destruct (URI.hex_octet h1 h2) as [b|]; [|reflexivity].
      destruct (b <? 128); [rewrite (IH f2 t') by lia; reflexivity|].
      destruct (URI.following b) as [count|]; [|reflexivity].
      destruct (URI.continuation_octets count t') as [[bs rest]|] eqn:Ek; [|reflexivity].
      destruct (URI.utf8_codepoint b bs); [|reflexivity].
      destruct (continuation_octets_length _ _ _ _ Ek) as [Hl _].
      rewrite (IH f2 rest) by lia. reflexivity.
    + rewrite (IH f2 t) by lia. reflexivity.
Qed.

Lemma continuation_escape (bs : list N) (rest : jsstring) :
  Forall (fun b => b < 256) bs ->
  URI.continuation_octets (length bs) (flat_map URI.escape_octet bs ++ rest)
  = Some (bs, rest).
Proof.
  induction 1 as [|b bs Hb _ IH]; [reflexivity|].
  cbn [length flat_map URI.escape_octet app URI.continuation_octets].
  change (37 =? 37) with true. cbv iota.
  rewrite (hex_octet_escape b Hb), IH. reflexivity.
Qed.

(** A code point that UTF-8 encodes. *)
Local Abbreviation scalar cp :=
  (cp < 1114112 /\ in_range 55296 57343 cp = false).

Lemma decode_escaped_codepoint (cp : N) (rest : jsstring) (fuel : nat) :
  scalar cp ->
  URI.decode (S fuel) (flat_map URI.escape_octet (utf8_of_codepoint cp) ++ rest)
  = option_map (app (utf16_of_codepoint cp)) (URI.decode fuel rest).
Proof.
  intros [Hmax Hs]. unfold utf8_of_codepoint. rewrite Hs.
  unfold in_range in Hs.
  destruct (cp <? 128) eqn:E1.
  { apply N.ltb_lt in E1. cbn [flat_map URI.escape_octet app URI.decode].
    change (37 =? 37) with true. cbv iota.
    rewrite hex_octet_escape by divmod_lia.
    replace (cp <? 128) with true by (symmetry; apply N.ltb_lt; lia).
    unfold utf16_of_codepoint.
    replace (cp <? 65536) with true by (symmetry; apply N.ltb_lt; lia).
    destruct (URI.decode fuel rest); reflexivity. }
  apply N.ltb_ge in E1.
  assert (Step : forall b bs,
    128 <= b < 256 -> Forall (fun x => x < 256) bs ->
    URI.following b = Some (length bs) ->
    URI.utf8_codepoint b bs = Some cp ->
    URI.decode (S fuel) (flat_map URI.escape_octet (b :: bs) ++ rest)
    = option_map (app (utf16_of_codepoint cp)) (URI.decode fuel rest)).
  { intros b bs Hb Hbs Hf Hc.
    cbn [flat_map URI.escape_octet app URI.decode]. change (37 =? 37) with true. cbv iota.
    rewrite hex_octet_escape by divmod_lia.
    replace (b <? 128) with false by (symmetry; apply N.ltb_ge; divmod_lia).
    rewrite Hf, (continuation_escape bs rest Hbs), Hc. reflexivity. }
  destruct (cp <? 2048) eqn:E2.
  { apply N.ltb_lt in E2. apply Step.
    - divmod_lia.
    - repeat constructor; divmod_lia.
    - unfold URI.following.
      replace (192 + cp / 64 <? 192) with false by (symmetry; apply N.ltb_ge; divmod_lia).
      replace (192 + cp / 64 <? 224) with true
        by (symmetry; apply N.ltb_lt; divmod_lia).
      reflexivity.
    - unfold URI.utf8_codepoint. cbn [forallb]. unfold in_range.
      replace ((128 <=? 128 + cp mod 64) && (128 + cp mod 64 <=? 191)) with true
        by (symmetry; apply andb_true_iff; split; apply N.leb_le; divmod_lia).
      cbn [andb].
      replace (192 + cp / 64 - 192) with (cp / 64) by divmod_lia.
      replace (128 + cp mod 64 - 128) with (cp mod 64) by divmod_lia.
      replace (cp / 64 * 64 + cp mod 64) with cp by divmod_lia.
      replace (128 <=? cp) with true by (symmetry; apply N.leb_le; lia).
      reflexivity. }
  apply N.ltb_ge in E2.
  destruct (cp <? 65536) eqn:E3.
  { apply N.ltb_lt in E3. apply Step.
    - divmod_lia.
    - repeat constructor; divmod_lia.
    - unfold URI.following.
      replace (224 + cp / 4096 <? 192) with false by (symmetry; apply N.ltb_ge; divmod_lia).
      replace (224 + cp / 4096 <? 224) with false by (symmetry; apply N.ltb_ge; divmod_lia).
      replace (224 + cp / 4096 <? 240) with true
        by (symmetry; apply N.ltb_lt; divmod_lia).
      reflexivity.
    - unfold URI.utf8_codepoint. cbn [forallb]. unfold in_range.
      replace ((128 <=? 128 + (cp / 64) mod 64) && (128 + (cp / 64) mod 64 <=? 191))
        with true
        by (symmetry; apply andb_true_iff; split; apply N.leb_le; divmod_lia).
      replace ((128 <=? 128 + cp mod 64) && (128 + cp mod 64 <=? 191)) with true
        by (symmetry; apply andb_true_iff; split; apply N.leb_le; divmod_lia).
      cbn [andb].
      replace (224 + cp / 4096 - 224) with (cp / 4096) by divmod_lia.
      replace (128 + (cp / 64) mod 64 - 128) with ((cp / 64) mod 64) by divmod_lia.
      replace (128 + cp mod 64 - 128) with (cp mod 64) by divmod_lia.
      replace ((cp / 4096 * 64 + (cp / 64) mod 64) * 64 + cp mod 64) with cp
        by divmod_lia.
      replace (2048 <=? cp) with true by (symmetry; apply N.leb_le; lia).
      rewrite Hs. reflexivity. }
  apply N.ltb_ge in E3.
  apply Step.
  - divmod_lia.
  - repeat constructor; divmod_lia.
  - unfold URI.following.
    replace (240 + cp / 262144 <? 192) with false by (symmetry; apply N.ltb_ge; divmod_lia).
    replace (240 + cp / 262144 <? 224) with false by (symmetry; apply N.ltb_ge; divmod_lia).
    replace (240 + cp / 262144 <? 240) with false by (symmetry; apply N.ltb_ge; divmod_lia).
    replace (240 + cp / 262144 <? 248) with true
      by (symmetry; apply N.ltb_lt; divmod_lia).
    reflexivity.
  - unfold URI.utf8_codepoint. cbn [forallb]. unfold in_range.
    replace ((128 <=? 128 + (cp / 4096) mod 64) && (128 + (cp / 4096) mod 64 <=? 191))
      with true
      by (symmetry; apply andb_true_iff; split; apply N.leb_le; divmod_lia).
    replace ((128 <=? 128 + (cp / 64) mod 64) && (128 + (cp / 64) mod 64 <=? 191))
      with true
      by (symmetry; apply andb_true_iff; split; apply N.leb_le; divmod_lia).
    replace ((128 <=? 128 + cp mod 64) && (128 + cp mod 64 <=? 191)) with true
      by (symmetry; apply andb_true_iff; split; apply N.leb_le; divmod_lia).
    cbn [andb].
    replace (240 + cp / 262144 - 240) with (cp / 262144) by divmod_lia.
    replace (128 + (cp / 4096) mod 64 - 128) with ((cp / 4096) mod 64) by divmod_lia.
    replace (128 + (cp / 64) mod 64 - 128) with ((cp / 64) mod 64) by divmod_lia.
    replace (128 + cp mod 64 - 128) with (cp mod 64) by divmod_lia.
    replace (((cp / 262144 * 64 + (cp / 4096) mod 64) * 64 + (cp / 64) mod 64) * 64
             + cp mod 64) with cp by divmod_lia.
    replace ((65536 <=? cp) && (cp <=? 1114111)) with true
      by (symmetry; apply andb_true_iff; split; apply N.leb_le; lia).
    reflexivity.
Qed.

Lemma utf8_of_codepoint_length (cp : N) : (1 <= length (utf8_of_codepoint cp))%nat.
Proof.
  unfold utf8_of_codepoint.
  destruct (cp <? 128), (cp <? 2048), (in_range 55296 57343 cp), (cp <? 65536);
    cbn; lia.
Qed.

Lemma decode_escaped (cps : list N) :
  Forall (fun cp => scalar cp) cps ->
  forall fuel,
    (length (flat_map URI.escape_octet (flat_map utf8_of_codepoint cps)) <= fuel)%nat ->
    URI.decode fuel (flat_map URI.escape_octet (flat_map utf8_of_codepoint cps))
    = Some (utf16 cps).
Proof.
  induction 1 as [|cp cps Hcp _ IH]; intros fuel Hf; [destruct fuel; reflexivity|].
  cbn [flat_map] in *. rewrite flat_map_app in *. rewrite length_app in Hf.
  assert (Hl : (3 <= length (flat_map URI.escape_octet (utf8_of_codepoint cp)))%nat).
  { pose proof (utf8_of_codepoint_length cp).
    destruct (utf8_of_codepoint cp); cbn in *; lia. }
  destruct fuel as [|fuel]; [lia|].
  rewrite (decode_escaped_codepoint cp _ fuel Hcp), IH by lia. reflexivity.
Qed.

Lemma utf16_codepoints (s : jsstring) : code_units s -> utf16 (codepoints s) = s.
Proof.
  unfold code_units.
  induction s as [|c s Hc IH|hi lo s Hp IH] using string_iterator_ind; intros H.
  - reflexivity.
  - inversion H as [|? ? H1 H2]; subst. rewrite (codepoints_unit _ _ Hc).
    cbn [utf16 flat_map]. unfold utf16 in IH. rewrite (IH H2).
    unfold utf16_of_codepoint.
    replace (c <? 65536) with true by (symmetry; apply N.ltb_lt; exact H1).
    reflexivity.
  - inversion H as [|? ? H1 H2]; subst. inversion H2 as [|? ? H3 H4]; subst.
    rewrite (codepoints_pair _ _ _ Hp). cbn [utf16 flat_map]. unfold utf16 in IH.
    rewrite (IH H4), (utf16_of_pair _ _ Hp). reflexivity.
Qed.

Lemma codepoints_bound (s : jsstring) :
  code_units s -> Forall (fun cp => cp < 1114112) (codepoints s).
Proof.
  unfold code_units.
  induction s as [|c s Hc IH|hi lo s Hp IH] using string_iterator_ind; intros H.
  - constructor.
  - inversion H as [|? ? H1 H2]; subst. rewrite (codepoints_unit _ _ Hc).
    constructor; [lia|exact (IH H2)].
  - inversion H as [|? ? H1 H2]; subst. inversion H2 as [|? ? H3 H4]; subst.
    rewrite (codepoints_pair _ _ _ Hp). constructor; [|exact (IH H4)].
    apply andb_true_iff in Hp as [Hh Hl].
    unfold is_high_surrogate, is_low_surrogate, in_range in *.
    apply andb_true_iff in Hh as [Hh1 Hh2]. apply andb_true_iff in Hl as [Hl1 Hl2].
    apply N.leb_le in Hh1, Hh2, Hl1, Hl2. lia.
Qed.

(** X20: for a value without unpaired surrogates, the escapes of the
    UTF-8 bytes that [encoder.encode] gives, the bytes that are hashed
    into the id, decode to the value again. *)
Theorem escaped_value_decodes (value : jsstring) :
  code_units value ->
  Forall (fun cp => in_range 55296 57343 cp = false) (codepoints value) ->
  decodeURIComponent (flat_map URI.escape_octet (encode value)) = Some value.
Proof.
  intros Hu Hs.
  unfold decodeURIComponent, encode. rewrite decode_escaped; [| |reflexivity].
  - rewrite (utf16_codepoints _ Hu). reflexivity.
  - pose proof (codepoints_bound _ Hu) as Hb.
    rewrite List.Forall_forall in *. intros cp Hin.
    split; [apply Hb|apply Hs]; exact Hin.
Qed.

(** ** Concurrent requests *)

Section ConcurrencyFacts.

Context {U : Unicode}.

(** The requests that have answered with a record have pairwise
    different values, and the value of each is stored. *)
Local Abbreviation winners reqs t :=
  (forall i j value now now' status status' record record',
     reqs !! i = Some (value, now, Done (Json status record)) ->
     reqs !! j = Some (value, now', Done (Json status' record')) ->
     i = j /\ status = 201%Z /\ exists r, In r (rows t) /\ Row.value r = value).

Lemma post_step_winner (value now : jsstring) (phase : Phase) (t : Table)
  (status : Z) (record : StoredStringRecord) :
  fst (post_step value now phase t) = Done (Json status record) ->
  phase = Done (Json status record) /\ snd (post_step value now phase t) = t
  \/ phase = Checked /\ status = 201%Z
     /\ existsb (fun r => jsstring_eqb (Row.value r) value) (rows t) = false
     /\ rows (snd (post_step value now phase t))
        = rows t ++ [row_of value (computeStringProperties value) now].
Proof.
  destruct phase as [| |response]; cbn [post_step].
  - unfold check_existing.
    destruct (select_existing _ value t) as [e|[found|]]; discriminate.
  - unfold write_record, insert_row.
    destruct (has_columns expected_columns t); [|discriminate].
    destruct (existsb _ (rows t)) eqn:E; [discriminate|].
    cbn [fst snd rows row_of Row.id Row.value] in *. intros [= <- _]. right.
    apply existsb_or_false in E as [_ E]. auto.
  - cbn [fst snd]. intros [= ->]. left. auto.
Qed.

Lemma post_step_rows (value now : jsstring) (phase : Phase) (t : Table) :
  forall r, In r (rows t) -> In r (rows (snd (post_step value now phase t))).
Proof.
  intros r Hin. destruct phase as [| |response]; cbn [post_step].
  - destruct (check_existing value t); exact Hin.
  - unfold write_record, insert_row.
    destruct (has_columns expected_columns t); [|exact Hin].
    destruct (existsb _ (rows t)); [exact Hin|]. cbn [snd rows].
    apply in_or_app. left. exact Hin.
  - exact Hin.
Qed.

Lemma run_one_winners (i : nat) (reqs : list Request) (t : Table) :
  winners reqs t -> winners (fst (run_one i reqs t)) (snd (run_one i reqs t)).
Proof.
  intros Inv. unfold run_one.
  destruct (reqs !! i) as [[[value now] phase]|] eqn:Ei; [|exact Inv].
  pose proof (post_step_winner value now phase t) as Hw.
  pose proof (post_step_rows value now phase t) as Hr.
  destruct (post_step value now phase t) as [phase' t']. cbn [fst snd] in *.
  assert (Old : forall k v n s rec,
    k <> i -> reqs !! k = Some (v, n, Done (Json s rec)) ->
    s = 201%Z /\ exists r, In r (rows t) /\ Row.value r = v).
  { intros k v n s rec _ Hk. destruct (Inv k k v n n s s rec rec Hk Hk) as (_ & H). exact H. }
  intros a b v n n' s s' rec rec' Ha Hb.
  apply list_lookup_insert_Some in Ha, Hb.
  destruct Ha as [(<- & Ea & La)|(Na & Ha)], Hb as [(Eb & Eb' & Lb)|(Nb & Hb)].
  - subst b. injection Ea as -> -> ->. split; [reflexivity|].
    destruct (Hw s rec eq_refl) as [[-> ->]|(-> & -> & Hfree & Hrows)].
    + destruct (Inv i i v n n s s rec rec Ei Ei) as (_ & H). exact H.
    + split; [reflexivity|]. eexists. split; [rewrite Hrows; apply in_or_app; right; left; reflexivity|reflexivity].
  - injection Ea as -> -> ->.
    destruct (Hw s rec eq_refl) as [[-> ->]|(-> & -> & Hfree & Hrows)].
    + destruct (Inv i b v n n' s s' rec rec' Ei Hb) as (H & _). contradiction.
    + exfalso. destruct (Old b v n' s' rec' ltac:(auto) Hb) as (_ & r & Hin & Hv).
      assert (existsb (fun r => jsstring_eqb (Row.value r) v) (rows t) = true); [|congruence].
      apply existsb_exists. exists r. split; [exact Hin|]. apply jsstring_eqb_eq, Hv.
  - subst b. injection Eb' as -> -> ->.
    destruct (Hw s' rec' eq_refl) as [[-> ->]|(-> & -> & Hfree & Hrows)].
    + destruct (Inv a i v n n' s s' rec rec' Ha Ei) as (H & _). congruence.
    + exfalso. destruct (Old a v n s rec ltac:(auto) Ha) as (_ & r & Hin & Hv).
      assert (existsb (fun r => jsstring_eqb (Row.value r) v) (rows t) = true); [|congruence].
      apply existsb_exists. exists r. split; [exact Hin|]. apply jsstring_eqb_eq, Hv.
  - destruct (Inv a b v n n' s s' rec rec' Ha Hb) as (H1 & H2 & r & Hin & Hv).
    split; [exact H1|]. split; [exact H2|]. exists r. split; [apply Hr, Hin|exact Hv].
Qed.

(** X21: however the statements of concurrent POST /strings requests
    interleave, at most one request for a value answers with a record;
    its status is 201 and its value is stored when the run ends. *)
Theorem concurrent_posts_one_winner (schedule : list nat) (reqs : list Request)
  (t : Table) :
  Forall (fun r => snd r = Start) reqs ->
  forall i j value now now' status status' record record',
    fst (run schedule reqs t) !! i = Some (value, now, Done (Json status record)) ->
    fst (run schedule reqs t) !! j = Some (value, now', Done (Json status' record')) ->
    i = j /\ status = 201%Z
    /\ exists r, In r (rows (snd (run schedule reqs t))) /\ Row.value r = value.
Proof.
  intros Hstart.
  assert (Inv0 : winners reqs t).
  { intros i j v n n' s s' rec rec' Hi _. rewrite List.Forall_forall in Hstart.
    apply list_elem_of_lookup_2, list_elem_of_In, Hstart in Hi. discriminate. }
  clear Hstart. revert reqs t Inv0.
  induction schedule as [|k schedule IH]; intros reqs t Inv0; [exact Inv0|].
  cbn [run]. pose proof (run_one_winners k reqs t Inv0) as H.
  destruct (run_one k reqs t) as [reqs' t']. exact (IH reqs' t' H).
Qed.

End ConcurrencyFacts.

Section SchemaFacts.

Context {U : Unicode}.

(** X22: against the table that schema.sql creates, which has no column
    [length], nothing is ever stored: the INSERT of POST /strings and the
    SELECT of the two reading routes name the column and fail, so these
    requests throw, and the DELETE routes find nothing. *)
Theorem schema_sql_stores_nothing :
  let empty := mkTable schema_sql_columns [] in
  (forall ops, fold_left apply_operation ops empty = empty)
  /\ (forall value now,
        (0 < length (trim value))%nat ->
        fst (createString value now empty) = Thrown NoSuchColumn)
  /\ (forall f, listStrings f empty = Thrown NoSuchColumn
                \/ listStrings f empty = JsonError 400)
  /\ (forall param value,
        param <> [] -> decodeURIComponent param = Some value ->
        getByValue param empty = Answered (Thrown NoSuchColumn)
        /\ fst (deleteByValue param empty) = NotFound404
        /\ fst (deleteById param empty) = NotFound404).
Proof.
  cbv zeta.
  assert (Hc : forall value now,
    createString value now (mkTable schema_sql_columns [])
    = (if (0 <? length (trim value))%nat then Thrown NoSuchColumn else JsonError 400,
       mkTable schema_sql_columns [])).
  { intros value now. unfold createString.
    destruct (0 <? length (trim value))%nat; reflexivity. }
  assert (Hd : forall column key param,
    has_columns [column] (mkTable schema_sql_columns []) = true ->
    snd (delete_route column key param (mkTable schema_sql_columns []))
    = mkTable schema_sql_columns []
    /\ (param <> [] -> forall text, decodeURIComponent param = Some text ->
        fst (delete_route column key param (mkTable schema_sql_columns []))
        = NotFound404)).
  { intros column key param Hcol. unfold delete_route, delete_where. rewrite Hcol.
    destruct param as [|c param]; [split; [reflexivity|congruence]|].
    cbn [length Nat.eqb]. destruct (decodeURIComponent (c :: param)) as [text|].
    - split; [reflexivity|]. intros _ text' _. reflexivity.
    - split; [reflexivity|]. intros _ text' H. discriminate. }
  split; [|split; [|split]].
  - induction ops as [|op ops IH]; [reflexivity|]. cbn [fold_left].
    replace (apply_operation (mkTable schema_sql_columns []) op)
      with (mkTable schema_sql_columns []); [exact IH|].
    symmetry. destruct op; cbn [apply_operation].
    + rewrite Hc. reflexivity.
    + apply Hd. reflexivity.
    + apply Hd. reflexivity.
  - intros value now Hb. rewrite Hc.
    replace (0 <? length (trim value))%nat with true
      by (symmetry; apply Nat.ltb_lt, Hb). reflexivity.
  - intros f. unfold listStrings.
    destruct (match Filters.min_length f with Some _ => _ | None => _ end); [auto|].
    left. reflexivity.
  - intros param value Hp Hdec. split; [|split].
    + unfold getByValue. rewrite Hdec.
      destruct param as [|c param]; [congruence|]. reflexivity.
    + exact (proj2 (Hd "value"%string Row.value param eq_refl) Hp value Hdec).
    + exact (proj2 (Hd "id"%string Row.id param eq_refl) Hp value Hdec).
Qed.

(** X23: two POST /strings requests for one value that both run their
    pre-check before either writes: whichever writes first answers 201
    and stores the row; the write of the other fails on the constraint
    and its handler throws, it never answers 409. *)
Theorem racing_posts_throw (value now1 now2 : jsstring) (t : Table) :
  has_columns expected_columns t = true ->
  existsb (fun r => jsstring_eqb (Row.id r)
                      (Props.sha256_hash (computeStringProperties value))
                    || jsstring_eqb (Row.value r) value) (rows t) = false ->
  run [0; 1; 0; 1]%nat [(value, now1, Start); (value, now2, Start)] t
  = ([(value, now1, Done (Json 201 (record_of value now1)));
      (value, now2, Done (Thrown ConstraintFailed))],
     mkTable (columns t)
       (rows t ++ [row_of value (computeStringProperties value) now1]))
  /\ run [0; 1; 1; 0]%nat [(value, now1, Start); (value, now2, Start)] t
     = ([(value, now1, Done (Thrown ConstraintFailed));
         (value, now2, Done (Json 201 (record_of value now2)))],
        mkTable (columns t)
          (rows t ++ [row_of value (computeStringProperties value) now2])).
Proof.
  intros Hcols Hfree. split; [exact (race_loser_throws value now1 now2 t Hcols Hfree)|].
  pose proof (has_columns_subset t Hcols) as Hsub.
  assert (S1 : forall now, post_step value now Start t = (Checked, t)).
  { intros now. cbn [post_step]. rewrite (check_existing_cases _ _ Hsub), Hfree.
    reflexivity. }
  assert (S2 : forall now, post_step value now Checked t
               = (Done (Json 201 (record_of value now)),
                  mkTable (columns t)
                    (rows t ++ [row_of value (computeStringProperties value) now]))).
  { intros now. cbn [post_step]. unfold write_record, insert_row. rewrite Hcols.
    cbn [row_of Row.id Row.value]. rewrite Hfree. reflexivity. }
  assert (S3 : forall now now',
               post_step value now' Checked
                 (mkTable (columns t)
                    (rows t ++ [row_of value (computeStringProperties value) now]))
               = (Done (Thrown ConstraintFailed),
                  mkTable (columns t)
                    (rows t ++ [row_of value (computeStringProperties value) now]))).
  { intros now now'. cbn [post_step]. unfold write_record, insert_row. cbn [columns rows].
    replace (has_columns expected_columns (mkTable (columns t) _)) with true
      by (symmetry; exact Hcols).
    rewrite existsb_app. cbn [existsb row_of Row.id Row.value].
    rewrite jsstring_eqb_refl, orb_true_r. reflexivity. }
  assert (R : forall i schedule reqs t0,
    run (i :: schedule) reqs t0
    = let (reqs', t') := run_one i reqs t0 in run schedule reqs' t') by reflexivity.
  rewrite R. unfold run_one at 1.
  change ([(value, now1, Start); (value, now2, Start)] !! 0%nat)
    with (Some (value, now1, Start)).
  cbv iota beta. rewrite S1.
  change (<[0%nat:=(value, now1, Checked)]> [(value, now1, Start); (value, now2, Start)])
    with [(value, now1, Checked); (value, now2, Start)].
  rewrite R. unfold run_one at 1.
  change ([(value, now1, Checked); (value, now2, Start)] !! 1%nat)
    with (Some (value, now2, Start)).
  cbv iota beta. rewrite S1.
  change (<[1%nat:=(value, now2, Checked)]> [(value, now1, Checked); (value, now2, Start)])
    with [(value, now1, Checked); (value, now2, Checked)].
  rewrite R. unfold run_one at 1.
  change ([(value, now1, Checked); (value, now2, Checked)] !! 1%nat)
    with (Some (value, now2, Checked)).
  cbv iota beta. rewrite S2.
  match goal with
  | |- context [<[1%nat:=?x]> [?a; ?b]] => change (<[1%nat:=x]> [a; b]) with [a; x]
  end.
  rewrite R. unfold run_one at 1.
  match goal with
  | |- context [[?a; ?b] !! 0%nat] => change ([a; b] !! 0%nat) with (Some a)
  end.
  cbv iota beta. rewrite S3. reflexivity.
Qed.

End SchemaFacts.

(** ** What the requests change and keep *)

Section FrameFacts.

Context {U : Unicode}.

(** X24: only a POST that answers 201 and a DELETE that answers 204
    change the table: the POST appends the row of its value and touches
    no other row, the DELETE removes rows and touches no other; every
    other answer of these routes (400, 404, 409 or a thrown error) leaves
    the table exactly as it was. *)
Theorem only_successful_writes_change_the_table (t : Table) :
  (forall value now,
     match fst (createString value now t) with
     | Json _ _ =>
         snd (createString value now t)
         = mkTable (columns t)
             (rows t ++ [row_of value (computeStringProperties value) now])
     | _ => snd (createString value now t) = t
     end)
  /\ (forall param,
        match fst (deleteByValue param t) with
        | NoContent204 =>
            exists value,
              decodeURIComponent param = Some value
              /\ snd (deleteByValue param t)
                 = mkTable (columns t)
                     (List.filter (fun r => negb (jsstring_eqb (Row.value r) value))
                        (rows t))
        | _ => snd (deleteByValue param t) = t
        end)
  /\ (forall param,
        match fst (deleteById param t) with
        | NoContent204 =>
            exists id,
              decodeURIComponent param = Some id
              /\ snd (deleteById param t)
                 = mkTable (columns t)
                     (List.filter (fun r => negb (jsstring_eqb (Row.id r) id)) (rows t))
        | _ => snd (deleteById param t) = t
        end).
Proof.
  assert (D : forall column key param,
    match fst (delete_route column key param t) with
    | NoContent204 =>
        exists text,
          decodeURIComponent param = Some text
          /\ snd (delete_route column key param t)
             = mkTable (columns t)
                 (List.filter (fun r => negb (jsstring_eqb (key r) text)) (rows t))
    | _ => snd (delete_route column key param t) = t
    end).
  { intros column key param. unfold delete_route, delete_where.
    destruct (length param =? 0)%nat; [reflexivity|].
    destruct (decodeURIComponent param) as [text|]; [|reflexivity].
    destruct (has_columns [column] t); [|reflexivity].
    rewrite filter_none_length.
    destruct (existsb _ (rows t)) eqn:E; cbn [negb fst snd].
    - exists text. auto.
    - rewrite filter_all; [destruct t; reflexivity|].
      rewrite <- E. clear. induction (rows t) as [|r l IH]; [reflexivity|].
      cbn [existsb]. rewrite negb_involutive, IH. reflexivity. }
  split; [|split; intros param; apply D].
  intros value now. unfold createString.
  destruct (0 <? length (trim value))%nat; [|reflexivity].
  unfold insert, check_existing.
  destruct (select_existing _ value t) as [e|[found|]]; try reflexivity.
  unfold write_record, insert_row.
  destruct (has_columns expected_columns t); [|reflexivity].
  destruct (existsb _ (rows t)); reflexivity.
Qed.

Lemma post_step_written (value now : jsstring) (phase : Phase) (t : Table) :
  (0 < length (trim value))%nat ->
  columns t = expected_columns -> Forall written_row (rows t) ->
  columns (snd (post_step value now phase t)) = expected_columns
  /\ Forall written_row (rows (snd (post_step value now phase t))).
Proof.
  intros Hv Hc Hw. destruct phase as [| |response]; cbn [post_step].
  - destruct (check_existing value t); auto.
  - unfold write_record, insert_row.
    destruct (has_columns expected_columns t); [|auto].
    destruct (existsb _ (rows t)); [auto|]. cbn [snd columns rows].
    split; [exact Hc|]. apply Forall_app. split; [exact Hw|].
    constructor; [|constructor]. split; [exact Hv|reflexivity].
  - auto.
Qed.

Lemma run_written (schedule : list nat) : forall reqs t,
  Forall (fun r : Request => (0 < length (trim (fst (fst r))))%nat) reqs ->
  columns t = expected_columns -> Forall written_row (rows t) ->
  columns (snd (run schedule reqs t)) = expected_columns
  /\ Forall written_row (rows (snd (run schedule reqs t))).
Proof.
  induction schedule as [|i schedule IH]; intros reqs t Hreqs Hc Hw; [auto|].
  cbn [run]. unfold run_one.
  destruct (reqs !! i) as [[[value now] phase]|] eqn:Ei; [|exact (IH _ _ Hreqs Hc Hw)].
  assert (Hv : (0 < length (trim value))%nat).
  { rewrite List.Forall_forall in Hreqs.
    apply list_elem_of_lookup_2, list_elem_of_In, Hreqs in Ei. exact Ei. }
  pose proof (post_step_written value now phase t Hv Hc Hw) as K.
  destruct (post_step value now phase t) as [phase' t']. cbn [snd] in K.
  apply IH; [|tauto|tauto].
  apply List.Forall_forall. intros r Hr.
  apply list_elem_of_In, list_elem_of_lookup_1 in Hr as [k Hk].
  apply list_lookup_insert_Some in Hk as [(_ & <- & _)|(_ & Hk)]; [exact Hv|].
  rewrite List.Forall_forall in Hreqs.
  apply list_elem_of_lookup_2, list_elem_of_In, Hreqs in Hk. exact Hk.
Qed.

(** X25: concurrent POST /strings requests for values that are not
    blank, interleaved in any way on a table built by the routes, keep
    what the routes keep: the columns, rows pairwise different in id and
    in value, and every row the row of its own value. *)
Theorem concurrent_posts_keep_invariant (ops : list Operation)
  (schedule : list nat) (reqs : list Request) :
  Forall (fun r : Request => (0 < length (trim (fst (fst r))))%nat) reqs ->
  let t' := snd (run schedule reqs (table_after ops)) in
  columns t' = expected_columns
  /\ unique_rows (rows t')
  /\ (forall r, In r (rows t') ->
        (0 < length (trim (Row.value r)))%nat
        /\ r = row_of (Row.value r) (computeStringProperties (Row.value r))
                 (Row.created_at r)).
Proof.
  intros Hreqs. cbv zeta.
  destruct (table_after_kept ops) as (Hc & Hu & Hw).
  destruct (run_written schedule reqs _ Hreqs Hc Hw) as [Hc' Hw'].
  split; [exact Hc'|]. split; [apply run_unique, Hu|].
  rewrite List.Forall_forall in Hw'. exact Hw'.
Qed.

End FrameFacts.

(** ** The theorems at sample requests *)

Local Abbreviation noon := (js "2025-10-20T12:00:00.000Z").
Local Abbreviation one_pm := (js "2025-10-20T13:00:00.000Z").

(** The record and the row of a value at a time, on the host
    [basic_latin]. *)
Local Abbreviation sample_record value now :=
  {| Rec.id := Props.sha256_hash (computeStringProperties (U := basic_latin) value);
     Rec.value := value;
     Rec.properties := computeStringProperties (U := basic_latin) value;
     Rec.created_at := now |}.

Local Abbreviation sample_row value now :=
  (row_of value (computeStringProperties (U := basic_latin) value) now).

Local Abbreviation empty_table := (mkTable expected_columns []).

Lemma create_then_get_witness :
  createString (U := basic_latin) (js "abc") noon empty_table
  = (Json 201 (sample_record (js "abc") noon),
     mkTable expected_columns [sample_row (js "abc") noon])
  /\ decodeURIComponent (js "abc") = Some (js "abc")
  /\ getByValue (js "abc") (mkTable expected_columns [sample_row (js "abc") noon])
     = Answered (Json 200 (sample_record (js "abc") noon)).
Proof.
  assert (H1 : createString (U := basic_latin) (js "abc") noon empty_table
               = (Json 201 (sample_record (js "abc") noon),
                  mkTable expected_columns [sample_row (js "abc") noon]))
    by (vm_compute; reflexivity).
  assert (H2 : decodeURIComponent (js "abc") = Some (js "abc")) by reflexivity.
  exact (conj H1 (conj H2 (create_then_get (U := basic_latin) _ _ _ _ _ _ _ H1 H2))).
Defined.

Lemma deleteByValue_outcome_witness :
  has_columns ["value"]%string (mkTable expected_columns [sample_row (js "abc") noon])
  = true
  /\ js "abc" <> []
  /\ decodeURIComponent (js "abc") = Some (js "abc")
  /\ fst (deleteByValue (js "abc")
            (mkTable expected_columns [sample_row (js "abc") noon]))
     = NoContent204.
Proof.
  assert (H1 : has_columns ["value"]%string
                 (mkTable expected_columns [sample_row (js "abc") noon]) = true)
    by reflexivity.
  assert (H2 : js "abc" <> []) by discriminate.
  assert (H3 : decodeURIComponent (js "abc") = Some (js "abc")) by reflexivity.
  split; [exact H1|]. split; [exact H2|]. split; [exact H3|].
  pose proof (deleteByValue_outcome (js "abc") (js "abc")
                (mkTable expected_columns [sample_row (js "abc") noon]) H1 H2 H3) as H.
  cbv zeta in H. destruct H as ([_ H] & _).
  apply H. exists (sample_row (js "abc") noon). split; [left|]; reflexivity.
Defined.

Lemma delete_then_get_witness :
  has_columns expected_columns (mkTable expected_columns [sample_row (js "abc") noon])
  = true
  /\ js "abc" <> []
  /\ decodeURIComponent (js "abc") = Some (js "abc")
  /\ getByValue (js "abc")
       (snd (deleteByValue (js "abc")
               (mkTable expected_columns [sample_row (js "abc") noon])))
     = Answered (JsonError 404).
Proof.
  assert (H1 : has_columns expected_columns
                 (mkTable expected_columns [sample_row (js "abc") noon]) = true)
    by reflexivity.
  assert (H2 : js "abc" <> []) by discriminate.
  assert (H3 : decodeURIComponent (js "abc") = Some (js "abc")) by reflexivity.
  split; [exact H1|]. split; [exact H2|]. split; [exact H3|].
  pose proof (delete_then_get (js "abc")
                (mkTable expected_columns [sample_row (js "abc") noon])) as H.
  cbv zeta in H. destruct H as (_ & _ & _ & H).
  exact (proj1 (H (js "abc") H1 H2 H3)).
Defined.

Lemma create_then_delete_witness :
  createString (U := basic_latin) (js "abc") noon empty_table
  = (Json 201 (sample_record (js "abc") noon),
     mkTable expected_columns [sample_row (js "abc") noon])
  /\ decodeURIComponent (js "abc") = Some (js "abc")
  /\ deleteByValue (js "abc") (mkTable expected_columns [sample_row (js "abc") noon])
     = (NoContent204, empty_table)
  /\ deleteById (Rec.id (sample_record (js "abc") noon))
       (mkTable expected_columns [sample_row (js "abc") noon])
     = (NoContent204, empty_table).
Proof.
  assert (H1 : createString (U := basic_latin) (js "abc") noon empty_table
               = (Json 201 (sample_record (js "abc") noon),
                  mkTable expected_columns [sample_row (js "abc") noon]))
    by (vm_compute; reflexivity).
  assert (H2 : decodeURIComponent (js "abc") = Some (js "abc")) by reflexivity.
  exact (conj H1 (conj H2 (create_then_delete (U := basic_latin) _ _ _ _ _ _ _ H1 H2))).
Defined.

Lemma get_returns_computed_witness :
  getByValue (js "abc") (table_after (U := basic_latin) [op_create (js "abc") noon])
  = Answered (Json 200 (sample_record (js "abc") noon))
  /\ decodeURIComponent (js "abc") = Some (js "abc").
Proof.
  assert (H1 : getByValue (js "abc")
                 (table_after (U := basic_latin) [op_create (js "abc") noon])
               = Answered (Json 200 (sample_record (js "abc") noon)))
    by (vm_compute; reflexivity).
  split; [exact H1|].
  exact (proj1 (proj2 (get_returns_computed (U := basic_latin) _ _ _ _ H1))).
Defined.

Lemma delete_by_id_then_create_witness :
  (0 < length (trim (js "abc")))%nat
  /\ fst (createString (U := basic_latin) (js "abc") one_pm
            (snd (deleteById
                    (Props.sha256_hash (computeStringProperties (U := basic_latin) (js "abc")))
                    (table_after (U := basic_latin) [op_create (js "abc") noon]))))
     = Json 201 (sample_record (js "abc") one_pm).
Proof.
  assert (H1 : (0 < length (trim (js "abc")))%nat) by (vm_compute; lia).
  split; [exact H1|].
  exact (delete_by_id_then_create (U := basic_latin)
           [op_create (js "abc") noon] (js "abc") one_pm H1).
Defined.

Lemma listing_agrees_with_applyFilters_witness :
  listStrings (U := basic_latin) (Filters.mk None None None None (Some (js "a")))
    (table_after (U := basic_latin) [op_create (js "abc") noon])
  = Json 200 ([sample_record (js "abc") noon],
              Filters.mk None None None None (Some (js "a")))
  /\ Permutation [sample_record (js "abc") noon]
       (applyFilters (U := basic_latin)
          (List.map mapRowToRecord
             (rows (table_after (U := basic_latin) [op_create (js "abc") noon])))
          (Filters.mk None None None None (Some (js "a")))).
Proof.
  assert (H1 : forall ch,
    Filters.contains_character (Filters.mk None None None None (Some (js "a"))) = Some ch ->
    exists c, ch = [c] /\ 0 < c < 128 /\ c <> 37 /\ c <> 95
              /\ forall r,
                   In r (rows (table_after (U := basic_latin) [op_create (js "abc") noon])) ->
                   Forall (fun d => 0 < d < 128) (Row.value r)).
  { intros ch [= <-]. exists 97. repeat split; try discriminate.
    assert (E : rows (table_after (U := basic_latin) [op_create (js "abc") noon])
                = [sample_row (js "abc") noon]) by (vm_compute; reflexivity).
    intros r Hin. rewrite E in Hin. destruct Hin as [<-|[]]. repeat constructor. }
  assert (H2 : listStrings (U := basic_latin)
                 (Filters.mk None None None None (Some (js "a")))
                 (table_after (U := basic_latin) [op_create (js "abc") noon])
               = Json 200 ([sample_record (js "abc") noon],
                           Filters.mk None None None None (Some (js "a"))))
    by (vm_compute; reflexivity).
  split; [exact H2|].
  exact (proj2 (proj2 (listing_agrees_with_applyFilters (U := basic_latin) _ _ _ _ _ H1 H2))).
Defined.

Lemma listing_newest_first_witness :
  fetchRecords (U := basic_latin)
    (table_after (U := basic_latin) [op_create (js "a") noon; op_create (js "b") one_pm])
    Filters.empty
  = inr [sample_record (js "b") one_pm; sample_record (js "a") noon]
  /\ text_ltb (codepoints one_pm) (codepoints noon) = false.
Proof.
  assert (H1 : fetchRecords (U := basic_latin)
                 (table_after (U := basic_latin)
                    [op_create (js "a") noon; op_create (js "b") one_pm])
                 Filters.empty
               = inr [sample_record (js "b") one_pm; sample_record (js "a") noon])
    by (vm_compute; reflexivity).
  split; [exact H1|].
  exact (listing_newest_first (U := basic_latin) _ _ _ [] [] []
           (sample_record (js "b") one_pm) (sample_record (js "a") noon) H1 eq_refl).
Defined.

Lemma is_palindrome_ascii_invariance_witness :
  Forall (fun c => c < 128) (js "Was it a car")
  /\ Props.is_palindrome (computeStringProperties (U := basic_latin) (rev (js "Was it a car")))
     = Props.is_palindrome (computeStringProperties (U := basic_latin) (js "Was it a car")).
Proof.
  assert (H : Forall (fun c => c < 128) (js "Was it a car")) by (repeat constructor).
  split; [exact H|].
  pose proof (is_palindrome_ascii_invariance (U := basic_latin) (js "Was it a car") H) as P.
  cbv zeta in P. exact (proj1 P).
Defined.

Lemma natural_language_route_witness :
  parseNaturalLanguageQuery (U := basic_latin) (js "strings longer than 10")
  = success (Filters.mk None (Some (Finite 11)) None None None)
  /\ forall status,
       filterByNaturalLanguage (U := basic_latin) (js "strings longer than 10") empty_table
       <> JsonError status.
Proof.
  assert (H : parseNaturalLanguageQuery (U := basic_latin) (js "strings longer than 10")
              = success (Filters.mk None (Some (Finite 11)) None None None))
    by (vm_compute; reflexivity).
  split; [exact H|].
  exact (proj1 (proj2 (proj2 (natural_language_route (U := basic_latin) _ _ empty_table H)))).
Defined.

Lemma malformed_escape_throws_witness :
  ~ In 37 (js "100")
  /\ getByValue (js "100%") empty_table = ThrownURIError.
Proof.
  assert (H1 : ~ In 37 (js "100")) by (intros [H|[H|[H|[]]]]; discriminate).
  split; [exact H1|].
  pose proof (malformed_escape_throws (js "100") [] empty_table H1 I) as H.
  cbv zeta in H. exact (proj1 (proj2 H)).
Defined.

Lemma escaped_value_decodes_witness :
  code_units [233; 55357; 56832]
  /\ Forall (fun cp => in_range 55296 57343 cp = false) (codepoints [233; 55357; 56832])
  /\ decodeURIComponent (js "%C3%A9%F0%9F%98%80") = Some [233; 55357; 56832].
Proof.
  assert (H1 : code_units [233; 55357; 56832]) by (repeat constructor).
  assert (H2 : Forall (fun cp => in_range 55296 57343 cp = false)
                 (codepoints [233; 55357; 56832])) by (repeat constructor).
  split; [exact H1|]. split; [exact H2|].
  exact (escaped_value_decodes [233; 55357; 56832] H1 H2).
Defined.

Lemma concurrent_posts_one_winner_witness :
  Forall (fun r : Request => snd r = Start)
    [(js "a", noon, Start); (js "a", one_pm, Start)]
  /\ fst (run (U := basic_latin) [0; 1; 0; 1]%nat
            [(js "a", noon, Start); (js "a", one_pm, Start)] empty_table) !! 0%nat
     = Some (js "a", noon, Done (Json 201 (sample_record (js "a") noon)))
  /\ exists r,
       In r (rows (snd (run (U := basic_latin) [0; 1; 0; 1]%nat
                          [(js "a", noon, Start); (js "a", one_pm, Start)] empty_table)))
       /\ Row.value r = js "a".
Proof.
  assert (H1 : Forall (fun r : Request => snd r = Start)
                 [(js "a", noon, Start); (js "a", one_pm, Start)])
    by (repeat constructor).
  assert (H2 : fst (run (U := basic_latin) [0; 1; 0; 1]%nat
                      [(js "a", noon, Start); (js "a", one_pm, Start)] empty_table)
               !! 0%nat
               = Some (js "a", noon, Done (Json 201 (sample_record (js "a") noon))))
    by (vm_compute; reflexivity).
  split; [exact H1|]. split; [exact H2|].
  exact (proj2 (proj2 (concurrent_posts_one_winner (U := basic_latin) _ _ _ H1
                         _ _ _ _ _ _ _ _ _ H2 H2))).
Defined.

Lemma racing_posts_throw_witness :
  has_columns expected_columns empty_table = true
  /\ run (U := basic_latin) [0; 1; 1; 0]%nat
       [(js "a", noon, Start); (js "a", one_pm, Start)] empty_table
     = ([(js "a", noon, Done (Thrown ConstraintFailed));
         (js "a", one_pm, Done (Json 201 (sample_record (js "a") one_pm)))],
        mkTable expected_columns [sample_row (js "a") one_pm]).
Proof.
  assert (H1 : has_columns expected_columns empty_table = true) by reflexivity.
  split; [exact H1|].
  exact (proj2 (racing_posts_throw (U := basic_latin) (js "a") noon one_pm
                  empty_table H1 eq_refl)).
Defined.

Lemma concurrent_posts_keep_invariant_witness :
  Forall (fun r : Request => (0 < length (trim (fst (fst r))))%nat)
    [(js "a", noon, Start); (js "a", one_pm, Start)]
  /\ unique_rows
       (rows (snd (run (U := basic_latin) [0; 1; 0; 1]%nat
                     [(js "a", noon, Start); (js "a", one_pm, Start)]
                     (table_after (U := basic_latin) [op_create (js "b") noon])))).
Proof.
  assert (H : Forall (fun r : Request => (0 < length (trim (fst (fst r))))%nat)
                [(js "a", noon, Start); (js "a", one_pm, Start)])
    by (repeat constructor).
  split; [exact H|].
  pose proof (concurrent_posts_keep_invariant (U := basic_latin)
                [op_create (js "b") noon] [0; 1; 0; 1]%nat
                [(js "a", noon, Start); (js "a", one_pm, Start)] H) as K.
  cbv zeta in K. exact (proj1 (proj2 K)).
Defined.
